(** * The "hello" browser demo: a shallow embedding of its controllers

    The repository holds several generations of one UI controller:

    - [src/csound/synth.csd]: the instrument played by the audio engine
      (module [Synth]);
    - [src/src/main.basic.csound.ts]: the audio-only controller [AudioApp]
      (module [AudioApp], each handler run to its end; module
      [AudioAsync], with runs of [initialize] that overlap);
    - [src/src/main.ts.audio_only]: the click handler of the audio-only
      [App] (module [AudioOnly]);
    - the 3D controller [App] with its animation state, resource registry,
      model loading, keyboard and click handlers and disposal
      (module [Scene3D], from the file that holds [startCubeRotation],
      [loadModel], [handleKeyDown] and [dispose]).  The timer callbacks
      of the older generations [main.ts.bak2] and [main.ts.old] clear
      the flag without looking at [disposed]; they are in module
      [Legacy], with the functions that set the timers there;
    - of the same 3D controller, the animation loop (module [Animation])
      and the traversal of the scene graph (module [SceneGraph]);
    - of [src/src/main.ts.bak2], the error handler with its toasts
      (module [ErrorHandler]), the performance monitor (module
      [PerformanceOptimizer]) and the start of the audio engine by a
      button (module [StartAudio]); of [src/src/main.ts.old], the
      keyboard listener (module [Old]) and the animation loop (module
      [OldLoop]).

    The rendering library and the audio engine are opaque collaborators:
    what they answer (ray-cast hits, the outcome of a fetch, whether an
    engine promise resolves, the draw of [Math.random]) is an argument of
    the handler that consumes it.  JavaScript numbers are modelled by exact
    rationals [Q]; the rounding of IEEE doubles is not modelled, apart from
    a check of the frequency range at its two ends ([frequencyDouble]). *)

From Stdlib Require Import ZArith QArith Lqa List String Ascii Bool Lia.
From Stdlib Require Import SpecFloat.
Import ListNotations.

Set Implicit Arguments.

Open Scope string_scope.
Open Scope list_scope.

(** ** Completions: state passing with exceptions

    A method of a controller object reads and mutates the object and either
    returns or throws.  What it did to the object before it threw stays
    done, so an abrupt completion carries the state as well. *)

Definition JsError := string.

Inductive Completion (St A : Type) : Type :=
| Normal (a : A) (s : St)
| Abrupt (e : JsError) (s : St).

Arguments Normal {St A} a s.
Arguments Abrupt {St A} e s.

Definition Js (St A : Type) : Type := St -> Completion St A.

Definition stateOf {St A} (c : Completion St A) : St :=
  match c with
  | Normal _ s => s
  | Abrupt _ s => s
  end.

Definition returns {St A} (c : Completion St A) : bool :=
  match c with
  | Normal _ _ => true
  | Abrupt _ _ => false
  end.

Section Combinators.
Context {St : Type}.

Definition ret {A} (a : A) : Js St A := fun s => Normal a s.

Definition bind {A B} (m : Js St A) (k : A -> Js St B) : Js St B :=
  fun s =>
    match m s with
    | Normal a s' => k a s'
    | Abrupt e s' => Abrupt e s'
    end.

(** [throw new Error(e)], and a rejected promise under [await]. *)
Definition throw {A} (e : JsError) : Js St A := fun s => Abrupt e s.

(** [try { body } catch (error) { handler(error) }] *)
Definition tryCatch {A} (body : Js St A) (handler : JsError -> Js St A)
  : Js St A :=
  fun s =>
    match body s with
    | Normal a s' => Normal a s'
    | Abrupt e s' => handler e s'
    end.

Definition gets {A} (proj : St -> A) : Js St A := fun s => Normal (proj s) s.

Definition modify (f : St -> St) : Js St unit := fun s => Normal tt (f s).

(** [if (c) { m }] with no else branch. *)
Definition when (c : bool) (m : Js St unit) : Js St unit :=
  if c then m else ret tt.

(** A listener whose promise nobody awaits: a rejection is dropped by the
    dispatcher, the mutations made before it stay. *)
Definition detached {A} (m : Js St A) : Js St unit :=
  fun s => Normal tt (stateOf (m s)).
End Combinators.

Declare Scope js_scope.
Delimit Scope js_scope with js.
Notation "x <- m ;; k" := (bind m (fun x => k))
  (at level 61, m at next level, right associativity) : js_scope.
Notation "m ;; k" := (bind m (fun _ => k))
  (at level 61, right associativity) : js_scope.
Open Scope js_scope.

(** ** [synth.csd]: instrument 1 *)

Module Synth.
Section Instr1.
(** [poscil] is an opcode of the engine.  One instance keeps a private
    state (its phase) between samples; [poscil amp cps st] is the sample
    it produces and the state it leaves. *)
Variable Osc : Type.
Variable poscil : Q -> Q -> Osc -> Q * Osc.

(** The three [poscil] instances of one running note. *)
Record Note : Type := mkNote { osc1 : Osc; osc2 : Osc; osc3 : Osc }.

(** One sample of
<<
    instr 1
      iamp = p4
      ifreq = p5
      a1 = poscil(iamp, ifreq)
      a2 = poscil(iamp, ifreq * 1.5)
      a3 = poscil(iamp, ifreq * 2)
      aout = (a1 + a2 + a3) * 0.3
      outs aout, aout
    endin
>>
    The result is the pair (left, right) handed to [outs]. *)
Definition instr1 (p4 p5 : Q) (st : Note) : (Q * Q) * Note :=
  let iamp := p4 in
  let ifreq := p5 in
  let '(a1, o1) := poscil iamp ifreq (osc1 st) in
  let '(a2, o2) := poscil iamp (ifreq * (3 # 2)) (osc2 st) in
  let '(a3, o3) := poscil iamp (ifreq * 2) (osc3 st) in
  let aout := (a1 + a2 + a3) * (3 # 10) in
  ((aout, aout), mkNote o1 o2 o3).

(** The first [n] stereo samples of a note. *)
Fixpoint perform (n : nat) (p4 p5 : Q) (st : Note) : list (Q * Q) :=
  match n with
  | O => []
  | S n' =>
      let '(frame, st') := instr1 p4 p5 st in
      frame :: perform n' p4 p5 st'
  end.

(** The first [n] samples of a single oscillator run on its own. *)
Fixpoint oscillate (n : nat) (amp cps : Q) (o : Osc) : list Q :=
  match n with
  | O => []
  | S n' =>
      let '(a, o') := poscil amp cps o in
      a :: oscillate n' amp cps o'
  end.

(** Sample-wise mix of three signals: their sum scaled by 0.3. *)
Fixpoint mix3 (x y z : list Q) : list Q :=
  match x, y, z with
  | a :: x', b :: y', c :: z' => (a + b + c) * (3 # 10) :: mix3 x' y' z'
  | _, _, _ => []
  end.
End Instr1.
End Synth.

(** ** Messages to the audio engine

    A score line is written as a template literal.  Its pieces are kept as
    they are: literal text, and numbers that the runtime converts to text. *)

Inductive Piece : Type :=
| Text (s : string)
| Num (q : Q).

Definition Message : Type := list Piece.

(** The methods of an engine handle that the controllers call. *)
Inductive CsoundCall : Type :=
| SetOption (option : string)
| CompileCsdText (csd : string)
| Start
| InputMessage (m : Message)
| Stop.

(** ** [main.basic.csound.ts]: class [AudioApp] *)

Module AudioApp.

(** A retry button attached to [document.body]. *)
Record Button : Type := mkButton { buttonId : nat; textContent : string }.

Inductive ClickTarget : Type :=
| Page
| RetryButton (id : nat).

(** What can be observed from outside, newest first in [log]. *)
Inductive Observation : Type :=
| Clicked (target : ClickTarget)
| Created (engine : nat)
| Engine (engine : nat) (call : CsoundCall)
| ConsoleError (msg : string) (error : JsError).

Record State : Type := mkState {
  csound : option nat;        (* private csound: Csound | null *)
  isInitialized : bool;       (* private isInitialized *)
  clickHandlers : nat;        (* listeners added by setupClickHandler *)
  body : list Button;         (* retry buttons in document.body *)
  fresh : nat;                (* identity of the next engine or button *)
  log : list Observation
}.

Definition initial : State :=
  mkState None false 0 [] 0 [].

Definition set_csound (c : option nat) (s : State) : State :=
  mkState c (isInitialized s) (clickHandlers s) (body s) (fresh s) (log s).
Definition set_isInitialized (b : bool) (s : State) : State :=
  mkState (csound s) b (clickHandlers s) (body s) (fresh s) (log s).
Definition set_clickHandlers (n : nat) (s : State) : State :=
  mkState (csound s) (isInitialized s) n (body s) (fresh s) (log s).
Definition set_body (b : list Button) (s : State) : State :=
  mkState (csound s) (isInitialized s) (clickHandlers s) b (fresh s) (log s).
Definition set_fresh (n : nat) (s : State) : State :=
  mkState (csound s) (isInitialized s) (clickHandlers s) (body s) n (log s).
Definition observe (o : Observation) (s : State) : State :=
  mkState (csound s) (isInitialized s) (clickHandlers s) (body s) (fresh s)
          (o :: log s).

(** The observations in the order they happened. *)
Definition trace (s : State) : list Observation := rev (log s).

(** What the environment supplies to one run of [initializeAudio]: which
    of the engine's promises resolve, and the draw of [Math.random]. *)
Record Attempt : Type := mkAttempt {
  createOk : bool;
  setOptionOk : bool;
  compileOk : bool;
  startOk : bool;
  inputMessageOk : bool;
  random : Q
}.

Definition csdContent : string := "
<CsoundSynthesizer>
<CsOptions>
</CsOptions>
<CsInstruments>
sr = 48000
ksmps = 128
nchnls = 2
0dbfs = 1

instr 1
  iamp = p4
  ifreq = p5
  
  aenv = linen:a(iamp, 0.1, p3, 0.1)
  asig = oscili:a(aenv, ifreq)
  outs asig, asig
endin
</CsInstruments>
<CsScore>
</CsScore>
</CsoundSynthesizer>
".

(** [await Csound()] *)
Definition Csound (ok : bool) : Js State nat :=
  if ok then
    h <- gets fresh ;;
    modify (fun s => observe (Created h) (set_fresh (S h) s)) ;;
    ret h
  else throw "Csound() rejected".

(** [await this.csound.method(...)]: the call reaches the engine, then the
    promise resolves or rejects.  On [null] the property access throws. *)
Definition call (c : CsoundCall) (ok : bool) : Js State unit :=
  h <- gets csound ;;
  match h with
  | None => throw "TypeError: this.csound is null"
  | Some h =>
      modify (observe (Engine h c)) ;;
      if ok then ret tt else throw "engine call rejected"
  end.

(** [private async playSound()] *)
Definition playSound (r : Q) (ok : bool) : Js State unit :=
  c <- gets csound ;;
  match c with
  | None => ret tt
  | Some _ =>
      let frequency := 220 + r * 660 in
      call (InputMessage [Text "i 1 0 2 0.5 "; Num frequency]) ok
  end.

(** [private async initializeAudio()] *)
Definition initializeAudio (a : Attempt) : Js State unit :=
  h <- Csound (createOk a) ;;
  modify (set_csound (Some h)) ;;
  call (SetOption "-odac") (setOptionOk a) ;;
  call (CompileCsdText csdContent) (compileOk a) ;;
  call Start (startOk a) ;;
  playSound (random a) (inputMessageOk a) ;;
  modify (set_isInitialized true).

(** [private setupClickHandler()] *)
Definition setupClickHandler : Js State unit :=
  modify (fun s => set_clickHandlers (S (clickHandlers s)) s).

(** [private createRetryButton()]; the button's [onclick] is
    [retryOnclick] below. *)
Definition createRetryButton : Js State unit :=
  modify (fun s =>
    let retryButton := mkButton (fresh s) "Retry Audio Initialization" in
    set_body (body s ++ [retryButton]) (set_fresh (S (fresh s)) s)).

(** [private async initialize()] *)
Definition initialize (a : Attempt) : Js State unit :=
  tryCatch
    (initializeAudio a ;;
     setupClickHandler)
    (fun error =>
       modify (observe (ConsoleError "Audio initialization failed:" error)) ;;
       createRetryButton).

(** [retryButton.remove()] *)
Definition remove (id : nat) : Js State unit :=
  modify (fun s =>
    set_body (filter (fun b => negb (Nat.eqb (buttonId b) id)) (body s)) s).

(** [retryButton.textContent = text] *)
Definition setTextContent (id : nat) (text : string) : Js State unit :=
  modify (fun s =>
    set_body
      (map (fun b => if Nat.eqb (buttonId b) id then mkButton id text else b)
           (body s)) s).

(** [retryButton.onclick] of the button [id]. *)
Definition retryOnclick (id : nat) (a : Attempt) : Js State unit :=
  tryCatch
    (initialize a ;;
     remove id)
    (fun _ => setTextContent id "Failed - Try again").

(** One listener added by [setupClickHandler]. *)
Definition clickListener (r : Q) (ok : bool) : Js State unit :=
  b <- gets isInitialized ;;
  when b (playSound r ok).

(** The document's click listeners, in the order they were added; the
    [i]-th one gets the draw [rands i] and the engine answer [oks i]. *)
Fixpoint dispatchClick (n i : nat) (rands : nat -> Q) (oks : nat -> bool)
  : Js State unit :=
  match n with
  | O => ret tt
  | S n' =>
      detached (clickListener (rands i) (oks i)) ;;
      dispatchClick n' (S i) rands oks
  end.

(** [new AudioApp()]: the constructor starts [initialize] and nothing else
    runs before its promise settles. *)
Definition boot (a : Attempt) : State := stateOf (initialize a initial).

(** What the user does next.  Each handler runs to completion before the
    next event is taken: these are the runs in which no click comes
    while a run of [initialize] waits for the engine.  Module
    [AudioAsync] has the others as well. *)
Inductive UserEvent : Type :=
| ClickPage (rands : nat -> Q) (oks : nat -> bool)
| ClickRetry (id : nat) (a : Attempt) (rands : nat -> Q) (oks : nat -> bool).

Definition attached (id : nat) (s : State) : bool :=
  existsb (fun b => Nat.eqb (buttonId b) id) (body s).

(** A click on the page reaches the document's listeners.  A click on a
    retry button reaches them as well (it bubbles; each listener has
    called the engine before the first promise of the button's handler
    settles), then the button's handler goes on.  A button that is not in
    the page cannot be clicked. *)
Definition step (s : State) (e : UserEvent) : State :=
  match e with
  | ClickPage rands oks =>
      stateOf ((modify (observe (Clicked Page)) ;;
                n <- gets clickHandlers ;;
                dispatchClick n 0 rands oks) s)
  | ClickRetry id a rands oks =>
      if attached id s then
        stateOf ((modify (observe (Clicked (RetryButton id))) ;;
                  n <- gets clickHandlers ;;
                  dispatchClick n 0 rands oks ;;
                  detached (retryOnclick id a)) s)
      else s
  end.

Definition run (a : Attempt) (events : list UserEvent) : State :=
  fold_left step events (boot a).

(** [public dispose()] *)
Definition dispose : Js State unit :=
  c <- gets csound ;;
  match c with
  | Some h =>
      modify (observe (Engine h Stop)) ;;
      modify (set_csound None)
  | None => ret tt
  end.

(** A score message reaches the engine. *)
Definition isScoreMessage (o : Observation) : bool :=
  match o with
  | Engine _ (InputMessage _) => true
  | _ => false
  end.

Definition isClick (o : Observation) : bool :=
  match o with
  | Clicked _ => true
  | _ => false
  end.

(** Every score message in the trace has a click somewhere before it. *)
Definition clickBeforeEveryMessage (tr : list Observation) : Prop :=
  forall before o after,
    tr = before ++ o :: after ->
    isScoreMessage o = true ->
    existsb isClick before = true.

(** The arithmetic of [playSound] in IEEE binary64, for a draw that is
    given as a double: a check of the exact model at the ends of the range. *)
Definition frequencyDouble (r : spec_float) : spec_float :=
  SFadd 53 1024 (S754_finite false 220 0)
        (SFmul 53 1024 r (S754_finite false 660 0)).

(** The largest double below 1. *)
Definition largestDraw : spec_float := S754_finite false (2 ^ 53 - 1) (-53).

(** The run of [initializeAudio] gets as far as its call of [playSound]. *)
Definition reachesPlaySound (a : Attempt) : bool :=
  createOk a && setOptionOk a && compileOk a && startOk a.

(** [s'] has seen what [s] has seen, and maybe more. *)
Definition extends (s s' : State) : Prop :=
  exists new, log s' = new ++ log s.

Definition growing {A} (m : Js State A) : Prop :=
  forall s, extends s (stateOf (m s)).

(** Observations, newest first, of which the oldest is a click. *)
Definition clickLed (new : list Observation) : Prop :=
  new = [] \/ exists t later, new = later ++ [Clicked t].

(** Two environments: every promise of the engine resolves; the engine
    cannot be created. *)
Definition resolving (r : Q) : Attempt := mkAttempt true true true true true r.
Definition rejecting : Attempt := mkAttempt false true true true true 0.

End AudioApp.

(** ** [main.ts.audio_only]: the click handler of class [App] *)

Module AudioOnly.

Inductive Observation : Type :=
| ConsoleWarn (msg : string)
| ConsoleLog (msg : string)
| Engine (engine : nat) (call : CsoundCall)
| Reported (error : JsError) (context : string).   (* this.handleError *)

Record State : Type := mkState {
  csound : option nat;        (* private csound: Csound | null *)
  disposed : bool;
  log : list Observation      (* newest first *)
}.

Definition observe (o : Observation) (s : State) : State :=
  mkState (csound s) (disposed s) (o :: log s).

(** [private handleError(error, context)]: hands the error to the
    [ErrorHandler], which writes it to the console and shows a toast. *)
Definition handleError (error : JsError) (context : string)
  : Js State unit :=
  modify (observe (Reported error context)).

(** [await this.csound.inputMessage(m)] on the handle [h]. *)
Definition inputMessage (h : nat) (m : Message) (ok : bool)
  : Js State unit :=
  modify (observe (Engine h (InputMessage m))) ;;
  if ok then ret tt else throw "inputMessage rejected".

(** [private async handleClick()] *)
Definition handleClick (r : Q) (ok : bool) : Js State unit :=
  c <- gets csound ;;
  match c with
  | None => modify (observe (ConsoleWarn "Csound not initialized"))
  | Some h =>
      tryCatch
        (let frequency := 220 + r * 660 in
         inputMessage h [Text "i 1 0 2 0.5 "; Num frequency] ok ;;
         modify (observe (ConsoleLog "Playing sound at frequency:")))
        (fun error => handleError error "sound-playback")
  end.

End AudioOnly.

(** ** [String.prototype.toLowerCase] on the ASCII range *)

Definition lowerAscii (c : ascii) : ascii :=
  let n := nat_of_ascii c in
  if andb (Nat.leb 65 n) (Nat.leb n 90) then ascii_of_nat (n + 32) else c.

Fixpoint toLowerCase (s : string) : string :=
  match s with
  | EmptyString => EmptyString
  | String c rest => String (lowerAscii c) (toLowerCase rest)
  end.

(** ** The 3D controller: class [App] *)

Module Scene3D.

Record Vector3 : Type := mkVector3 { x : Q; y : Q; z : Q }.

Definition origin : Vector3 := mkVector3 0 0 0.

(** [Vector3.add] *)
Definition add (a b : Vector3) : Vector3 :=
  mkVector3 (x a + x b) (y a + y b) (z a + z b).

(** Resources that own memory on the graphics card.  A texture and a
    geometry are known by their identity; a material also knows the
    texture it maps, if any. *)
Record Material : Type := mkMaterial {
  materialId : nat;
  map : option nat              (* material.map *)
}.

(** One call of [dispose()] on a resource. *)
Inductive Resource : Type :=
| TextureRes (id : nat)
| GeometryRes (id : nat)
| MaterialRes (id : nat).

(** [interface ResourceManager] *)
Record ResourceManager : Type := mkResourceManager {
  textures : list nat;
  geometries : list nat;
  materials : list Material
}.

(** [mesh.material] is one material or an array of them. *)
Inductive MeshMaterial : Type :=
| Single (m : Material)
| Multi (ms : list Material).

Inductive ObjectKind : Type :=
| Mesh (geometry : nat) (material : MeshMaterial)
| Group
| Light
| GridHelper
| AxesHelper
| Box3Helper
| LineSegments.

#[local] Set Warnings "-register-all".

(** A node of the scene graph.  [uuid] stands for the identity that [===]
    compares. *)
Inductive Object3D : Type :=
| Object (uuid : nat) (kind : ObjectKind) (position : Vector3)
         (children : list Object3D).

Definition uuidOf (o : Object3D) : nat :=
  match o with Object id _ _ _ => id end.

(** [interface AnimationState] *)
Record AnimationState : Type := mkAnimationState {
  cubeRotating : bool;
  modelScaling : bool
}.

(** The two callbacks the controller gives to [setTimeout]. *)
Inductive TimerCallback : Type :=
| StopCubeRotation
| StopModelScale.

Record Timer : Type := mkTimer { fireAt : Z; callback : TimerCallback }.

(** The controller object together with the part of the browser it acts
    on.  The rotation of the cube and the scale of the model are kept
    here and not in the scene graph, so that the graph holds no second
    copy of a value the animation mutates.  Writes to the console in
    debug mode change nothing the controller reads and are left out. *)
Record App : Type := mkApp {
  scene : list Object3D;              (* children of this.scene *)
  cameraPosition : Vector3;           (* this.camera.position *)
  contextLost : bool;                 (* this.renderer is disposed *)
  cube : nat;                         (* uuid of this.cube *)
  cubeRotation : Vector3;             (* this.cube.rotation *)
  model : option Object3D;            (* this.model *)
  modelScale : Q;                     (* this.model.scale, on all axes *)
  resourceManager : ResourceManager;  (* this.resourceManager *)
  disposed : bool;                    (* this.disposed *)
  debugMode : bool;                   (* this.debugMode *)
  animationState : AnimationState;    (* this.animationState *)
  csound : option nat;                (* this.csound *)
  panels : bool;                      (* stats and instructions panels *)
  timers : list Timer;                (* pending timers, oldest first *)
  now : Z;                            (* the clock, in milliseconds *)
  fresh : nat;                        (* identity of the next new object *)
  released : list Resource;           (* dispose() calls, newest first *)
  engine : list (nat * CsoundCall);   (* engine calls, newest first *)
  reported : list JsError             (* handleError calls, newest first *)
}.

Definition set_scene (v : list Object3D) (s : App) : App :=
  mkApp v (cameraPosition s) (contextLost s) (cube s) (cubeRotation s)
        (model s) (modelScale s) (resourceManager s) (disposed s)
        (debugMode s) (animationState s) (csound s) (panels s) (timers s)
        (now s) (fresh s) (released s) (engine s) (reported s).
Definition set_cameraPosition (v : Vector3) (s : App) : App :=
  mkApp (scene s) v (contextLost s) (cube s) (cubeRotation s) (model s)
        (modelScale s) (resourceManager s) (disposed s) (debugMode s)
        (animationState s) (csound s) (panels s) (timers s) (now s)
        (fresh s) (released s) (engine s) (reported s).
Definition set_contextLost (v : bool) (s : App) : App :=
  mkApp (scene s) (cameraPosition s) v (cube s) (cubeRotation s) (model s)
        (modelScale s) (resourceManager s) (disposed s) (debugMode s)
        (animationState s) (csound s) (panels s) (timers s) (now s)
        (fresh s) (released s) (engine s) (reported s).
Definition set_cube (v : nat) (s : App) : App :=
  mkApp (scene s) (cameraPosition s) (contextLost s) v (cubeRotation s)
        (model s) (modelScale s) (resourceManager s) (disposed s)
        (debugMode s) (animationState s) (csound s) (panels s) (timers s)
        (now s) (fresh s) (released s) (engine s) (reported s).
Definition set_cubeRotation (v : Vector3) (s : App) : App :=
  mkApp (scene s) (cameraPosition s) (contextLost s) (cube s) v (model s)
        (modelScale s) (resourceManager s) (disposed s) (debugMode s)
        (animationState s) (csound s) (panels s) (timers s) (now s)
        (fresh s) (released s) (engine s) (reported s).
Definition set_model (v : option Object3D) (s : App) : App :=
  mkApp (scene s) (cameraPosition s) (contextLost s) (cube s)
        (cubeRotation s) v (modelScale s) (resourceManager s) (disposed s)
        (debugMode s) (animationState s) (csound s) (panels s) (timers s)
        (now s) (fresh s) (released s) (engine s) (reported s).
Definition set_modelScale (v : Q) (s : App) : App :=
  mkApp (scene s) (cameraPosition s) (contextLost s) (cube s)
        (cubeRotation s) (model s) v (resourceManager s) (disposed s)
        (debugMode s) (animationState s) (csound s) (panels s) (timers s)
        (now s) (fresh s) (released s) (engine s) (reported s).
Definition set_resourceManager (v : ResourceManager) (s : App) : App :=
  mkApp (scene s) (cameraPosition s) (contextLost s) (cube s)
        (cubeRotation s) (model s) (modelScale s) v (disposed s)
        (debugMode s) (animationState s) (csound s) (panels s) (timers s)
        (now s) (fresh s) (released s) (engine s) (reported s).
Definition set_disposed (v : bool) (s : App) : App :=
  mkApp (scene s) (cameraPosition s) (contextLost s) (cube s)
        (cubeRotation s) (model s) (modelScale s) (resourceManager s) v
        (debugMode s) (animationState s) (csound s) (panels s) (timers s)
        (now s) (fresh s) (released s) (engine s) (reported s).
Definition set_debugMode (v : bool) (s : App) : App :=
  mkApp (scene s) (cameraPosition s) (contextLost s) (cube s)
        (cubeRotation s) (model s) (modelScale s) (resourceManager s)
        (disposed s) v (animationState s) (csound s) (panels s) (timers s)
        (now s) (fresh s) (released s) (engine s) (reported s).
Definition set_animationState (v : AnimationState) (s : App) : App :=
  mkApp (scene s) (cameraPosition s) (contextLost s) (cube s)
        (cubeRotation s) (model s) (modelScale s) (resourceManager s)
        (disposed s) (debugMode s) v (csound s) (panels s) (timers s)
        (now s) (fresh s) (released s) (engine s) (reported s).
Definition set_csound (v : option nat) (s : App) : App :=
  mkApp (scene s) (cameraPosition s) (contextLost s) (cube s)
        (cubeRotation s) (model s) (modelScale s) (resourceManager s)
        (disposed s) (debugMode s) (animationState s) v (panels s)
        (timers s) (now s) (fresh s) (released s) (engine s) (reported s).
Definition set_panels (v : bool) (s : App) : App :=
  mkApp (scene s) (cameraPosition s) (contextLost s) (cube s)
        (cubeRotation s) (model s) (modelScale s) (resourceManager s)
        (disposed s) (debugMode s) (animationState s) (csound s) v
        (timers s) (now s) (fresh s) (released s) (engine s) (reported s).
Definition set_timers (v : list Timer) (s : App) : App :=
  mkApp (scene s) (cameraPosition s) (contextLost s) (cube s)
        (cubeRotation s) (model s) (modelScale s) (resourceManager s)
        (disposed s) (debugMode s) (animationState s) (csound s) (panels s)
        v (now s) (fresh s) (released s) (engine s) (reported s).
Definition set_now (v : Z) (s : App) : App :=
  mkApp (scene s) (cameraPosition s) (contextLost s) (cube s)
        (cubeRotation s) (model s) (modelScale s) (resourceManager s)
        (disposed s) (debugMode s) (animationState s) (csound s) (panels s)
        (timers s) v (fresh s) (released s) (engine s) (reported s).
Definition set_fresh (v : nat) (s : App) : App :=
  mkApp (scene s) (cameraPosition s) (contextLost s) (cube s)
        (cubeRotation s) (model s) (modelScale s) (resourceManager s)
        (disposed s) (debugMode s) (animationState s) (csound s) (panels s)
        (timers s) (now s) v (released s) (engine s) (reported s).
Definition set_released (v : list Resource) (s : App) : App :=
  mkApp (scene s) (cameraPosition s) (contextLost s) (cube s)
        (cubeRotation s) (model s) (modelScale s) (resourceManager s)
        (disposed s) (debugMode s) (animationState s) (csound s) (panels s)
        (timers s) (now s) (fresh s) v (engine s) (reported s).
Definition set_engine (v : list (nat * CsoundCall)) (s : App) : App :=
  mkApp (scene s) (cameraPosition s) (contextLost s) (cube s)
        (cubeRotation s) (model s) (modelScale s) (resourceManager s)
        (disposed s) (debugMode s) (animationState s) (csound s) (panels s)
        (timers s) (now s) (fresh s) (released s) v (reported s).
Definition set_reported (v : list JsError) (s : App) : App :=
  mkApp (scene s) (cameraPosition s) (contextLost s) (cube s)
        (cubeRotation s) (model s) (modelScale s) (resourceManager s)
        (disposed s) (debugMode s) (animationState s) (csound s) (panels s)
        (timers s) (now s) (fresh s) (released s) (engine s) v.

Definition set_cubeRotating (b : bool) (s : App) : App :=
  set_animationState (mkAnimationState b (modelScaling (animationState s))) s.
Definition set_modelScaling (b : bool) (s : App) : App :=
  set_animationState (mkAnimationState (cubeRotating (animationState s)) b) s.

(** A fresh identity for [new THREE.Something(...)]. *)
Definition alloc : Js App nat :=
  id <- gets fresh ;;
  modify (set_fresh (S id)) ;;
  ret id.

(** [this.scene.add(o)] *)
Definition sceneAdd (o : Object3D) : Js App unit :=
  modify (fun s => set_scene (scene s ++ [o]) s).

(** [resource.dispose()] on each resource of [l], in order. *)
Definition release (l : list Resource) : Js App unit :=
  modify (fun s => set_released (rev l ++ released s) s).

(** Modelled from the spec: [App.handleError] is called throughout the
    class but the class does not define it; the spec says errors are
    caught and logged and a toast is shown, which is what
    [ErrorHandler.handleError] does, to which the older generation of the
    class binds the name.  It records the error and returns. *)
Definition handleError (error : JsError) : Js App unit :=
  modify (fun s => set_reported (error :: reported s) s).

(** Modelled from the spec: [App.playCsoundEvent] is called by the click
    handler but its definition is not in the file; the spec speaks of a
    click-to-play-sound mapping.  With an engine handle it sends the score
    line that the older generations of the handler send at this place,
    without one it does nothing. *)
Definition playCsoundEvent : Js App unit :=
  c <- gets csound ;;
  match c with
  | Some h =>
      modify (fun s =>
        set_engine ((h, InputMessage [Text "i 1 0 5 0.3 220"]) :: engine s) s)
  | None => ret tt
  end.

(** [setTimeout(callback, delay)] *)
Definition setTimeout (cb : TimerCallback) (delay : Z) : Js App unit :=
  modify (fun s => set_timers (timers s ++ [mkTimer (now s + delay) cb]) s).

(** [private startCubeRotation()] *)
Definition startCubeRotation : Js App unit :=
  modify (set_cubeRotating true) ;;
  setTimeout StopCubeRotation 5000.

(** [private startModelScale()] *)
Definition startModelScale : Js App unit :=
  modify (set_modelScaling true) ;;
  setTimeout StopModelScale 5000.

(** The body of a timer callback. *)
Definition fire (cb : TimerCallback) : Js App unit :=
  d <- gets disposed ;;
  when (negb d)
    match cb with
    | StopCubeRotation => modify (set_cubeRotating false)
    | StopModelScale => modify (set_modelScaling false)
    end.

(** Timers fire in the order of their due time, and in the order they
    were set when the due times are equal. *)
Fixpoint insertTimer (t : Timer) (l : list Timer) : list Timer :=
  match l with
  | [] => [t]
  | u :: rest =>
      if (fireAt t <? fireAt u)%Z then t :: l else u :: insertTimer t rest
  end.

Definition byFireAt (l : list Timer) : list Timer :=
  fold_left (fun acc t => insertTimer t acc) l [].

Definition isDue (t : Z) (tm : Timer) : bool := (fireAt tm <=? t)%Z.

(** The event loop is idle for [ms] milliseconds: every timer due by then
    fires. *)
Definition elapse (ms : Z) (s : App) : App :=
  let t := (now s + ms)%Z in
  let due := byFireAt (filter (isDue t) (timers s)) in
  let pending := filter (fun tm => negb (isDue t tm)) (timers s) in
  fold_left (fun s tm => stateOf (fire (callback tm) s)) due
            (set_now t (set_timers pending s)).

(** [private resetAnimations()] *)
Definition resetAnimations : Js App unit :=
  modify (set_cubeRotating false) ;;
  modify (set_modelScaling false) ;;
  m <- gets model ;;
  when (match m with Some _ => true | None => false end)
       (modify (set_modelScale 3)) ;;
  modify (set_cubeRotation origin).

(** One entry of the array that [raycaster.intersectObjects] returns,
    nearest first. *)
Record Intersection : Type := mkIntersection {
  object : nat;                 (* uuid of intersects[i].object *)
  distance : Q
}.

Definition isModel (id : nat) (m : option Object3D) : bool :=
  match m with
  | Some o => Nat.eqb id (uuidOf o)
  | None => false
  end.

(** [private handleClick(event, raycaster, mouse)]; [intersects] is what
    the ray caster answers for the event. *)
Definition handleClick (intersects : list Intersection) : Js App unit :=
  tryCatch
    match intersects with
    | first :: _ =>
        let intersectedObject := object first in
        c <- gets cube ;;
        m <- gets model ;;
        if Nat.eqb intersectedObject c then
          startCubeRotation ;;
          tryCatch playCsoundEvent handleError
        else if isModel intersectedObject m then
          startModelScale
        else ret tt
    | [] => ret tt
    end
    (fun error => handleError (String.append "Click handling error: " error)).

(** [private handleKeyDown(event)]; [key] is [event.key]. *)
Definition handleKeyDown (key : string) : Js App unit :=
  tryCatch
    (let moveSpeed := 1 # 10 in
     let moveDistance := origin in
     let k := toLowerCase key in
     moveDistance <-
       (if String.eqb k "w" then
          ret (mkVector3 (x moveDistance) (y moveDistance) (- moveSpeed))
        else if String.eqb k "s" then
          ret (mkVector3 (x moveDistance) (y moveDistance) moveSpeed)
        else if String.eqb k "a" then
          ret (mkVector3 (- moveSpeed) (y moveDistance) (z moveDistance))
        else if String.eqb k "d" then
          ret (mkVector3 moveSpeed (y moveDistance) (z moveDistance))
        else if String.eqb k "q" then
          ret (mkVector3 (x moveDistance) moveSpeed (z moveDistance))
        else if String.eqb k "e" then
          ret (mkVector3 (x moveDistance) (- moveSpeed) (z moveDistance))
        else if String.eqb k "escape" then
          resetAnimations ;; ret moveDistance
        else ret moveDistance) ;;
     modify (fun s => set_cameraPosition (add (cameraPosition s) moveDistance) s))
    (fun error => handleError (String.append "Keyboard handling error: " error)).

(** *** Building the scene *)

(** [private setupLights()] *)
Definition setupLights : Js App unit :=
  directionalLight <- alloc ;;
  sceneAdd (Object directionalLight Light (mkVector3 5 5 5) []) ;;
  ambientLight <- alloc ;;
  sceneAdd (Object ambientLight Light origin []) ;;
  pointLight <- alloc ;;
  sceneAdd (Object pointLight Light (mkVector3 (-5) 3 (-5)) []).

Definition pushTexture (t : nat) : Js App unit :=
  modify (fun s =>
    let rm := resourceManager s in
    set_resourceManager
      (mkResourceManager (textures rm ++ [t]) (geometries rm) (materials rm)) s).

Definition pushGeometry (g : nat) : Js App unit :=
  modify (fun s =>
    let rm := resourceManager s in
    set_resourceManager
      (mkResourceManager (textures rm) (geometries rm ++ [g]) (materials rm)) s).

Definition pushMaterial (m : Material) : Js App unit :=
  modify (fun s =>
    let rm := resourceManager s in
    set_resourceManager
      (mkResourceManager (textures rm) (geometries rm) (materials rm ++ [m])) s).

(** [private createEnvironment()] *)
Definition createEnvironment : Js App unit :=
  floorGeometry <- alloc ;;
  floorMaterial <- alloc ;;
  floor <- alloc ;;
  sceneAdd (Object floor
              (Mesh floorGeometry (Single (mkMaterial floorMaterial None)))
              origin []) ;;
  pushGeometry floorGeometry ;;
  pushMaterial (mkMaterial floorMaterial None) ;;
  debug <- gets debugMode ;;
  when debug
    (gridHelper <- alloc ;;
     sceneAdd (Object gridHelper GridHelper origin [])).

Definition texturePaths : list string :=
  ["autumn_ground.jpg"; "lakeSide.jpg"; "ruinOfFishermansFactory.jpg";
   "wave.jpg"; "kareha.jpg"; "pebble.jpg"].

(** [texturePaths.map(path => ...)] in [createCube]: one texture and one
    material that maps it for each path, both registered. *)
Fixpoint cubeMaterials (paths : list string) : Js App (list Material) :=
  match paths with
  | [] => ret []
  | _ :: rest =>
      texture <- alloc ;;
      pushTexture texture ;;
      material <- alloc ;;
      pushMaterial (mkMaterial material (Some texture)) ;;
      others <- cubeMaterials rest ;;
      ret (mkMaterial material (Some texture) :: others)
  end.

(** [private createCube()]; the result is the identity of the cube. *)
Definition createCube : Js App nat :=
  geometry <- alloc ;;
  tryCatch
    (mats <- cubeMaterials texturePaths ;;
     cube <- alloc ;;
     sceneAdd (Object cube (Mesh geometry (Multi mats)) (mkVector3 2 4 2) []) ;;
     pushGeometry geometry ;;
     ret cube)
    (fun error =>
       handleError error ;;
       fallbackMaterial <- alloc ;;
       pushMaterial (mkMaterial fallbackMaterial None) ;;
       fallbackCube <- alloc ;;
       sceneAdd (Object fallbackCube
                   (Mesh geometry (Single (mkMaterial fallbackMaterial None)))
                   (mkVector3 2 4 2) []) ;;
       ret fallbackCube).

(** The fields as the constructor initialises them, before it builds the
    scene. *)
Definition blank (debug : bool) : App :=
  mkApp [] (mkVector3 5 5 5) false 0 origin None 1
        (mkResourceManager [] [] []) false debug
        (mkAnimationState false false) None true [] 0 0 [] [] [].

(** The synchronous part of [constructor()]: lights, environment and
    cube.  The model and the audio engine arrive later. *)
Definition constructor (debug : bool) : Completion App unit :=
  (setupLights ;;
   createEnvironment ;;
   c <- createCube ;;
   modify (set_cube c)) (blank debug).

(** *** Loading the model *)

(** What the loader answers: the promise rejects, or it resolves with
    [gltf.scene] and, for that object once positioned, the length of the
    size of its bounding box as the library computes it. *)
Inductive LoadOutcome : Type :=
| Rejected (error : JsError)
| Resolved (gltfScene : Object3D) (sizeLength : Q).

(** [private setupModelMesh(mesh)]: the mesh gets a new material; the
    material and the geometry of the mesh are registered. *)
Definition setupModelMesh (geometry : nat) : Js App Material :=
  id <- alloc ;;
  let material := mkMaterial id None in
  pushMaterial material ;;
  pushGeometry geometry ;;
  ret material.

(** [this.model.traverse(child => { if (child instanceof THREE.Mesh)
    { meshCount++; this.setupModelMesh(child) } })]: the object after the
    visit and the number of meshes met. *)
Fixpoint setupMeshes (o : Object3D) : Js App (Object3D * nat) :=
  match o with
  | Object id kind pos children =>
      here <- match kind with
              | Mesh geometry _ =>
                  material <- setupModelMesh geometry ;;
                  ret (Mesh geometry (Single material), 1%nat)
              | _ => ret (kind, 0%nat)
              end ;;
      below <- (fix each (cs : list Object3D) : Js App (list Object3D * nat) :=
                  match cs with
                  | [] => ret ([], 0%nat)
                  | c :: rest =>
                      r <- setupMeshes c ;;
                      rs <- each rest ;;
                      ret (fst r :: fst rs, (snd r + snd rs)%nat)
                  end) children ;;
      ret (Object id (fst here) pos (fst below), (snd here + snd below)%nat)
  end.

(** The last traversal of [addModelDebugHelpers]: every mesh gets a
    wireframe child. *)
Fixpoint addWireframes (o : Object3D) : Js App Object3D :=
  match o with
  | Object id kind pos children =>
      line <- match kind with
              | Mesh _ _ =>
                  l <- alloc ;;
                  ret [Object l LineSegments origin []]
              | _ => ret []
              end ;;
      below <- (fix each (cs : list Object3D) : Js App (list Object3D) :=
                  match cs with
                  | [] => ret []
                  | c :: rest =>
                      c' <- addWireframes c ;;
                      rest' <- each rest ;;
                      ret (c' :: rest')
                  end) children ;;
      ret (Object id kind pos (below ++ line))
  end.

(** [private addModelDebugHelpers()] *)
Definition addModelDebugHelpers : Js App unit :=
  m <- gets model ;;
  debug <- gets debugMode ;;
  match m with
  | Some (Object id kind pos children) =>
      when debug
        (bboxHelper <- alloc ;;
         sceneAdd (Object bboxHelper Box3Helper origin []) ;;
         axesHelper <- alloc ;;
         let withAxes :=
           Object id kind pos (children ++ [Object axesHelper AxesHelper origin []]) in
         wired <- addWireframes withAxes ;;
         modify (set_model (Some wired)))
  | None => ret tt
  end.

(** [private createErrorModel()] *)
Definition createErrorModel : Js App unit :=
  geometry <- alloc ;;
  material <- alloc ;;
  errorSphere <- alloc ;;
  sceneAdd (Object errorSphere (Mesh geometry (Single (mkMaterial material None)))
              (mkVector3 (-2) 1 0) []) ;;
  pushGeometry geometry ;;
  pushMaterial (mkMaterial material None).

Definition moveTo (p : Vector3) (o : Object3D) : Object3D :=
  match o with Object id kind _ children => Object id kind p children end.

(** [private async setupLoadedModel()]; [sizeLength] is the library's
    answer to [bbox.getSize(...).length()]. *)
Definition setupLoadedModel (sizeLength : Q) : Js App unit :=
  m <- gets model ;;
  match m with
  | None => ret tt
  | Some loaded =>
      tryCatch
        (r <- setupMeshes loaded ;;
         let meshCount := snd r in
         modify (set_model (Some (fst r))) ;;
         (if Nat.eqb meshCount 0
          then throw "No meshes found in loaded model" else ret tt) ;;
         modify (fun s =>
           set_model (option_map (moveTo (mkVector3 (-2) 1 0)) (model s)) s) ;;
         modify (set_modelScale 3) ;;
         debug <- gets debugMode ;;
         when debug addModelDebugHelpers ;;
         (if Qeq_bool sizeLength 0
          then throw "Model has zero dimensions" else ret tt) ;;
         placed <- gets model ;;
         match placed with
         | Some o => sceneAdd o
         | None => throw "TypeError: this.model is null"
         end)
        (fun error =>
           handleError error ;;
           modify (set_model None) ;;
           createErrorModel)
  end.

(** [private async loadModel()] *)
Definition loadModel (outcome : LoadOutcome) : Js App unit :=
  tryCatch
    (r <- match outcome with
          | Rejected error => throw error
          | Resolved gltfScene sizeLength => ret (gltfScene, sizeLength)
          end ;;
     modify (set_model (Some (fst r))) ;;
     setupLoadedModel (snd r))
    (fun error =>
       handleError (String.append "Failed to load model: " error) ;;
       createErrorModel).

(** *** Disposal *)

Definition materialsOf (m : MeshMaterial) : list Material :=
  match m with
  | Single one => [one]
  | Multi ms => ms
  end.

(** [disposeNode] of [clearScene], applied by [traverse] to a node and
    then to its descendants: the calls of [dispose()] it makes. *)
Fixpoint disposeNode (o : Object3D) : list Resource :=
  match o with
  | Object _ kind _ children =>
      match kind with
      | Mesh geometry material =>
          GeometryRes geometry
            :: List.map (fun m => MaterialRes (materialId m))
                        (materialsOf material)
      | _ => []
      end ++ flat_map disposeNode children
  end.

(** [private clearScene()] *)
Definition clearScene : Js App unit :=
  nodes <- gets scene ;;
  release (flat_map disposeNode nodes) ;;
  modify (set_scene []).

(** The calls of [dispose()] in the callback of
    [this.resourceManager.materials.forEach]. *)
Definition disposeMaterial (m : Material) : list Resource :=
  match map m with
  | Some texture => [TextureRes texture]
  | None => []
  end ++ [MaterialRes (materialId m)].

(** [private disposeThreeJsResources()] *)
Definition disposeThreeJsResources : Js App unit :=
  rm <- gets resourceManager ;;
  release (List.map TextureRes (textures rm)) ;;
  release (List.map GeometryRes (geometries rm)) ;;
  release (flat_map disposeMaterial (materials rm)) ;;
  modify (set_contextLost true) ;;
  clearScene ;;
  modify (set_resourceManager (mkResourceManager [] [] [])).

(** [private cleanupUIComponents()] *)
Definition cleanupUIComponents : Js App unit :=
  modify (set_panels false).

(** [public dispose()].  The two calls of [removeEventListener] are given
    functions that [bind] has just made; these are no registered
    listeners and nothing is removed. *)
Definition dispose : Js App unit :=
  d <- gets disposed ;;
  if d then ret tt
  else
    modify (set_disposed true) ;;
    resetAnimations ;;
    tryCatch
      (c <- gets csound ;;
       match c with
       | Some h =>
           modify (fun s => set_engine ((h, Stop) :: engine s) s) ;;
           modify (set_csound None)
       | None => ret tt
       end ;;
       disposeThreeJsResources ;;
       cleanupUIComponents)
      (fun error =>
         handleError (String.append "Error during disposal: " error)).

(** The resources the registry holds, as the calls that release them. *)
Definition registered (rm : ResourceManager) : list Resource :=
  List.map TextureRes (textures rm)
    ++ List.map GeometryRes (geometries rm)
    ++ List.map (fun m => MaterialRes (materialId m)) (materials rm).

Definition Resource_eq_dec (a b : Resource) : {a = b} + {a <> b}.
Proof. decide equality; apply Nat.eq_dec. Defined.

(** How often [r] is released between the states [before] and [after]. *)
Definition releasesOf (r : Resource) (before after : App) : nat :=
  (count_occ Resource_eq_dec (released after) r
   - count_occ Resource_eq_dec (released before) r)%nat.

(** *** Events

    The listeners the constructor adds stay for good: the click listener
    is an arrow function nobody keeps, and [dispose] removes no other. *)
Inductive Event : Type :=
| Click (intersects : list Intersection)
| KeyDown (key : string)
| Idle (ms : Z)
| Settled (outcome : LoadOutcome)     (* the promise of the loader *)
| Dispose.                            (* beforeunload, or a hot reload *)

Definition step (s : App) (e : Event) : App :=
  match e with
  | Click intersects => stateOf (handleClick intersects s)
  | KeyDown key => stateOf (handleKeyDown key s)
  | Idle ms => elapse ms s
  | Settled outcome => stateOf (loadModel outcome s)
  | Dispose => stateOf (dispose s)
  end.

Definition run (s : App) (events : list Event) : App :=
  fold_left step events s.

(** *** Notions used to state the properties *)

(** All due timers fire, one after the other. *)
Definition fireAll (due : list Timer) (s : App) : App :=
  fold_left (fun s tm => stateOf (fire (callback tm) s)) due s.

(** The number of meshes that a traversal of [o] meets. *)
Fixpoint countMeshes (o : Object3D) : nat :=
  match o with
  | Object _ kind _ children =>
      (match kind with Mesh _ _ => 1 | _ => 0 end
       + list_sum (List.map countMeshes children))%nat
  end.

(** The fetch fails, or what it brought fails one of the two checks of
    [setupLoadedModel]. *)
Definition loadFails (outcome : LoadOutcome) : bool :=
  match outcome with
  | Rejected _ => true
  | Resolved gltfScene sizeLength =>
      Nat.eqb (countMeshes gltfScene) 0 || Qeq_bool sizeLength 0
  end.

Definition positionOf (o : Object3D) : Vector3 :=
  match o with Object _ _ p _ => p end.

(** The placeholder of [createErrorModel]: a mesh of its own geometry
    and material, where the model would stand. *)
Definition isErrorSphere (o : Object3D) : Prop :=
  exists id geometry material,
    o = Object id (Mesh geometry (Single (mkMaterial material None)))
               (mkVector3 (-2) 1 0) [].

(** Nothing but the position of the camera differs. *)
Definition onlyCameraMoved (s s' : App) : Prop :=
  s' = set_cameraPosition (cameraPosition s') s.

(** The application as the constructor leaves it (not in debug mode), a
    ray that hits the object [id], and the application once disposed. *)
Definition built : App := stateOf (constructor false).
Definition hit (id : nat) : Intersection := mkIntersection id 1.
Definition disposedApp : App := run built [Dispose].
End Scene3D.

(** ** The older generations: [main.ts.old] and [main.ts.bak2]

    Their timer callbacks are
    [() => { this.animationState.cubeRotating = false; }] and its twin for
    the model: they do not look at [disposed].  In [main.ts.old] the
    timers are set by [startCubeRotation] and [startModelScale], in
    [main.ts.bak2] by the two branches of [handleClick]. *)

Module Legacy.
Import Scene3D.

(** The body of a timer callback. *)
Definition fire (cb : TimerCallback) : Js App unit :=
  match cb with
  | StopCubeRotation => modify (set_cubeRotating false)
  | StopModelScale => modify (set_modelScaling false)
  end.

Definition fireAll (due : list Timer) (s : App) : App :=
  fold_left (fun s tm => stateOf (fire (callback tm) s)) due s.

(** The event loop is idle for [ms] milliseconds. *)
Definition elapse (ms : Z) (s : App) : App :=
  let t := (now s + ms)%Z in
  let due := byFireAt (filter (isDue t) (timers s)) in
  let pending := filter (fun tm => negb (isDue t tm)) (timers s) in
  fireAll due (set_now t (set_timers pending s)).

(** [private startCubeRotation()] of [main.ts.old] *)
Definition startCubeRotation : Js App unit :=
  modify (set_cubeRotating true) ;;
  setTimeout StopCubeRotation 5000.

(** [private startModelScale()] of [main.ts.old] *)
Definition startModelScale : Js App unit :=
  modify (set_modelScaling true) ;;
  setTimeout StopModelScale 5000.

(** [this.handleError(error, context)] of [main.ts.bak2], bound to the
    handler of module [ErrorHandler], which shows a toast and returns;
    that it was called is kept. *)
Definition handleError (error : JsError) (context : string)
  : Js App unit :=
  modify (fun s => set_reported (error :: reported s) s).

(** [private handleClick(event, raycaster, mouse)] of [main.ts.bak2];
    [intersects] is what the ray caster answers, and [thrown] is what
    [this.csound.inputMessage] throws when it is called, if it throws.
    The inner [catch] reads [result], a constant of the [try] block that
    is not in scope there. *)
Definition handleClick (intersects : list Intersection)
    (thrown : option JsError) : Js App unit :=
  tryCatch
    match intersects with
    | first :: _ =>
        let intersectedObject := object first in
        c <- gets cube ;;
        if Nat.eqb intersectedObject c then
          modify (set_cubeRotating true) ;;
          h <- gets csound ;;
          match h with
          | Some h =>
              tryCatch
                (modify (fun s =>
                   set_engine
                     ((h, InputMessage [Text "i 1 0 5 0.3 220"]) :: engine s)
                     s) ;;
                 match thrown with
                 | Some e => throw e
                 | None => ret tt
                 end)
                (fun _ => throw "ReferenceError: result is not defined")
          | None => ret tt
          end ;;
          setTimeout StopCubeRotation 5000
        else
          m <- gets model ;;
          when (isModel intersectedObject m)
               (modify (set_modelScaling true) ;;
                setTimeout StopModelScale 5000)
    | [] => ret tt
    end
    (fun error => handleError error "click-handling").

(** No timer that would stop the rotation is pending. *)
Definition noStopPending (s : App) : bool :=
  forallb (fun tm => match callback tm with
                     | StopCubeRotation => false
                     | StopModelScale => true
                     end)
          (timers s).
End Legacy.

(** ** [main.basic.csound.ts]: the states the controller can be in *)

Module AudioReach.
Import AudioApp.

(** The engine is up: one click listener, no retry button. *)
Definition ready (s : State) : Prop :=
  isInitialized s = true
  /\ clickHandlers s = 1%nat
  /\ body s = []
  /\ exists h, csound s = Some h.

(** The last run of [initialize] failed: no click listener, and one retry
    button with the label [createRetryButton] gives it. *)
Definition waiting (s : State) : Prop :=
  isInitialized s = false
  /\ clickHandlers s = 0%nat
  /\ exists id,
       body s = [mkButton id "Retry Audio Initialization"]
       /\ (id < fresh s)%nat.

Definition settled (s : State) : Prop := ready s \/ waiting s.

Definition isStartOf (h : nat) (o : Observation) : bool :=
  match o with
  | Engine h' Start => Nat.eqb h h'
  | _ => false
  end.

(** On a log, newest first: every score message has a call of [start] on
    its engine among the older entries. *)
Fixpoint startedThenPlayed (l : list Observation) : bool :=
  match l with
  | [] => true
  | o :: older =>
      match o with
      | Engine h (InputMessage _) => existsb (isStartOf h) older
      | _ => true
      end && startedThenPlayed older
  end.

(** On a trace, oldest first: the same, spelled out. *)
Definition startBeforeEveryMessage (tr : list Observation) : Prop :=
  forall before h m after,
    tr = before ++ Engine h (InputMessage m) :: after ->
    In (Engine h Start) before.

(** What holds between any two events. *)
Definition invariant (s : State) : Prop :=
  settled s
  /\ startedThenPlayed (log s) = true
  /\ (isInitialized s = true ->
      exists h, csound s = Some h /\ existsb (isStartOf h) (log s) = true).
End AudioReach.

(** ** [main.ts.old]: the keyboard listener *)

Module Old.
Import Scene3D.

(** The listener that [setupKeyboardControls] adds; [key] is [event.key],
    compared as it comes. *)
Definition keydown (key : string) : Js App unit :=
  let moveSpeed := 1 # 10 in
  let move (f : Vector3 -> Vector3) : Js App unit :=
    modify (fun s => set_cameraPosition (f (cameraPosition s)) s) in
  if String.eqb key "w" then
    move (fun p => mkVector3 (x p) (y p) (z p - moveSpeed))
  else if String.eqb key "s" then
    move (fun p => mkVector3 (x p) (y p) (z p + moveSpeed))
  else if String.eqb key "a" then
    move (fun p => mkVector3 (x p - moveSpeed) (y p) (z p))
  else if String.eqb key "d" then
    move (fun p => mkVector3 (x p + moveSpeed) (y p) (z p))
  else if String.eqb key "q" then
    move (fun p => mkVector3 (x p) (y p + moveSpeed) (z p))
  else if String.eqb key "e" then
    move (fun p => mkVector3 (x p) (y p - moveSpeed) (z p))
  else ret tt.

(** Two positions with equal coordinates. *)
Definition samePlace (a b : Vector3) : Prop :=
  x a == x b /\ y a == y b /\ z a == z b.

Definition movementKeys : list string := ["w"; "s"; "a"; "d"; "q"; "e"].
End Old.

(** ** [main.ts.bak2]: [PerformanceOptimizer]

    [monitor] is called once per frame.  The time is what
    [performance.now()] answers, a number of milliseconds. *)

Module PerformanceOptimizer.
Record Optimizer : Type := mkOptimizer {
  frameCount : Q;             (* this.frameCount *)
  lastOptimizationTime : Q;   (* this.lastOptimizationTime *)
  isOptimizing : bool;        (* this.isOptimizing *)
  optimizations : nat         (* calls of optimize so far *)
}.

Definition fpsThreshold : Q := 45.
Definition measurementPeriod : Q := 1000.

(** [a < b] and [a >= b] on numbers. *)
Definition ltb (a b : Q) : bool := negb (Qle_bool b a).
Definition geb (a b : Q) : bool := Qle_bool b a.

(** [optimize], up to its first [await]: the flag is set, and the work on
    the textures, the geometries and the pixel ratio is under way.  What
    that work does to the scene is the library's. *)
Definition optimize (o : Optimizer) : Optimizer :=
  mkOptimizer (frameCount o) (lastOptimizationTime o) true
              (S (optimizations o)).

(** The rest of [optimize]: its three steps await nothing that takes
    time, and [finally] clears the flag. *)
Definition settle (o : Optimizer) : Optimizer :=
  mkOptimizer (frameCount o) (lastOptimizationTime o) false
              (optimizations o).

(** [public monitor(renderer, scene, camera)] *)
Definition monitor (currentTime : Q) (o : Optimizer) : Optimizer :=
  let o := mkOptimizer (frameCount o + 1) (lastOptimizationTime o)
                       (isOptimizing o) (optimizations o) in
  let elapsedTime := currentTime - lastOptimizationTime o in
  if geb elapsedTime measurementPeriod then
    let currentFPS := frameCount o * (1000 / elapsedTime) in
    let o :=
      if ltb currentFPS fpsThreshold && negb (isOptimizing o)
      then optimize o else o in
    mkOptimizer 0 currentTime (isOptimizing o) (optimizations o)
  else o.

(** One frame: [monitor], and then the pending continuations of
    [optimize], which run before the next frame is drawn. *)
Definition frame (o : Optimizer) (currentTime : Q) : Optimizer :=
  settle (monitor currentTime o).

Definition run (o : Optimizer) (times : list Q) : Optimizer :=
  fold_left frame times o.

(** Each frame comes at most [gap] milliseconds after the one before;
    [prev] is the time of the frame before the first. *)
Fixpoint paced (gap prev : Q) (times : list Q) : Prop :=
  match times with
  | [] => True
  | t :: rest => t - prev <= gap /\ paced gap t rest
  end.
(** Between two frames: the frames counted since the last measurement
    account for the time that has passed since. *)
Definition onPace (prev : Q) (o : Optimizer) : Prop :=
  prev - lastOptimizationTime o <= frameCount o * (1000 / 45).

End PerformanceOptimizer.

(** ** [main.ts.bak2]: [ErrorHandler]

    [handleError] classifies what was thrown, writes to the console and
    shows a toast that fades after five seconds and is taken out of the
    page half a second later. *)

Module ErrorHandler.

(** What a [catch] hands over: an [Error] with its message and stack, or
    any other value, of which [String(error)] is kept. *)
Inductive Thrown : Type :=
| ErrorObject (message : string) (stack : option string)
| Value (text : string).

(** [s.includes(key)] *)
Fixpoint includes (s key : string) : bool :=
  String.prefix key s
  || match s with
     | EmptyString => false
     | String _ rest => includes rest key
     end.

(** [interface ErrorInfo] *)
Record ErrorInfo : Type := mkErrorInfo {
  message : string;
  stack : option string;
  timestamp : string;
  severity : string;
  userMessage : string;
  context : string
}.

Definition newline : string := String (ascii_of_nat 10) EmptyString.

Definition displayMessage : string :=
  String.append "The display encountered an error. "
    (String.append newline "Please refresh the page.").
Definition memoryMessage : string :=
  String.append "The application is running low on memory."
    (String.append newline "Please close other applications and try again.").
Definition resourceMessage : string :=
  String.append "Failed to load required resources. "
    (String.append newline "Please check your internet connection.").
Definition defaultMessage : string :=
  "An unexpected error occurred. Please try again.".

(** The entries of [errorMessages], in the order [Object.entries] gives
    them: the order in which the literal lists them. *)
Definition errorMessages : list (string * string) :=
  [ ("WebGL context lost", displayMessage);
    ("Out of memory", memoryMessage);
    ("Failed to load resource", resourceMessage);
    ("default", defaultMessage) ].

(** [getUserFriendlyMessage(error)], of [error.message]. *)
Definition getUserFriendlyMessage (message : string) : string :=
  match find (fun entry => includes message (fst entry)) errorMessages with
  | Some entry => snd entry
  | None => defaultMessage
  end.

Definition isCriticalError (error : Thrown) : bool :=
  match error with
  | ErrorObject message _ =>
      includes message "WebGL"
      || includes message "memory"
      || includes message "context lost"
  | Value _ => false
  end.

(** [context || 'general'] *)
Definition orGeneral (context : option string) : string :=
  match context with
  | None => "general"
  | Some EmptyString => "general"
  | Some c => c
  end.

Definition set_severity (v : string) (i : ErrorInfo) : ErrorInfo :=
  mkErrorInfo (message i) (stack i) (timestamp i) v (userMessage i)
              (context i).

(** [formatError]; [timestamp] is what [new Date().toISOString()] gives. *)
Definition formatError (timestamp : string) (error : Thrown)
    (context : option string) : ErrorInfo :=
  let errorInfo :=
    match error with
    | ErrorObject message stack =>
        mkErrorInfo message stack timestamp "normal"
                    (getUserFriendlyMessage message) (orGeneral context)
    | Value text =>
        mkErrorInfo text None timestamp "normal"
                    "An unexpected error occurred" (orGeneral context)
    end in
  if isCriticalError error then set_severity "critical" errorInfo
  else errorInfo.

(** An element of the error container.  [toastId] stands for the
    identity of the element. *)
Record Toast : Type := mkToast {
  toastId : nat;
  textContent : string;
  opacity : string
}.

(** The two callbacks [showErrorToUser] gives to [setTimeout], each for
    the element it closes over. *)
Inductive Callback : Type :=
| Fade (element : nat)
| Detach (element : nat).

Record Timer : Type := mkTimer { fireAt : Z; callback : Callback }.

(** What the handler writes to the console. *)
Inductive Logged : Type :=
| ApplicationError (info : ErrorInfo)
| ErrorDetails (info : ErrorInfo)
| Reporting (info : ErrorInfo).

(** The handler together with the part of the browser it acts on. *)
Record Handler : Type := mkHandler {
  errorContainer : list Toast;   (* children of this.errorContainer *)
  timers : list Timer;           (* pending timers, by due time *)
  now : Z;                       (* the clock, in milliseconds *)
  fresh : nat;                   (* identity of the next new element *)
  console : list Logged          (* newest first *)
}.

Definition ERROR_DISPLAY_DURATION : Z := 5000.

(** The queue of pending timers is kept by due time, a new timer behind
    the older ones that are due at the same time. *)
Fixpoint insertTimer (tm : Timer) (l : list Timer) : list Timer :=
  match l with
  | [] => [tm]
  | u :: rest =>
      if (fireAt u <=? fireAt tm)%Z then u :: insertTimer tm rest
      else tm :: u :: rest
  end.

(** [setTimeout(callback, delay)] *)
Definition setTimeout (cb : Callback) (delay : Z) (s : Handler) : Handler :=
  mkHandler (errorContainer s)
            (insertTimer (mkTimer (now s + delay) cb) (timers s))
            (now s) (fresh s) (console s).

Definition log (l : Logged) (s : Handler) : Handler :=
  mkHandler (errorContainer s) (timers s) (now s) (fresh s) (l :: console s).

Definition showErrorToUser (message : string) (s : Handler) : Handler :=
  let errorElement := fresh s in
  let s := mkHandler (errorContainer s ++ [mkToast errorElement message "1"])
                     (timers s) (now s) (S errorElement) (console s) in
  setTimeout (Fade errorElement) ERROR_DISPLAY_DURATION s.

Definition handleError (timestamp : string) (error : Thrown)
    (context : option string) (s : Handler) : Handler :=
  let errorInfo := formatError timestamp error context in
  let s := log (ApplicationError errorInfo) s in
  let s := showErrorToUser (userMessage errorInfo) s in
  let s := log (ErrorDetails errorInfo) s in
  if String.eqb (severity errorInfo) "critical"
  then log (Reporting errorInfo) s
  else s.

Definition setOpacity (element : nat) (v : string) (t : Toast) : Toast :=
  if Nat.eqb (toastId t) element then mkToast (toastId t) (textContent t) v
  else t.

(** The body of a timer callback.  The inner callback takes the element
    out if the container still is its parent. *)
Definition fire (cb : Callback) (s : Handler) : Handler :=
  match cb with
  | Fade element =>
      setTimeout (Detach element) 500
        (mkHandler (List.map (setOpacity element "0") (errorContainer s))
                   (timers s) (now s) (fresh s) (console s))
  | Detach element =>
      mkHandler
        (filter (fun t => negb (Nat.eqb (toastId t) element))
                (errorContainer s))
        (timers s) (now s) (fresh s) (console s)
  end.

Definition weight (tm : Timer) : nat :=
  match callback tm with
  | Fade _ => 2
  | Detach _ => 1
  end.

(** The event loop runs the timers that are due by [target], each at its
    due time, the earliest first; a callback may set a timer that is due
    by [target] as well.  A [Fade] sets one timer and a [Detach] none,
    which bounds the number of callbacks by [fuel]. *)
Fixpoint drain (fuel : nat) (target : Z) (s : Handler) : Handler :=
  match fuel, timers s with
  | S fuel', tm :: rest =>
      if (fireAt tm <=? target)%Z then
        drain fuel' target
          (fire (callback tm)
             (mkHandler (errorContainer s) rest (Z.max (now s) (fireAt tm))
                        (fresh s) (console s)))
      else s
  | _, _ => s
  end.

(** The event loop is idle for [ms] milliseconds. *)
Definition elapse (ms : Z) (s : Handler) : Handler :=
  let target := (now s + ms)%Z in
  let s := drain (list_sum (List.map weight (timers s))) target s in
  mkHandler (errorContainer s) (timers s) target (fresh s) (console s).

(** The handler as its constructor leaves it. *)
Definition created : Handler := mkHandler [] [] 0 0 [].

Inductive Event : Type :=
| Raise (timestamp : string) (error : Thrown) (context : option string)
| Idle (ms : Z).

Definition step (s : Handler) (e : Event) : Handler :=
  match e with
  | Raise timestamp error context => handleError timestamp error context s
  | Idle ms => elapse ms s
  end.

Definition run (s : Handler) (events : list Event) : Handler :=
  fold_left step events s.

(** Time does not run backwards. *)
Definition forward (e : Event) : Prop :=
  match e with
  | Idle ms => (0 <= ms)%Z
  | Raise _ _ _ => True
  end.

(** The element a timer is for. *)
Definition elementOf (tm : Timer) : nat :=
  match callback tm with
  | Fade element => element
  | Detach element => element
  end.

(** A queue in the order of the due times. *)
Fixpoint ordered (l : list Timer) : Prop :=
  match l with
  | [] => True
  | tm :: rest =>
      (forall u, In u rest -> (fireAt tm <= fireAt u)%Z) /\ ordered rest
  end.

(** What the handler keeps up: no pending timer is overdue, a [Fade] is
    due by [A] and a [Detach] by [B], every element in the container has
    a timer pending, and every timer is for an element made before. *)
Record Good (A B : Z) (s : Handler) : Prop := mkGood {
  good_ordered : ordered (timers s);
  good_future : forall tm, In tm (timers s) -> (now s <= fireAt tm)%Z;
  good_fade : forall tm e,
      In tm (timers s) -> callback tm = Fade e -> (fireAt tm <= A)%Z;
  good_detach : forall tm e,
      In tm (timers s) -> callback tm = Detach e -> (fireAt tm <= B)%Z;
  good_cover : forall t,
      In t (errorContainer s) ->
      exists tm, In tm (timers s) /\ elementOf tm = toastId t;
  good_ids : forall tm, In tm (timers s) -> (elementOf tm < fresh s)%nat
}.

(** Between two events. *)
Definition settled (s : Handler) : Prop :=
  Good (now s + 5000) (now s + 500) s.

(** The time a run of events takes. *)
Fixpoint idleTime (events : list Event) : Z :=
  match events with
  | [] => 0
  | Idle ms :: rest => ms + idleTime rest
  | Raise _ _ _ :: rest => idleTime rest
  end.

(** Every pending timer is still to come. *)
Definition ahead (s : Handler) : Prop :=
  forall tm, In tm (timers s) -> (now s < fireAt tm)%Z.

(** No timer of the element [id] is due before [D]. *)
Definition untouched (id : nat) (D : Z) (s : Handler) : Prop :=
  forall tm, In tm (timers s) -> elementOf tm = id -> (D <= fireAt tm)%Z.

(** As long as the element [id] is in the container, its [Fade] is
    pending and due by [D], or its [Detach] is pending and due by
    [D + 500]. *)
Definition onItsWay (id : nat) (D : Z) (s : Handler) : Prop :=
  forall t, In t (errorContainer s) -> toastId t = id ->
    exists tm,
      In tm (timers s)
      /\ ((callback tm = Fade id /\ (fireAt tm <= D)%Z)
          \/ (callback tm = Detach id /\ (fireAt tm <= D + 500)%Z)).
End ErrorHandler.

(** ** The animation loop of the 3D controller

    [animate] runs once per frame.  What the clock and the library
    answer during one frame comes with the frame. *)

Module Animation.
Import Scene3D.

(** [Math.PI], the double. *)
Definition PI : Q := 884279719003555 # 281474976710656.

(** The controller with [this.performanceStats], of which [fps] and
    [frameTime] are only written, and the number of frames it has asked
    the browser for. *)
Record Loop : Type := mkLoop {
  app : App;
  lastTime : Q;       (* this.performanceStats.lastTime *)
  frameCount : nat;   (* this.performanceStats.frameCount *)
  requested : nat     (* calls of requestAnimationFrame *)
}.

Record Tick : Type := mkTick {
  currentTime : Q;             (* performance.now() in updateAnimations *)
  sine : Q;                    (* what Math.sin answers there *)
  rendered : option JsError;   (* controls.update or render throws *)
  statsTime : Q                (* performance.now() in updatePerformanceStats *)
}.

Definition set_app (v : App) (l : Loop) : Loop :=
  mkLoop v (lastTime l) (frameCount l) (requested l).
Definition set_lastTime (v : Q) (l : Loop) : Loop :=
  mkLoop (app l) v (frameCount l) (requested l).
Definition set_frameCount (v : nat) (l : Loop) : Loop :=
  mkLoop (app l) (lastTime l) v (requested l).
Definition set_requested (v : nat) (l : Loop) : Loop :=
  mkLoop (app l) (lastTime l) (frameCount l) v.

(** A method of the controller, run on the controller of the loop. *)
Definition onApp {A} (m : Js App A) : Js Loop A :=
  fun l =>
    match m (app l) with
    | Normal a s => Normal a (set_app s l)
    | Abrupt e s => Abrupt e (set_app s l)
    end.

(** [private updateAnimations()] *)
Definition updateAnimations (tick : Tick) : Js Loop unit :=
  last <- gets lastTime ;;
  let deltaTime := (currentTime tick - last) / 1000 in
  modify (set_lastTime (currentTime tick)) ;;
  state <- gets (fun l => animationState (app l)) ;;
  when (cubeRotating state)
    (let rotationSpeed := PI * deltaTime in
     onApp (modify (fun s =>
       set_cubeRotation
         (mkVector3 (x (cubeRotation s))
                    (y (cubeRotation s) + rotationSpeed * (5 # 10))
                    (z (cubeRotation s) + rotationSpeed * (3 # 10))) s))) ;;
  m <- gets (fun l => model (app l)) ;;
  when (modelScaling state && match m with Some _ => true | None => false end)
    (let baseScale := 3 in
     let scaleVariation := 2 # 10 in
     let scale := baseScale + sine tick * scaleVariation in
     onApp (modify (set_modelScale scale))).

(** [updatePerformanceStats] reads the clock again. *)
Definition updatePerformanceStats (tick : Tick) : Js Loop unit :=
  modify (set_lastTime (statsTime tick)).

(** [private animate()].  The stats panel and, in debug mode, what
    [logSceneInfo] writes to the console are left out. *)
Definition animate (tick : Tick) : Js Loop unit :=
  d <- gets (fun l => disposed (app l)) ;;
  if d then ret tt
  else
    modify (fun l => set_requested (S (requested l)) l) ;;
    modify (fun l => set_frameCount (S (frameCount l)) l) ;;
    tryCatch
      (updateAnimations tick ;;
       match rendered tick with
       | Some e => throw e
       | None => ret tt
       end ;;
       debug <- gets (fun l => debugMode (app l)) ;;
       count <- gets frameCount ;;
       when (debug && Nat.eqb (count mod 60) 0)
            (updatePerformanceStats tick))
      (fun error =>
         onApp (handleError (String.append "Animation loop error: " error))).

Definition run (l : Loop) (ticks : list Tick) : Loop :=
  fold_left (fun l tick => stateOf (animate tick l)) ticks l.
End Animation.

(** ** The scene graph

    [scene.traverse(callback)] visits a node and then its descendants. *)

Module SceneGraph.
Import Scene3D.

Fixpoint traverse (o : Object3D) : list Object3D :=
  match o with
  | Object _ _ _ children => o :: flat_map traverse children
  end.

(** The nodes of the scene, at any depth. *)
Definition inScene (o : Object3D) (s : App) : Prop :=
  In o (flat_map traverse (scene s)).
End SceneGraph.

(** ** [main.ts.bak2]: starting the audio engine

    [initializeCsound] creates and configures the engine and leaves its
    start to a button, since the browser wants a user gesture for it.
    The window's click listener and [dispose] are not among the events
    here: the listener neither calls [start] nor touches the button or
    the handle. *)

Module StartAudio.

(** [import csd from '/csound/synth.csd?raw'] *)
Definition csd : string := "<CsoundSynthesizer>
<CsOptions>
-odac
</CsOptions>
<CsInstruments>
sr = 44100
ksmps = 32
nchnls = 2
0dbfs = 1

instr 1
  iamp = p4
  ifreq = p5
  
  a1 = poscil(iamp, ifreq)
  a2 = poscil(iamp, ifreq * 1.5)
  a3 = poscil(iamp, ifreq * 2)
  
  aout = (a1 + a2 + a3) * 0.3
  outs aout, aout
endin

</CsInstruments>
<CsScore>
f 0 3600
e
</CsScore>
</CsoundSynthesizer>
".

Record State : Type := mkState {
  csound : option nat;                    (* this.csound *)
  body : list AudioApp.Button;            (* start buttons in document.body *)
  fresh : nat;                            (* identity of the next engine or button *)
  engine : list (nat * CsoundCall);       (* engine calls, newest first *)
  reported : list (JsError * string)      (* handleError calls, newest first *)
}.

Definition initial : State := mkState None [] 0 [] [].

Definition set_csound (v : option nat) (s : State) : State :=
  mkState v (body s) (fresh s) (engine s) (reported s).
Definition set_body (v : list AudioApp.Button) (s : State) : State :=
  mkState (csound s) v (fresh s) (engine s) (reported s).
Definition set_fresh (v : nat) (s : State) : State :=
  mkState (csound s) (body s) v (engine s) (reported s).
Definition set_engine (v : list (nat * CsoundCall)) (s : State) : State :=
  mkState (csound s) (body s) (fresh s) v (reported s).
Definition set_reported (v : list (JsError * string)) (s : State) : State :=
  mkState (csound s) (body s) (fresh s) (engine s) v.

(** What the environment supplies to one run of [initializeCsound]:
    which of the engine's promises resolve. *)
Record Attempt : Type := mkAttempt {
  createOk : bool;
  setOptionOk : string -> bool;
  compileOk : bool
}.

(** [await Csound()] *)
Definition Csound (ok : bool) : Js State nat :=
  if ok then
    h <- gets fresh ;;
    modify (set_fresh (S h)) ;;
    ret h
  else throw "Csound() rejected".

(** [await this.csound.method(...)]: the call reaches the engine, then
    the promise resolves or rejects.  On [null] the property access
    throws. *)
Definition call (c : CsoundCall) (ok : bool) : Js State unit :=
  h <- gets csound ;;
  match h with
  | None => throw "TypeError: this.csound is null"
  | Some h =>
      modify (fun s => set_engine ((h, c) :: engine s) s) ;;
      if ok then ret tt else throw "engine call rejected"
  end.

(** [this.handleError(error, context)], bound to the handler of module
    [ErrorHandler]; it returns. *)
Definition handleError (error : JsError) (context : string)
  : Js State unit :=
  modify (fun s => set_reported ((error, context) :: reported s) s).

Definition setOption (a : Attempt) (option : string) : Js State unit :=
  call (SetOption option) (setOptionOk a option).

(** [private async initializeCsound()]; the button's [onclick] is
    [startOnclick] below. *)
Definition initializeCsound (a : Attempt) : Js State unit :=
  tryCatch
    (c <- gets csound ;;
     match c with
     | Some _ => ret tt
     | None =>
         h <- Csound (createOk a) ;;
         modify (set_csound (Some h)) ;;
         setOption a "--realtime" ;;
         setOption a "--daemon" ;;
         setOption a "-m0" ;;
         setOption a "-d" ;;
         setOption a "-+rtaudio=webaudio" ;;
         setOption a "--sample-rate=48000" ;;
         setOption a "--ksmps=128" ;;
         call (CompileCsdText csd) (compileOk a) ;;
         modify (fun s =>
           let startAudioButton :=
             AudioApp.mkButton (fresh s) "Click to Enable Audio" in
           set_body (body s ++ [startAudioButton])
                    (set_fresh (S (fresh s)) s))
     end)
    (fun error => handleError error "csound-initialization").

(** [startAudioButton.remove()] *)
Definition remove (id : nat) : Js State unit :=
  modify (fun s =>
    set_body
      (filter (fun b => negb (Nat.eqb (AudioApp.buttonId b) id)) (body s)) s).

(** [startAudioButton.textContent = text] *)
Definition setTextContent (id : nat) (text : string) : Js State unit :=
  modify (fun s =>
    set_body
      (List.map
         (fun b =>
            if Nat.eqb (AudioApp.buttonId b) id then AudioApp.mkButton id text
            else b)
         (body s)) s).

(** [startAudioButton.onclick] of the button [id]. *)
Definition startOnclick (id : nat) (ok : bool) : Js State unit :=
  tryCatch
    (call Start ok ;;
     remove id)
    (fun _ => setTextContent id "Failed to start audio. Click to retry.").

Inductive Event : Type :=
| Initialize (a : Attempt)           (* a call of initializeCsound *)
| ClickStart (id : nat) (ok : bool). (* a click on the button [id] *)

Definition attached (id : nat) (s : State) : bool :=
  existsb (fun b => Nat.eqb (AudioApp.buttonId b) id) (body s).

(** Each handler runs to completion before the next event is taken.  A
    button that is not in the page cannot be clicked. *)
Definition step (s : State) (e : Event) : State :=
  match e with
  | Initialize a => stateOf (initializeCsound a s)
  | ClickStart id ok =>
      if attached id s then stateOf (detached (startOnclick id ok) s) else s
  end.

Definition run (s : State) (events : list Event) : State :=
  fold_left step events s.

(** The calls of [start] among the engine calls. *)
Definition starts (s : State) : list (nat * CsoundCall) :=
  filter (fun c => match snd c with Start => true | _ => false end)
         (engine s).

(** Some promise of the attempt rejects after the engine was made. *)
Definition failsLate (a : Attempt) : bool :=
  createOk a
  && negb (forallb (setOptionOk a)
             ["--realtime"; "--daemon"; "-m0"; "-d"; "-+rtaudio=webaudio";
              "--sample-rate=48000"; "--ksmps=128"]
           && compileOk a).

(** What holds between any two events: no button without an engine, and
    never a second button. *)
Definition wellFormed (s : State) : Prop :=
  body s = []
  \/ exists id label h,
       body s = [AudioApp.mkButton id label] /\ csound s = Some h.
End StartAudio.

(** ** [main.ts.old]: the animation loop *)

Module OldLoop.
Import Scene3D.

Record Tick : Type := mkTick {
  sine : Q;                    (* what Math.sin answers *)
  rendered : option JsError    (* renderer.render throws *)
}.

(** [private animate()].  The next frame is requested first, so a frame
    that throws does not end the loop. *)
Definition animate (tick : Tick) : Js App unit :=
  state <- gets animationState ;;
  when (cubeRotating state)
    (modify (fun s =>
       set_cubeRotation
         (mkVector3 (x (cubeRotation s))
                    (y (cubeRotation s) + (1 # 100))
                    (z (cubeRotation s) + (1 # 100))) s)) ;;
  m <- gets model ;;
  when (modelScaling state && match m with Some _ => true | None => false end)
    (let scale := 1 + sine tick * (2 # 10) in
     modify (set_modelScale scale)) ;;
  match rendered tick with
  | Some e => throw e
  | None => ret tt
  end.

Definition run (s : App) (ticks : list Tick) : App :=
  fold_left (fun s tick => stateOf (animate tick s)) ticks s.
End OldLoop.

(** ** [main.basic.csound.ts]: runs of [initialize] that overlap

    [initialize] is asynchronous and nobody waits for it: the constructor
    calls it and returns, and a retry button stays in the page, and can be
    clicked again, while the run it has started waits for the engine.
    Here a run of [initialize] goes from one [await] to the next when the
    promise it waits for settles, and clicks may come in between.  Module
    [AudioApp] has the runs in which every run of [initialize] has
    settled before the next click ([sequential] below). *)

Module AudioAsync.
Import AudioApp.

(** The promise a run of [initialize] waits for, in [initializeAudio]. *)
Inductive Stage : Type :=
| AwaitCsound
| AwaitSetOption
| AwaitCompile
| AwaitStart
| AwaitPlaySound.

(** A run of [initialize] that waits; [caller] is the retry button whose
    [onclick] waits for the run, or nothing for the constructor. *)
Record Task : Type := mkTask { stage : Stage; caller : option nat }.

Record World : Type := mkWorld { state : State; pending : list Task }.

(** [this.csound.method(...)] is called: the call reaches the engine.  On
    [null] the property access throws. *)
Definition invoke (c : CsoundCall) : Js State unit :=
  h <- gets csound ;;
  match h with
  | None => throw "TypeError: this.csound is null"
  | Some h => modify (observe (Engine h c))
  end.

(** The promise of an engine call settles. *)
Definition settle (ok : bool) : Js State unit :=
  if ok then ret tt else throw "engine call rejected".

(** [initializeAudio] from the [await] of [stage] to the next: the
    promise settles, and the function goes on until it has made the next
    call; [r] is the draw of [Math.random] in [playSound].  The result is
    the promise it waits for then, or nothing when it has returned. *)
Definition resume (st : Stage) (ok : bool) (r : Q)
  : Js State (option Stage) :=
  match st with
  | AwaitCsound =>
      h <- Csound ok ;;
      modify (set_csound (Some h)) ;;
      invoke (SetOption "-odac") ;;
      ret (Some AwaitSetOption)
  | AwaitSetOption =>
      settle ok ;;
      invoke (CompileCsdText csdContent) ;;
      ret (Some AwaitCompile)
  | AwaitCompile =>
      settle ok ;;
      invoke Start ;;
      ret (Some AwaitStart)
  | AwaitStart =>
      settle ok ;;
      c <- gets csound ;;
      match c with
      | None =>
          modify (set_isInitialized true) ;;
          ret None
      | Some _ =>
          let frequency := 220 + r * 660 in
          invoke (InputMessage [Text "i 1 0 2 0.5 "; Num frequency]) ;;
          ret (Some AwaitPlaySound)
      end
  | AwaitPlaySound =>
      settle ok ;;
      modify (set_isInitialized true) ;;
      ret None
  end.

(** Once [initialize] has settled its caller goes on: the [onclick] of a
    retry button removes the button. *)
Definition continue (caller : option nat) : Js State unit :=
  match caller with
  | Some id => remove id
  | None => ret tt
  end.

(** The promise the run [t] waits for settles.  When [initializeAudio]
    returns, [initialize] adds the click listener; when it throws,
    [initialize] logs the error and makes a retry button. *)
Definition advance (t : Task) (ok : bool) (r : Q) (s : State)
  : State * option Task :=
  match resume (stage t) ok r s with
  | Normal (Some next) s' => (s', Some (mkTask next (caller t)))
  | Normal None s' =>
      (stateOf ((setupClickHandler ;; continue (caller t)) s'), None)
  | Abrupt error s' =>
      (stateOf ((modify (observe (ConsoleError "Audio initialization failed:"
                                               error)) ;;
                 createRetryButton ;;
                 continue (caller t)) s'),
       None)
  end.

Fixpoint replaceNth (k : nat) (t : option Task) (l : list Task)
  : list Task :=
  match l, k with
  | [] , _ => []
  | u :: rest, O =>
      match t with
      | Some t' => t' :: rest
      | None => rest
      end
  | u :: rest, S k' => u :: replaceNth k' t rest
  end.

Inductive Event : Type :=
| ClickPage (rands : nat -> Q) (oks : nat -> bool)
| ClickRetry (id : nat) (rands : nat -> Q) (oks : nat -> bool)
| Settle (k : nat) (ok : bool) (r : Q).
    (* the promise that the [k]-th waiting run waits for settles *)

(** A click on a retry button reaches the document's listeners as well,
    and its [onclick] calls [initialize], which waits for [Csound()]. *)
Definition step (w : World) (e : Event) : World :=
  match e with
  | ClickPage rands oks =>
      mkWorld (AudioApp.step (state w) (AudioApp.ClickPage rands oks))
              (pending w)
  | ClickRetry id rands oks =>
      if attached id (state w) then
        mkWorld
          (stateOf ((modify (observe (Clicked (RetryButton id))) ;;
                     n <- gets clickHandlers ;;
                     dispatchClick n 0 rands oks) (state w)))
          (pending w ++ [mkTask AwaitCsound (Some id)])
      else w
  | Settle k ok r =>
      match nth_error (pending w) k with
      | Some t =>
          let result := advance t ok r (state w) in
          mkWorld (fst result) (replaceNth k (snd result) (pending w))
      | None => w
      end
  end.

Definition run (w : World) (events : list Event) : World :=
  fold_left step events w.

(** [new AudioApp()]: the constructor has called [initialize], which
    waits for [Csound()]. *)
Definition boot : World := mkWorld initial [mkTask AwaitCsound None].

(** The promises of one run of [initialize], settling one after the
    other as the attempt [a] has them, with nothing in between. *)
Definition settles (a : Attempt) : list Event :=
  [Settle 0 (createOk a) 0;
   Settle 0 (setOptionOk a) 0;
   Settle 0 (compileOk a) 0;
   Settle 0 (startOk a) (random a);
   Settle 0 (inputMessageOk a) 0].

(** A click, and with a click on a retry button the promises of the run
    it starts. *)
Definition expand (e : UserEvent) : list Event :=
  match e with
  | AudioApp.ClickPage rands oks => [ClickPage rands oks]
  | AudioApp.ClickRetry id a rands oks => ClickRetry id rands oks :: settles a
  end.

(** The schedules in which every run of [initialize] has settled before
    the next click: the run of the constructor with the attempt [a], and
    then the clicks. *)
Definition sequential (a : Attempt) (events : list UserEvent)
  : list Event :=
  settles a ++ flat_map expand events.

(** Failures logged and clicks on retry buttons, in a log. *)
Definition isFailure (o : Observation) : bool :=
  match o with
  | ConsoleError _ _ => true
  | _ => false
  end.

Definition isRetryClick (o : Observation) : bool :=
  match o with
  | Clicked (RetryButton _) => true
  | _ => false
  end.

Definition failures (s : State) : nat :=
  List.length (filter isFailure (log s)).

Definition retryClicks (s : State) : nat :=
  List.length (filter isRetryClick (log s)).

(** The listeners, the failures logged and the clicks on retry buttons
    are the same in both states. *)
Definition neutral (s s' : State) : Prop :=
  clickHandlers s' = clickHandlers s
  /\ failures s' = failures s
  /\ retryClicks s' = retryClicks s.

(** What is kept in every schedule. *)
Definition accounted (w : World) : Prop :=
  (clickHandlers (state w) + failures (state w) + List.length (pending w)
   = 1 + retryClicks (state w))%nat.

(** Two clicks on the first retry button before anything settles, then
    both runs go through, the second after the first. *)
Definition doubleClick : list Event :=
  [Settle 0 false 0;
   ClickRetry 0 (fun _ => 0) (fun _ => true);
   ClickRetry 0 (fun _ => 0) (fun _ => true);
   Settle 0 true 0; Settle 0 true 0; Settle 0 true 0; Settle 0 true 0;
   Settle 0 true 0;
   Settle 0 true 0; Settle 0 true 0; Settle 0 true 0; Settle 0 true 0;
   Settle 0 true 0].

(** Two clicks on the first retry button; the engine of the second run
    is made while the first run waits for [start]. *)
Definition overtaking : list Event :=
  [Settle 0 false 0;
   ClickRetry 0 (fun _ => 0) (fun _ => true);
   ClickRetry 0 (fun _ => 0) (fun _ => true);
   Settle 0 true 0; Settle 0 true 0; Settle 0 true 0;
   Settle 1 true 0;
   Settle 0 true 0].
End AudioAsync.

(** * Properties *)

(** ** Instrument 1 *)

Module SynthFacts.
Import Synth.

Section Instr1.
Variable Osc : Type.
Variable poscil : Q -> Q -> Osc -> Q * Osc.

Lemma instr1_frame (p4 p5 : Q) (st : Note Osc) :
  instr1 poscil p4 p5 st =
  (let a := (fst (poscil p4 p5 (osc1 st))
             + fst (poscil p4 (p5 * (3 # 2)) (osc2 st))
             + fst (poscil p4 (p5 * 2) (osc3 st))) * (3 # 10) in
   (a, a),
   mkNote (snd (poscil p4 p5 (osc1 st)))
          (snd (poscil p4 (p5 * (3 # 2)) (osc2 st)))
          (snd (poscil p4 (p5 * 2) (osc3 st)))).
Proof.
  unfold instr1.
  destruct (poscil p4 p5 (osc1 st)) as [a1 o1].
  destruct (poscil p4 (p5 * (3 # 2)) (osc2 st)) as [a2 o2].
  destruct (poscil p4 (p5 * 2) (osc3 st)) as [a3 o3].
  reflexivity.
Qed.

Lemma oscillate_step (n : nat) (amp cps : Q) (o : Osc) :
  oscillate poscil (S n) amp cps o =
  fst (poscil amp cps o) :: oscillate poscil n amp cps (snd (poscil amp cps o)).
Proof. simpl. destruct (poscil amp cps o). reflexivity. Qed.

(** C9: instrument 1 hands the same signal to the left and to the right
    channel, and that signal is, sample by sample, the sum of three
    oscillators of amplitude p4 at the frequencies p5, 1.5 * p5 and
    2 * p5, scaled by 0.3, for every p4 and p5 and for any length. *)
Theorem instr1_stereo_mix (p4 p5 : Q) (st : Note Osc) (n : nat) :
  let out := perform poscil n p4 p5 st in
  List.map fst out = List.map snd out
  /\ List.map fst out =
     mix3 (oscillate poscil n p4 p5 (osc1 st))
          (oscillate poscil n p4 (p5 * (3 # 2)) (osc2 st))
          (oscillate poscil n p4 (p5 * 2) (osc3 st)).
Proof.
  revert st. induction n as [|n IH]; intros st.
  - split; reflexivity.
  - cbv zeta in IH |- *.
    rewrite !oscillate_step.
    cbn [perform]. rewrite instr1_frame. cbv zeta.
    cbn [List.map fst snd mix3].
    destruct (IH (mkNote (snd (poscil p4 p5 (osc1 st)))
                         (snd (poscil p4 (p5 * (3 # 2)) (osc2 st)))
                         (snd (poscil p4 (p5 * 2) (osc3 st)))))
      as [Hlr Hmix].
    cbn [osc1 osc2 osc3] in Hmix.
    split.
    + f_equal. exact Hlr.
    + f_equal. exact Hmix.
Qed.
End Instr1.
End SynthFacts.

(** ** The audio controllers *)

Module AudioFacts.
Import AudioApp.

(** *** The log only grows *)

Lemma extends_refl s : extends s s.
Proof. exists []. reflexivity. Qed.

Lemma extends_trans s1 s2 s3 :
  extends s1 s2 -> extends s2 s3 -> extends s1 s3.
Proof.
  intros [n1 H1] [n2 H2]. exists (n2 ++ n1).
  rewrite H2, H1. apply app_assoc.
Qed.

Lemma growing_ret {A} (a : A) : growing (ret a).
Proof. intros s. apply extends_refl. Qed.

Lemma growing_throw {A} (e : JsError) : growing (@throw State A e).
Proof. intros s. apply extends_refl. Qed.

Lemma growing_gets {A} (proj : State -> A) : growing (gets proj).
Proof. intros s. apply extends_refl. Qed.

Lemma growing_bind {A B} (m : Js State A) (k : A -> Js State B) :
  growing m -> (forall a, growing (k a)) -> growing (bind m k).
Proof.
  intros Hm Hk s. unfold bind. specialize (Hm s).
  destruct (m s) as [a s'|e s']; simpl in *.
  - eapply extends_trans; [exact Hm | apply Hk].
  - exact Hm.
Qed.

Lemma growing_tryCatch {A} (m : Js State A) (h : JsError -> Js State A) :
  growing m -> (forall e, growing (h e)) -> growing (tryCatch m h).
Proof.
  intros Hm Hh s. unfold tryCatch. specialize (Hm s).
  destruct (m s) as [a s'|e s']; simpl in *.
  - exact Hm.
  - eapply extends_trans; [exact Hm | apply Hh].
Qed.

Lemma growing_detached {A} (m : Js State A) :
  growing m -> growing (detached m).
Proof. intros Hm s. apply Hm. Qed.

Lemma growing_when (c : bool) (m : Js State unit) :
  growing m -> growing (when c m).
Proof. intros Hm. destruct c; [exact Hm | apply growing_ret]. Qed.

Lemma growing_modify (f : State -> State) :
  (forall s, extends s (f s)) -> growing (modify f).
Proof. intros Hf s. apply Hf. Qed.

Lemma growing_observe (o : Observation) : growing (modify (observe o)).
Proof. intros s. exists [o]. reflexivity. Qed.

Create HintDb growing discriminated.
#[local] Hint Resolve growing_ret growing_throw growing_gets growing_bind
  growing_tryCatch growing_detached growing_when growing_observe
  extends_refl : growing.

Ltac grow :=
  repeat match goal with
  | |- growing (bind _ _) => apply growing_bind; [|intros ?]
  | |- growing (tryCatch _ _) => apply growing_tryCatch; [|intros ?]
  | |- growing (detached _) => apply growing_detached
  | |- growing (when _ _) => apply growing_when
  | |- growing (modify (observe _)) => apply growing_observe
  | |- growing (ret _) => apply growing_ret
  | |- growing (throw _) => apply growing_throw
  | |- growing (gets _) => apply growing_gets
  | |- growing (modify _) =>
      apply growing_modify; intros ?;
      solve [exists []; reflexivity | eexists [_]; reflexivity]
  end.

Lemma growing_Csound ok : growing (Csound ok).
Proof. unfold Csound. destruct ok; grow. Qed.

Lemma growing_call c ok : growing (call c ok).
Proof.
  unfold call. grow. destruct a; grow. destruct ok; grow.
Qed.

Lemma growing_playSound r ok : growing (playSound r ok).
Proof.
  unfold playSound. grow. destruct a; grow. apply growing_call.
Qed.

Lemma growing_initializeAudio a : growing (initializeAudio a).
Proof.
  unfold initializeAudio. grow;
    auto using growing_Csound, growing_call, growing_playSound.
Qed.

Lemma growing_initialize a : growing (initialize a).
Proof.
  unfold initialize, setupClickHandler, createRetryButton. grow.
  apply growing_initializeAudio.
Qed.

Lemma growing_retryOnclick id a : growing (retryOnclick id a).
Proof.
  unfold retryOnclick, remove, setTextContent. grow.
  apply growing_initialize.
Qed.

Lemma growing_dispatchClick n : forall i rands oks,
  growing (dispatchClick n i rands oks).
Proof.
  induction n as [|n IH]; intros i rands oks; simpl.
  - apply growing_ret.
  - unfold clickListener. grow.
    + apply growing_playSound.
    + apply IH.
Qed.

(** *** Clicks and score messages *)

Lemma step_log s e :
  exists new, log (step s e) = new ++ log s /\ clickLed new.
Proof.
  destruct e as [rands oks | id a rands oks]; simpl.
  - assert (G : growing (n <- gets clickHandlers ;;
                         dispatchClick n 0 rands oks)).
    { grow. apply growing_dispatchClick. }
    destruct (G (observe (Clicked Page) s)) as [new Hnew].
    exists (new ++ [Clicked Page]). split.
    + unfold bind at 1. unfold modify at 1. rewrite Hnew. simpl.
      rewrite <- app_assoc. reflexivity.
    + right. exists Page, new. reflexivity.
  - destruct (attached id s).
    + assert (G : growing (n <- gets clickHandlers ;;
                           dispatchClick n 0 rands oks ;;
                           detached (retryOnclick id a))).
      { grow.
        - apply growing_dispatchClick.
        - apply growing_retryOnclick. }
      destruct (G (observe (Clicked (RetryButton id)) s)) as [new Hnew].
      exists (new ++ [Clicked (RetryButton id)]). split.
      * unfold bind at 1. unfold modify at 1. rewrite Hnew. simpl.
        rewrite <- app_assoc. reflexivity.
      * right. exists (RetryButton id), new. reflexivity.
    + exists []. split; [reflexivity | left; reflexivity].
Qed.

Lemma clickLed_app new1 new2 :
  clickLed new1 -> clickLed new2 -> clickLed (new2 ++ new1).
Proof.
  intros [->|(t & l1 & ->)] H2.
  - rewrite app_nil_r. exact H2.
  - right. exists t, (new2 ++ l1). apply app_assoc.
Qed.

Lemma fold_step_log events : forall s,
  exists new, log (fold_left step events s) = new ++ log s /\ clickLed new.
Proof.
  induction events as [|e events IH]; intros s; simpl.
  - exists []. split; [reflexivity | left; reflexivity].
  - destruct (step_log s e) as (n1 & H1 & L1).
    destruct (IH (step s e)) as (n2 & H2 & L2).
    exists (n2 ++ n1). split.
    + rewrite H2, H1. apply app_assoc.
    + apply clickLed_app; assumption.
Qed.

Lemma click_first t l : clickBeforeEveryMessage (Clicked t :: l).
Proof.
  intros before o after Heq Hmsg.
  destruct before as [|b before]; simpl in Heq; inversion Heq; subst.
  - discriminate Hmsg.
  - reflexivity.
Qed.

Lemma clickLed_trace new :
  clickLed new -> clickBeforeEveryMessage (rev new).
Proof.
  intros [->|(t & later & ->)].
  - intros before o after Heq _. destruct before; discriminate Heq.
  - rewrite rev_app_distr. simpl. apply click_first.
Qed.

(** What [new AudioApp()] sends on its own: one score message when the
    engine starts, none when it does not. *)
Lemma boot_messages a :
  filter isScoreMessage (trace (boot a)) =
  if reachesPlaySound a
  then [Engine 0 (InputMessage [Text "i 1 0 2 0.5 ";
                                Num (220 + random a * 660)])]
  else [].
Proof.
  destruct a as [c so co st im r].
  destruct c, so, co, st, im; reflexivity.
Qed.

Lemma boot_no_click a : existsb isClick (trace (boot a)) = false.
Proof.
  destruct a as [c so co st im r].
  destruct c, so, co, st, im; reflexivity.
Qed.

(** C3, as the code has it: a score message is sent either by the
    start-up run of [initialize] that the constructor begins without any
    click (one message, and only if the engine got as far as starting),
    or after a click; what follows the start-up in the trace has a click
    before every score message. *)
Theorem messages_follow_startup_or_click a events :
  exists user,
    trace (run a events) = trace (boot a) ++ user
    /\ clickBeforeEveryMessage user
    /\ existsb isClick (trace (boot a)) = false
    /\ filter isScoreMessage (trace (boot a)) =
       (if reachesPlaySound a
        then [Engine 0 (InputMessage [Text "i 1 0 2 0.5 ";
                                      Num (220 + random a * 660)])]
        else []).
Proof.
  destruct (fold_step_log events (boot a)) as (new & Hlog & Hled).
  exists (rev new). repeat split.
  - unfold trace, run. rewrite Hlog. apply rev_app_distr.
  - apply clickLed_trace. exact Hled.
  - apply boot_no_click.
  - apply boot_messages.
Qed.

(** C3, as it is stated, fails: when every promise of the engine
    resolves, the constructor alone sends a score message, and no click
    is before it. *)
Lemma startup_message_without_click :
  ~ clickBeforeEveryMessage (trace (run (resolving (1 # 2)) [])).
Proof.
  intros H.
  specialize (H [Created 0; Engine 0 (SetOption "-odac");
                 Engine 0 (CompileCsdText csdContent); Engine 0 Start]
                (Engine 0 (InputMessage [Text "i 1 0 2 0.5 ";
                                         Num (220 + (1 # 2) * 660)]))
                [] eq_refl eq_refl).
  discriminate H.
Qed.

(** *** Playing a sound *)

Lemma dispatchClick_silent rands oks n : forall i s,
  csound s = None -> dispatchClick n i rands oks s = Normal tt s.
Proof.
  induction n as [|n IH]; intros i s Hnull; simpl.
  - reflexivity.
  - assert (L : detached (clickListener (rands i) (oks i)) s = Normal tt s).
    { unfold detached, clickListener, bind, gets, when.
      destruct (isInitialized s); [|reflexivity].
      unfold playSound, bind, gets. rewrite Hnull. reflexivity. }
    unfold bind at 1. rewrite L. apply IH. exact Hnull.
Qed.

(** C8: with no engine handle, [playSound] of [AudioApp] and
    [handleClick] of the audio-only [App] return normally and nothing
    reaches an engine; the former leaves the state as it is, the latter
    only writes a warning to the console.  A click on the page, whatever
    the number of listeners, then leaves no trace but the click. *)
Theorem silent_without_engine
    (s : AudioApp.State) (t : AudioOnly.State)
    (r : Q) (ok : bool) (rands : nat -> Q) (oks : nat -> bool) :
  csound s = None ->
  AudioOnly.csound t = None ->
  playSound r ok s = Normal tt s
  /\ AudioOnly.handleClick r ok t =
     Normal tt (AudioOnly.observe
                  (AudioOnly.ConsoleWarn "Csound not initialized") t)
  /\ step s (ClickPage rands oks) = observe (Clicked Page) s.
Proof.
  intros Hs Ht. repeat split.
  - unfold playSound, bind, gets. rewrite Hs. reflexivity.
  - unfold AudioOnly.handleClick, bind, gets. rewrite Ht. reflexivity.
  - simpl. unfold bind at 1. unfold modify at 1.
    unfold bind, gets. rewrite dispatchClick_silent; [reflexivity | exact Hs].
Qed.

Lemma silent_without_engine_witness :
  playSound (1 # 2) true initial = Normal tt initial
  /\ AudioOnly.handleClick (1 # 2) true (AudioOnly.mkState None false []) =
     Normal tt (AudioOnly.observe
                  (AudioOnly.ConsoleWarn "Csound not initialized")
                  (AudioOnly.mkState None false []))
  /\ step initial (ClickPage (fun _ => 1 # 2) (fun _ => true)) =
     observe (Clicked Page) initial.
Proof.
  apply (@silent_without_engine initial (AudioOnly.mkState None false [])
           (1 # 2) true (fun _ => 1 # 2) (fun _ => true));
    reflexivity.
Defined.

(** C4: with an engine handle [h], a call of [playSound] (and of
    [handleClick] in the audio-only [App]) sends exactly one message,
    the score line "i 1 0 2 0.5 f" with f = 220 + 660 * r for the draw
    [r] of [Math.random]; for 0 <= r < 1 this gives 220 <= f < 880.
    After a successful start-up, a click on the page with one listener
    sends this one message. *)
Theorem score_event_of_click
    (s : AudioApp.State) (t : AudioOnly.State) (h h' : nat)
    (r : Q) (ok : bool) (rands : nat -> Q) (oks : nat -> bool) :
  csound s = Some h ->
  AudioOnly.csound t = Some h' ->
  0 <= r -> r < 1 ->
  let f := 220 + r * 660 in
  stateOf (playSound r ok s) =
    observe (Engine h (InputMessage [Text "i 1 0 2 0.5 "; Num f])) s
  /\ returns (playSound r ok s) = ok
  /\ AudioOnly.log (stateOf (AudioOnly.handleClick r ok t)) =
       (if ok then AudioOnly.ConsoleLog "Playing sound at frequency:"
        else AudioOnly.Reported "inputMessage rejected" "sound-playback")
       :: AudioOnly.Engine h' (InputMessage [Text "i 1 0 2 0.5 "; Num f])
       :: AudioOnly.log t
  /\ returns (AudioOnly.handleClick r ok t) = true
  /\ (isInitialized s = true -> clickHandlers s = 1%nat ->
      log (step s (ClickPage rands oks)) =
        Engine h (InputMessage [Text "i 1 0 2 0.5 ";
                                Num (220 + rands 0%nat * 660)])
        :: Clicked Page :: log s)
  /\ f == 220 + 660 * r /\ 220 <= f /\ f < 880.
Proof.
  intros Hs Ht H0 H1 f. subst f. repeat split.
  - destruct s as [c i n b fr l]. simpl in Hs. subst c.
    destruct ok; reflexivity.
  - destruct s as [c i n b fr l]. simpl in Hs. subst c.
    destruct ok; reflexivity.
  - unfold AudioOnly.handleClick, AudioOnly.inputMessage, tryCatch, bind,
      gets, modify. rewrite Ht.
    destruct ok; reflexivity.
  - unfold AudioOnly.handleClick, AudioOnly.inputMessage, tryCatch, bind,
      gets, modify. rewrite Ht.
    destruct ok; reflexivity.
  - intros Hinit Hone. destruct s as [c i n b fr l]. simpl in *. subst.
    unfold bind, modify, gets, detached, clickListener, when, playSound,
      call, bind, gets, modify. simpl.
    destruct (oks 0%nat); reflexivity.
  - ring.
  - lra.
  - lra.
Qed.

Lemma score_event_of_click_witness :
  stateOf (playSound (1 # 2) true (boot (resolving 0))) =
    observe (Engine 0 (InputMessage [Text "i 1 0 2 0.5 ";
                                     Num (220 + (1 # 2) * 660)]))
            (boot (resolving 0))
  /\ 220 <= 220 + (1 # 2) * 660 /\ 220 + (1 # 2) * 660 < 880.
Proof.
  destruct (@score_event_of_click (boot (resolving 0))
              (AudioOnly.mkState (Some 0%nat) false []) 0 0 (1 # 2) true
              (fun _ => 1 # 2) (fun _ => true))
    as (Hsend & _ & _ & _ & _ & _ & Hlow & Hhigh).
  - reflexivity.
  - reflexivity.
  - discriminate.
  - reflexivity.
  - split; [exact Hsend | split; [exact Hlow | exact Hhigh]].
Defined.

(** In binary64 the ends of the range behave as in the exact model: the
    draw 0 gives 220, and the largest draw gives 880 - 2^-43, below 880. *)
Lemma frequencyDouble_ends :
  frequencyDouble (S754_zero false) = S754_finite false 220 0
  /\ frequencyDouble largestDraw
     = S754_finite false (880 * 2 ^ 43 - 1) (-43)
  /\ SFcompare (frequencyDouble largestDraw) (S754_finite false 880 0)
     = Some Lt.
Proof. repeat split. Qed.

(** *** Retrying the initialisation *)

(** [initialize] catches whatever [initializeAudio] throws. *)
Lemma initialize_returns a s : returns (initialize a s) = true.
Proof.
  unfold initialize, tryCatch.
  destruct (bind (initializeAudio a) (fun _ => setupClickHandler) s)
    as [[] s'|e s'] eqn:E.
  - reflexivity.
  - reflexivity.
Qed.

(** So the [catch] of the retry handler never runs: the handler is
    [initialize] followed by the removal of the clicked button. *)
Lemma retryOnclick_removes id a s :
  retryOnclick id a s = (initialize a ;; remove id) s.
Proof.
  unfold retryOnclick, tryCatch, bind.
  pose proof (initialize_returns a s) as R.
  destruct (initialize a s) as [[] s'|e s']; [reflexivity | discriminate R].
Qed.

(** A failed run of [initialize] adds a button with the first label. *)
Lemma initialize_failure a s :
  reachesPlaySound a && inputMessageOk a = false ->
  body (stateOf (initialize a s)) =
  body s ++ [mkButton (if createOk a then S (fresh s) else fresh s)
                      "Retry Audio Initialization"].
Proof.
  destruct a as [c so co st im r]. unfold reachesPlaySound. simpl.
  destruct c, so, co, st, im; simpl; intros H;
    try discriminate H; reflexivity.
Qed.

(** C6 at the failing input: the engine cannot be created at start-up
    nor when the retry button is clicked.  The start-up leaves one retry
    button; the click removes it and leaves a new button with the
    first label.  No button is ever labelled "Failed - Try again". *)
Theorem failed_retry_replaces_button :
  body (boot rejecting) = [mkButton 0 "Retry Audio Initialization"]
  /\ body (run rejecting
             [ClickRetry 0 rejecting (fun _ => 0) (fun _ => true)]) =
     [mkButton 1 "Retry Audio Initialization"]
  /\ body (run rejecting
             [ClickRetry 0 rejecting (fun _ => 0) (fun _ => true);
              ClickRetry 1 (resolving 0) (fun _ => 0) (fun _ => true)]) =
     [].
Proof. repeat split. Qed.
End AudioFacts.

(** ** The 3D controller *)

Module SceneFacts.
Import Scene3D.

(** *** Keyboard *)

(** C7: a key whose lower-case form is w, s, a, d, q or e moves the
    camera by 0.1 along one axis (w and s along z, a and d along x, q
    and e along y) and changes nothing else: the scene, the animation
    state, the resource registry and every other field are as before,
    and the handler returns normally. *)
Theorem camera_keys_move_camera_only (s : App) (key : string) :
  let k := toLowerCase key in
  let p := cameraPosition s in
  let moved d := Normal tt (set_cameraPosition (add p d) s) in
  (k = "w" -> handleKeyDown key s = moved (mkVector3 0 0 (- (1 # 10))))
  /\ (k = "s" -> handleKeyDown key s = moved (mkVector3 0 0 (1 # 10)))
  /\ (k = "a" -> handleKeyDown key s = moved (mkVector3 (- (1 # 10)) 0 0))
  /\ (k = "d" -> handleKeyDown key s = moved (mkVector3 (1 # 10) 0 0))
  /\ (k = "q" -> handleKeyDown key s = moved (mkVector3 0 (1 # 10) 0))
  /\ (k = "e" -> handleKeyDown key s = moved (mkVector3 0 (- (1 # 10)) 0))
  /\ (In k ["w"; "s"; "a"; "d"; "q"; "e"] ->
      let s' := stateOf (handleKeyDown key s) in
      let p' := cameraPosition s' in
      onlyCameraMoved s s'
      /\ scene s' = scene s
      /\ animationState s' = animationState s
      /\ resourceManager s' = resourceManager s
      /\ (k = "w" -> x p' == x p /\ y p' == y p /\ z p' == z p - (1 # 10))
      /\ (k = "s" -> x p' == x p /\ y p' == y p /\ z p' == z p + (1 # 10))
      /\ (k = "a" -> x p' == x p - (1 # 10) /\ y p' == y p /\ z p' == z p)
      /\ (k = "d" -> x p' == x p + (1 # 10) /\ y p' == y p /\ z p' == z p)
      /\ (k = "q" -> x p' == x p /\ y p' == y p + (1 # 10) /\ z p' == z p)
      /\ (k = "e" -> x p' == x p /\ y p' == y p - (1 # 10) /\ z p' == z p)).
Proof.
  intros k p moved. subst k p moved.
  unfold handleKeyDown.
  do 6 (split; [intros Hk; rewrite Hk; reflexivity|]).
  intros [Hk|[Hk|[Hk|[Hk|[Hk|[Hk|[]]]]]]]; rewrite <- Hk; simpl;
    (split; [reflexivity|]);
    do 3 (split; [reflexivity|]);
    repeat match goal with
           | |- _ /\ _ => split
           | |- _ = _ -> _ => intros Hk'; try discriminate Hk'
           end;
    simpl; ring.
Qed.

Lemma camera_keys_move_camera_only_witness :
  handleKeyDown "W" built =
    Normal tt (set_cameraPosition
                 (add (cameraPosition built) (mkVector3 0 0 (- (1 # 10))))
                 built)
  /\ animationState (stateOf (handleKeyDown "W" built)) = animationState built
  /\ z (cameraPosition (stateOf (handleKeyDown "W" built)))
     == z (cameraPosition built) - (1 # 10).
Proof.
  destruct (camera_keys_move_camera_only built "W")
    as (Hw & _ & _ & _ & _ & _ & Hframe).
  split; [apply Hw; reflexivity|].
  destruct Hframe as (_ & _ & Hanim & _ & Hmove & _).
  - left. reflexivity.
  - split; [exact Hanim|].
    apply Hmove. reflexivity.
Defined.

(** *** Clicks *)

(** The handler reads the nearest hit and nothing else of the array. *)
Lemma handleClick_nearest first rest s :
  handleClick (first :: rest) s = handleClick [first] s.
Proof. reflexivity. Qed.

(** What a click does, by the object of the nearest hit. *)
Lemma handleClick_cases intersects s :
  let s' := stateOf (handleClick intersects s) in
  returns (handleClick intersects s) = true
  /\ match intersects with
     | [] => s' = s
     | first :: _ =>
         if Nat.eqb (object first) (cube s) then
           animationState s' =
             mkAnimationState true (modelScaling (animationState s))
           /\ timers s' = timers s ++ [mkTimer (now s + 5000) StopCubeRotation]
           /\ now s' = now s /\ disposed s' = disposed s
         else if isModel (object first) (model s) then
           animationState s' =
             mkAnimationState (cubeRotating (animationState s)) true
           /\ timers s' = timers s ++ [mkTimer (now s + 5000) StopModelScale]
           /\ now s' = now s /\ disposed s' = disposed s
         else s' = s
     end.
Proof.
  destruct intersects as [|first rest]; simpl.
  - split; reflexivity.
  - unfold handleClick, tryCatch, bind, gets.
    destruct (Nat.eqb (object first) (cube s)).
    + unfold startCubeRotation, playCsoundEvent, tryCatch, bind, gets, modify,
        setTimeout.
      simpl. destruct (csound s); simpl; repeat split.
    + destruct (isModel (object first) (model s)); simpl; repeat split.
Qed.

(** C10: a click starts at most one animation.  The handler depends on
    the nearest hit only; after it, one of the two flags is as it was
    before, and at most one timer has been added; a click whose hits are
    neither on the cube nor on the model leaves the animation state as
    it was. *)
Theorem click_starts_at_most_one (s : App) (intersects : list Intersection) :
  let s' := stateOf (handleClick intersects s) in
  returns (handleClick intersects s) = true
  /\ (forall first rest,
        intersects = first :: rest ->
        handleClick intersects s = handleClick [first] s)
  /\ (cubeRotating (animationState s') = cubeRotating (animationState s)
      \/ modelScaling (animationState s') = modelScaling (animationState s))
  /\ (List.length (timers s') <= S (List.length (timers s)))%nat
  /\ (Forall (fun i => object i <> cube s
                       /\ isModel (object i) (model s) = false) intersects ->
      animationState s' = animationState s /\ timers s' = timers s).
Proof.
  intros s'. subst s'.
  destruct (handleClick_cases intersects s) as [Hret Hcases].
  cbv zeta in Hcases.
  split; [exact Hret|].
  split; [intros first rest ->; apply handleClick_nearest|].
  destruct intersects as [|first rest].
  - rewrite Hcases. repeat split; auto.
  - destruct (Nat.eqb_spec (object first) (cube s)) as [Hcube|Hcube].
    + destruct Hcases as (Ha & Ht & _). rewrite Ha, Ht. simpl.
      split; [right; reflexivity|].
      split; [rewrite List.length_app; simpl; lia|].
      intros Hall. inversion Hall as [|? ? [Hno _] _]. contradiction.
    + destruct (isModel (object first) (model s)) eqn:Hmodel.
      * destruct Hcases as (Ha & Ht & _). rewrite Ha, Ht. simpl.
        split; [left; reflexivity|].
        split; [rewrite List.length_app; simpl; lia|].
        intros Hall. inversion Hall as [|? ? [_ Hno] _]. congruence.
      * rewrite Hcases. repeat split; auto.
Qed.

Lemma click_starts_at_most_one_witness :
  animationState (stateOf (handleClick [hit 0; hit 1] built))
  = animationState built.
Proof.
  destruct (click_starts_at_most_one built [hit 0; hit 1])
    as (_ & _ & _ & _ & Hmiss).
  apply Hmiss.
  apply Forall_cons; [split; [vm_compute; discriminate | reflexivity]|].
  apply Forall_cons; [split; [vm_compute; discriminate | reflexivity]|].
  apply Forall_nil.
Defined.

(** *** Timers *)

(** A timer callback clears its flag, unless the application has been
    disposed: then it does nothing. *)
Lemma fire_spec cb s :
  fire cb s =
  Normal tt (if disposed s then s
             else match cb with
                  | StopCubeRotation => set_cubeRotating false s
                  | StopModelScale => set_modelScaling false s
                  end).
Proof.
  unfold fire, bind, gets, when.
  destruct (disposed s), cb; reflexivity.
Qed.

Lemma fire_frame cb s :
  let s' := stateOf (fire cb s) in
  disposed s' = disposed s /\ timers s' = timers s /\ now s' = now s.
Proof.
  rewrite fire_spec. destruct (disposed s) eqn:D, cb; simpl; auto.
Qed.

Lemma fireAll_frame due : forall s,
  disposed (fireAll due s) = disposed s
  /\ timers (fireAll due s) = timers s
  /\ now (fireAll due s) = now s.
Proof.
  induction due as [|tm due IH]; intros s; simpl.
  - auto.
  - destruct (IH (stateOf (fire (callback tm) s))) as (D & T & N).
    destruct (fire_frame (callback tm) s) as (D' & T' & N').
    unfold fireAll in *. simpl. rewrite D, T, N. auto.
Qed.

(** The callbacks only ever clear a flag. *)
Lemma fireAll_stays_clear due : forall s,
  (cubeRotating (animationState s) = false ->
   cubeRotating (animationState (fireAll due s)) = false)
  /\ (modelScaling (animationState s) = false ->
      modelScaling (animationState (fireAll due s)) = false).
Proof.
  induction due as [|tm due IH]; intros s; simpl.
  - auto.
  - destruct (IH (stateOf (fire (callback tm) s))) as [IHc IHm].
    unfold fireAll in *. simpl.
    rewrite fire_spec in *. simpl in *.
    split; intros H; [apply IHc | apply IHm];
      destruct (disposed s), (callback tm); simpl; auto.
Qed.

Lemma fireAll_clears due : forall s tm,
  disposed s = false ->
  In tm due ->
  match callback tm with
  | StopCubeRotation => cubeRotating (animationState (fireAll due s)) = false
  | StopModelScale => modelScaling (animationState (fireAll due s)) = false
  end.
Proof.
  induction due as [|u due IH]; intros s tm D Hin; simpl in Hin.
  - contradiction.
  - change (fireAll (u :: due) s)
      with (fireAll due (stateOf (fire (callback u) s))).
    destruct Hin as [->|Hin].
    + destruct (fireAll_stays_clear due (stateOf (fire (callback tm) s)))
        as [Hc Hm].
      rewrite fire_spec in *. rewrite D in *. simpl in *.
      destruct (callback tm); [apply Hc | apply Hm]; reflexivity.
    + apply IH; [|exact Hin].
      destruct (fire_frame (callback u) s) as (D' & _). congruence.
Qed.

(** Without a live application the flags stay as they are. *)
Lemma fireAll_disposed due : forall s,
  disposed s = true -> fireAll due s = s.
Proof.
  induction due as [|u due IH]; intros s D; simpl.
  - reflexivity.
  - unfold fireAll in *. simpl. rewrite fire_spec, D. simpl. apply IH, D.
Qed.

Lemma In_insertTimer t u l : In u (insertTimer t l) <-> u = t \/ In u l.
Proof.
  induction l as [|v l IH]; simpl.
  - intuition.
  - destruct (fireAt t <? fireAt v)%Z; simpl; rewrite ?IH; intuition.
Qed.

Lemma In_byFireAt u l : In u (byFireAt l) <-> In u l.
Proof.
  unfold byFireAt.
  assert (G : forall acc, In u (fold_left (fun acc t => insertTimer t acc) l acc)
                          <-> In u l \/ In u acc).
  { induction l as [|t l IH]; intros acc; simpl.
    - intuition.
    - rewrite IH, In_insertTimer. intuition. }
  rewrite G. simpl. intuition.
Qed.

(** The timer a start has set, in the newest generation: pending before
    its time, gone after it, and what it does when it fires. *)
Lemma expiry_spec (s s1 : App) (cb : TimerCallback) :
  timers s1 = timers s ++ [mkTimer (now s + 5000) cb] ->
  now s1 = now s ->
  disposed s1 = disposed s ->
  (forall ms, (ms < 5000)%Z ->
     In (mkTimer (now s + 5000) cb) (timers (elapse ms s1)))
  /\ ~ In (mkTimer (now s + 5000) cb) (timers (elapse 5000 s1))
  /\ (disposed s = false ->
      match cb with
      | StopCubeRotation =>
          cubeRotating (animationState (elapse 5000 s1)) = false
      | StopModelScale =>
          modelScaling (animationState (elapse 5000 s1)) = false
      end)
  /\ (disposed s = true ->
      animationState (elapse 5000 s1) = animationState s1).
Proof.
  intros Ht Hn Hd. unfold elapse. fold (fireAll
    (byFireAt (filter (isDue (now s1 + 5000)) (timers s1)))
    (set_now (now s1 + 5000)
       (set_timers (filter (fun tm => negb (isDue (now s1 + 5000) tm))
                           (timers s1)) s1))).
  repeat split.
  - intros ms Hms.
    match goal with
    | |- In _ (timers (fold_left _ ?due ?start)) =>
        destruct (fireAll_frame due start) as (_ & T & _);
        unfold fireAll in T; rewrite T
    end.
    simpl. apply filter_In. split.
    + rewrite Ht. apply in_or_app. right. left. reflexivity.
    + unfold isDue. simpl. rewrite Hn.
      apply negb_true_iff. apply Z.leb_gt. lia.
  - match goal with
    | |- ~ In _ (timers (fireAll ?due ?start)) =>
        destruct (fireAll_frame due start) as (_ & T & _); rewrite T
    end.
    simpl. rewrite filter_In. intros [_ Hnot].
    unfold isDue in Hnot. simpl in Hnot. rewrite Hn in Hnot.
    apply negb_true_iff in Hnot. apply Z.leb_gt in Hnot. lia.
  - intros D.
    match goal with
    | |- context [fireAll ?due ?start] =>
        pose proof (@fireAll_clears due start (mkTimer (now s + 5000) cb)) as C
    end.
    simpl in C. apply C.
    + rewrite Hd. exact D.
    + apply In_byFireAt. apply filter_In. split.
      * rewrite Ht. apply in_or_app. right. left. reflexivity.
      * unfold isDue. simpl. rewrite Hn. apply Z.leb_le. lia.
  - intros D. rewrite fireAll_disposed.
    + reflexivity.
    + simpl. rewrite Hd. exact D.
Qed.

(** The callbacks of the older generations. *)
Lemma legacy_fire_spec cb s :
  Legacy.fire cb s =
  Normal tt (match cb with
             | StopCubeRotation => set_cubeRotating false s
             | StopModelScale => set_modelScaling false s
             end).
Proof. destruct cb; reflexivity. Qed.

Lemma legacy_fireAll_frame due : forall s,
  disposed (Legacy.fireAll due s) = disposed s
  /\ timers (Legacy.fireAll due s) = timers s
  /\ now (Legacy.fireAll due s) = now s.
Proof.
  induction due as [|tm due IH]; intros s; simpl.
  - auto.
  - destruct (IH (stateOf (Legacy.fire (callback tm) s))) as (D & T & N).
    unfold Legacy.fireAll in *. simpl. rewrite D, T, N.
    destruct (callback tm); auto.
Qed.

Lemma legacy_fireAll_stays_clear due : forall s,
  (cubeRotating (animationState s) = false ->
   cubeRotating (animationState (Legacy.fireAll due s)) = false)
  /\ (modelScaling (animationState s) = false ->
      modelScaling (animationState (Legacy.fireAll due s)) = false).
Proof.
  induction due as [|tm due IH]; intros s; simpl.
  - auto.
  - destruct (IH (stateOf (Legacy.fire (callback tm) s))) as [IHc IHm].
    split; intros H; [apply IHc | apply IHm];
      destruct (callback tm); simpl; auto.
Qed.

Lemma legacy_fireAll_clears due : forall s tm,
  In tm due ->
  match callback tm with
  | StopCubeRotation =>
      cubeRotating (animationState (Legacy.fireAll due s)) = false
  | StopModelScale =>
      modelScaling (animationState (Legacy.fireAll due s)) = false
  end.
Proof.
  induction due as [|u due IH]; intros s tm Hin; simpl in Hin.
  - contradiction.
  - destruct Hin as [->|Hin].
    + destruct (legacy_fireAll_stays_clear due (stateOf (Legacy.fire (callback tm) s)))
        as [Hc Hm].
      simpl. destruct (callback tm); [apply Hc | apply Hm]; reflexivity.
    + simpl. apply IH. exact Hin.
Qed.

(** The timer a start has set, in the older generations: it clears the
    flag whatever the state of the application. *)
Lemma legacy_expiry_spec (s s1 : App) (cb : TimerCallback) :
  timers s1 = timers s ++ [mkTimer (now s + 5000) cb] ->
  now s1 = now s ->
  (forall ms, (ms < 5000)%Z ->
     In (mkTimer (now s + 5000) cb) (timers (Legacy.elapse ms s1)))
  /\ ~ In (mkTimer (now s + 5000) cb) (timers (Legacy.elapse 5000 s1))
  /\ match cb with
     | StopCubeRotation =>
         cubeRotating (animationState (Legacy.elapse 5000 s1)) = false
     | StopModelScale =>
         modelScaling (animationState (Legacy.elapse 5000 s1)) = false
     end.
Proof.
  intros Ht Hn. unfold Legacy.elapse. repeat split.
  - intros ms Hms.
    match goal with
    | |- In _ (timers (Legacy.fireAll ?due ?start)) =>
        destruct (legacy_fireAll_frame due start) as (_ & T & _); rewrite T
    end.
    simpl. apply filter_In. split.
    + rewrite Ht. apply in_or_app. right. left. reflexivity.
    + unfold isDue. simpl. rewrite Hn.
      apply negb_true_iff. apply Z.leb_gt. lia.
  - match goal with
    | |- ~ In _ (timers (Legacy.fireAll ?due ?start)) =>
        destruct (legacy_fireAll_frame due start) as (_ & T & _); rewrite T
    end.
    simpl. rewrite filter_In. intros [_ Hnot].
    unfold isDue in Hnot. simpl in Hnot. rewrite Hn in Hnot.
    apply negb_true_iff in Hnot. apply Z.leb_gt in Hnot. lia.
  - apply (legacy_fireAll_clears _ _ (mkTimer (now s + 5000) cb)).
    apply In_byFireAt. apply filter_In. split.
    + rewrite Ht. apply in_or_app. right. left. reflexivity.
    + unfold isDue. simpl. rewrite Hn. apply Z.leb_le. lia.
Qed.

(** The cube branch of [handleClick] in [main.ts.bak2], when the call to
    the engine returns or there is no engine. *)
Lemma legacy_handleClick_cube (s : App) (first : Intersection)
    (rest : list Intersection) (thrown : option JsError) :
  object first = cube s ->
  csound s = None \/ thrown = None ->
  let s1 := stateOf (Legacy.handleClick (first :: rest) thrown s) in
  returns (Legacy.handleClick (first :: rest) thrown s) = true
  /\ animationState s1
     = mkAnimationState true (modelScaling (animationState s))
  /\ timers s1 = timers s ++ [mkTimer (now s + 5000) StopCubeRotation]
  /\ now s1 = now s.
Proof.
  intros Hcube Hok.
  unfold Legacy.handleClick, tryCatch, bind, gets.
  rewrite Hcube, Nat.eqb_refl.
  unfold modify, setTimeout, tryCatch, bind, throw, ret. cbn.
  destruct (csound s) as [h|] eqn:Hc.
  - destruct Hok as [Hok | Hok]; [discriminate | subst thrown]. cbn. repeat split.
  - cbn. repeat split.
Qed.

(** C1, as the code has it.  In the newest generation a click whose
    nearest hit is the cube sets cube-rotating and adds exactly one
    timer, due 5000 ms later, and [startModelScale] does the same for
    model-scaling; the timer is still pending before that time; when it
    fires it clears the flag unless the application has been disposed,
    and then it does nothing.  In [main.ts.old] ([startCubeRotation],
    [startModelScale]) and in [main.ts.bak2] (the cube branch of
    [handleClick], when its call to the audio engine returns) the flag
    is set and the same timer added, and the timer clears the flag in
    every case: these callbacks have no guard. *)
Theorem flag_expires_unless_disposed
    (s : App) (first : Intersection) (rest : list Intersection)
    (thrown : option JsError) :
  let s1 := stateOf (handleClick (first :: rest) s) in
  let s2 := stateOf (startModelScale s) in
  let o1 := stateOf (Legacy.startCubeRotation s) in
  let o2 := stateOf (Legacy.startModelScale s) in
  let b1 := stateOf (Legacy.handleClick (first :: rest) thrown s) in
  let expiry cb := mkTimer (now s + 5000) cb in
  (object first = cube s ->
     cubeRotating (animationState s1) = true
     /\ timers s1 = timers s ++ [expiry StopCubeRotation]
     /\ (forall ms, (ms < 5000)%Z ->
           In (expiry StopCubeRotation) (timers (elapse ms s1)))
     /\ ~ In (expiry StopCubeRotation) (timers (elapse 5000 s1))
     /\ (disposed s = false ->
           cubeRotating (animationState (elapse 5000 s1)) = false)
     /\ (disposed s = true ->
           animationState (elapse 5000 s1) = animationState s1))
  /\ (modelScaling (animationState s2) = true
      /\ timers s2 = timers s ++ [expiry StopModelScale]
      /\ (forall ms, (ms < 5000)%Z ->
            In (expiry StopModelScale) (timers (elapse ms s2)))
      /\ ~ In (expiry StopModelScale) (timers (elapse 5000 s2))
      /\ (disposed s = false ->
            modelScaling (animationState (elapse 5000 s2)) = false)
      /\ (disposed s = true ->
            animationState (elapse 5000 s2) = animationState s2))
  /\ (forall cb s0,
        fire cb s0 =
        Normal tt (if disposed s0 then s0
                   else match cb with
                        | StopCubeRotation => set_cubeRotating false s0
                        | StopModelScale => set_modelScaling false s0
                        end))
  /\ (cubeRotating (animationState o1) = true
      /\ timers o1 = timers s ++ [expiry StopCubeRotation]
      /\ (forall ms, (ms < 5000)%Z ->
            In (expiry StopCubeRotation) (timers (Legacy.elapse ms o1)))
      /\ ~ In (expiry StopCubeRotation) (timers (Legacy.elapse 5000 o1))
      /\ cubeRotating (animationState (Legacy.elapse 5000 o1)) = false)
  /\ (modelScaling (animationState o2) = true
      /\ timers o2 = timers s ++ [expiry StopModelScale]
      /\ (forall ms, (ms < 5000)%Z ->
            In (expiry StopModelScale) (timers (Legacy.elapse ms o2)))
      /\ ~ In (expiry StopModelScale) (timers (Legacy.elapse 5000 o2))
      /\ modelScaling (animationState (Legacy.elapse 5000 o2)) = false)
  /\ (object first = cube s ->
      csound s = None \/ thrown = None ->
      cubeRotating (animationState b1) = true
      /\ timers b1 = timers s ++ [expiry StopCubeRotation]
      /\ (forall ms, (ms < 5000)%Z ->
            In (expiry StopCubeRotation) (timers (Legacy.elapse ms b1)))
      /\ ~ In (expiry StopCubeRotation) (timers (Legacy.elapse 5000 b1))
      /\ cubeRotating (animationState (Legacy.elapse 5000 b1)) = false)
  /\ (forall cb s0,
        Legacy.fire cb s0 =
        Normal tt (match cb with
                   | StopCubeRotation => set_cubeRotating false s0
                   | StopModelScale => set_modelScaling false s0
                   end)).
Proof.
  intros s1 s2 o1 o2 b1 expiry.
  split; [|split; [|split; [|split; [|split; [|split]]]]].
  - intros Hcube.
    destruct (handleClick_cases (first :: rest) s) as [_ Hcases].
    cbv zeta in Hcases. fold s1 in Hcases.
    rewrite Hcube, Nat.eqb_refl in Hcases.
    destruct Hcases as (Ha & Ht & Hn & Hd).
    destruct (@expiry_spec s s1 StopCubeRotation Ht Hn Hd)
      as (H1 & H2 & H3 & H4).
    split; [rewrite Ha; reflexivity|].
    split; [exact Ht|]. split; [exact H1|]. split; [exact H2|].
    split; [exact H3 | exact H4].
  - assert (Ht : timers s2 = timers s ++ [expiry StopModelScale])
      by reflexivity.
    destruct (@expiry_spec s s2 StopModelScale Ht eq_refl eq_refl)
      as (H1 & H2 & H3 & H4).
    split; [reflexivity|].
    split; [exact Ht|]. split; [exact H1|]. split; [exact H2|].
    split; [exact H3 | exact H4].
  - apply fire_spec.
  - assert (Ht : timers o1 = timers s ++ [expiry StopCubeRotation])
      by reflexivity.
    destruct (@legacy_expiry_spec s o1 StopCubeRotation Ht eq_refl)
      as (H1 & H2 & H3).
    split; [reflexivity|].
    split; [exact Ht|]. split; [exact H1|]. split; [exact H2 | exact H3].
  - assert (Ht : timers o2 = timers s ++ [expiry StopModelScale])
      by reflexivity.
    destruct (@legacy_expiry_spec s o2 StopModelScale Ht eq_refl)
      as (H1 & H2 & H3).
    split; [reflexivity|].
    split; [exact Ht|]. split; [exact H1|]. split; [exact H2 | exact H3].
  - intros Hcube Hok.
    destruct (@legacy_handleClick_cube s first rest thrown Hcube Hok)
      as (_ & Ha & Ht & Hn).
    fold b1 in Ha, Ht, Hn.
    destruct (@legacy_expiry_spec s b1 StopCubeRotation Ht Hn)
      as (H1 & H2 & H3).
    split; [rewrite Ha; reflexivity|].
    split; [exact Ht|]. split; [exact H1|]. split; [exact H2 | exact H3].
  - apply legacy_fire_spec.
Qed.

Lemma flag_expires_unless_disposed_witness :
  (cubeRotating (animationState (step built (Click [hit (cube built)]))) = true
   /\ cubeRotating
        (animationState (run built [Click [hit (cube built)]; Idle 5000]))
      = false)
  /\ (modelScaling (animationState (stateOf (startModelScale built))) = true
      /\ modelScaling
           (animationState (elapse 5000 (stateOf (startModelScale built))))
         = false)
  /\ cubeRotating
       (animationState
          (Legacy.elapse 5000
             (stateOf (Legacy.handleClick [hit (cube built)] None built))))
     = false.
Proof.
  destruct (flag_expires_unless_disposed built (hit (cube built)) [] None)
    as (Hcube & Hmodel & _ & _ & _ & Hbak & _).
  split; [|split].
  - destruct Hcube as (Hset & _ & _ & _ & Hclear & _); [reflexivity|].
    split; [exact Hset|].
    apply Hclear. reflexivity.
  - destruct Hmodel as (Hset & _ & _ & _ & Hclear & _).
    split; [exact Hset|].
    apply Hclear. reflexivity.
  - destruct Hbak as (_ & _ & _ & _ & Hclear); [reflexivity | right; reflexivity |].
    exact Hclear.
Defined.

(** C1, as it is stated, fails: the listeners outlive [dispose], so a
    disposed application still takes a click on the cube; the flag is
    set, and the timer that fires 5000 ms later leaves it set. *)
Lemma flag_stays_set_once_disposed :
  ~ cubeRotating
      (animationState
         (run disposedApp [Click [hit (cube disposedApp)]; Idle 5000]))
    = false.
Proof. vm_compute. discriminate. Qed.

(** *** Disposal *)

Lemma dispose_once s :
  disposed s = false ->
  dispose s =
  Normal tt
    (set_resourceManager (mkResourceManager [] [] [])
       (set_panels false
          (set_scene []
             (set_contextLost true
                (set_released
                   (rev (List.map TextureRes (textures (resourceManager s))
                         ++ List.map GeometryRes
                              (geometries (resourceManager s))
                         ++ flat_map disposeMaterial
                              (materials (resourceManager s))
                         ++ flat_map disposeNode (scene s))
                    ++ released s)
                   (set_csound None
                      (set_engine
                         (match csound s with
                          | Some h => (h, Stop) :: engine s
                          | None => engine s
                          end)
                         (stateOf (resetAnimations
                                     (set_disposed true s)))))))))).
Proof.
  intros D. unfold dispose, bind at 1, gets at 1. rewrite D.
  unfold tryCatch, bind, modify, gets, resetAnimations, when,
    disposeThreeJsResources, clearScene, release, cleanupUIComponents,
    bind, modify, gets.
  destruct s as [sc cp cl cu cr m ms rm d dm an cs pa ti no fr re en rp].
  simpl in *.
  rewrite !rev_app_distr, <- !app_assoc.
  destruct m, cs; reflexivity.
Qed.

Lemma dispose_again s : disposed s = true -> dispose s = Normal tt s.
Proof.
  intros D. unfold dispose, bind, gets. rewrite D. reflexivity.
Qed.

Lemma registered_released rm r sceneNodes :
  In r (registered rm) ->
  In r (List.map TextureRes (textures rm)
        ++ List.map GeometryRes (geometries rm)
        ++ flat_map disposeMaterial (materials rm)
        ++ flat_map disposeNode sceneNodes).
Proof.
  unfold registered. rewrite !in_app_iff.
  intros [H|[H|H]]; auto.
  right. right. left.
  apply in_map_iff in H. destruct H as (m & <- & Hm).
  apply in_flat_map. exists m. split; [exact Hm|].
  unfold disposeMaterial. apply in_or_app. right. left. reflexivity.
Qed.

(** C2, as the code has it: the first call of [dispose] releases every
    registered texture, geometry and material at least once (the
    texture a registered material maps is released again with that
    material, and the geometry and materials of the meshes in the scene
    once more when the scene is cleared), empties the registry and sets
    the disposed flag; any later call returns at once and releases
    nothing. *)
Theorem dispose_releases_registry (s : App) :
  disposed s = false ->
  let s' := stateOf (dispose s) in
  let rm := resourceManager s in
  returns (dispose s) = true
  /\ released s' =
     rev (List.map TextureRes (textures rm)
          ++ List.map GeometryRes (geometries rm)
          ++ flat_map disposeMaterial (materials rm)
          ++ flat_map disposeNode (scene s))
     ++ released s
  /\ (forall r, In r (registered rm) -> (1 <= releasesOf r s s')%nat)
  /\ resourceManager s' = mkResourceManager [] [] []
  /\ disposed s' = true
  /\ dispose s' = Normal tt s'.
Proof.
  intros D s' rm. subst s' rm.
  rewrite (dispose_once s D). simpl.
  assert (Hdisposed :
    disposed (stateOf (resetAnimations (set_disposed true s))) = true).
  { unfold resetAnimations, bind, modify, gets, when. simpl.
    destruct (model s); reflexivity. }
  split; [reflexivity|].
  split; [reflexivity|].
  split.
  - intros r Hr. unfold releasesOf. simpl.
    rewrite count_occ_app, count_occ_rev.
    apply (registered_released _ _ (scene s)) in Hr.
    apply (count_occ_In Resource_eq_dec) in Hr. lia.
  - split; [reflexivity|].
    split; [exact Hdisposed|].
    apply dispose_again. simpl. exact Hdisposed.
Qed.

Lemma dispose_releases_registry_witness :
  (1 <= releasesOf (GeometryRes 3) built (stateOf (dispose built)))%nat
  /\ resourceManager (stateOf (dispose built)) = mkResourceManager [] [] []
  /\ dispose (stateOf (dispose built)) = Normal tt (stateOf (dispose built)).
Proof.
  destruct (dispose_releases_registry built)
    as (_ & _ & Hall & Hempty & _ & Hagain); [reflexivity|].
  split; [|split; [exact Hempty | exact Hagain]].
  apply Hall. vm_compute. intuition.
Defined.

(** C2, as it is stated, fails: in the application the constructor
    builds, not every registered resource is released exactly once by
    [dispose]; the first texture of the cube is released twice. *)
Lemma registered_texture_released_twice :
  ~ (forall r, In r (registered (resourceManager built)) ->
               releasesOf r built (stateOf (dispose built)) = 1%nat).
Proof.
  intros H.
  specialize (H (TextureRes 7)).
  assert (Hin : In (TextureRes 7) (registered (resourceManager built))).
  { vm_compute. left. reflexivity. }
  specialize (H Hin). vm_compute in H. discriminate H.
Qed.

(** *** Loading the model *)

(** Induction on a scene graph: a property holds of every node if it
    holds of a node whenever it holds of the node's children. *)
Lemma Object3D_all (P : Object3D -> Prop) :
  (forall id kind pos children,
      Forall P children -> P (Object id kind pos children)) ->
  forall o, P o.
Proof.
  intros H.
  exact (fix all (o : Object3D) : P o :=
           match o with
           | Object id kind pos children =>
               H id kind pos children
                 ((fix each (cs : list Object3D) : Forall P cs :=
                     match cs with
                     | [] => Forall_nil P
                     | c :: rest => @Forall_cons _ P c rest (all c) (each rest)
                     end) children)
           end).
Qed.

(** The traversal that sets the meshes up returns; it counts the meshes
    and touches the identity counter and the registry only. *)
Lemma setupMeshes_spec o : forall s,
  exists o' f rm,
    setupMeshes o s =
      Normal (o', countMeshes o) (set_fresh f (set_resourceManager rm s))
    /\ uuidOf o' = uuidOf o.
Proof.
  induction o as [id kind pos children IH] using Object3D_all.
  intros s. cbn [setupMeshes countMeshes].
  assert (Hhere : exists k f rm,
    (match kind with
     | Mesh geometry _ =>
         material <- setupModelMesh geometry ;;
         ret (Mesh geometry (Single material), 1%nat)
     | _ => ret (kind, 0%nat)
     end) s =
    Normal (k, match kind with Mesh _ _ => 1%nat | _ => 0%nat end)
           (set_fresh f (set_resourceManager rm s))).
  { destruct kind as [geometry material| | | | | |].
    - exists (Mesh geometry (Single (mkMaterial (fresh s) None))),
             (S (fresh s)),
             (mkResourceManager
                (textures (resourceManager s))
                (geometries (resourceManager s) ++ [geometry])
                (materials (resourceManager s)
                   ++ [mkMaterial (fresh s) None])).
      destruct s; reflexivity.
    - exists Group, (fresh s), (resourceManager s). destruct s; reflexivity.
    - exists Light, (fresh s), (resourceManager s). destruct s; reflexivity.
    - exists GridHelper, (fresh s), (resourceManager s).
      destruct s; reflexivity.
    - exists AxesHelper, (fresh s), (resourceManager s).
      destruct s; reflexivity.
    - exists Box3Helper, (fresh s), (resourceManager s).
      destruct s; reflexivity.
    - exists LineSegments, (fresh s), (resourceManager s).
      destruct s; reflexivity. }
  destruct Hhere as (k & f & rm & Ehere).
  unfold bind at 1. rewrite Ehere.
  assert (Hbelow : forall s0, exists cs f0 rm0,
    (fix each (cs : list Object3D) : Js App (list Object3D * nat) :=
       match cs with
       | [] => ret ([], 0%nat)
       | c :: rest =>
           r <- setupMeshes c ;;
           rs <- each rest ;;
           ret (fst r :: fst rs, (snd r + snd rs)%nat)
       end) children s0 =
    Normal (cs, list_sum (List.map countMeshes children))
           (set_fresh f0 (set_resourceManager rm0 s0))).
  { clear Ehere. induction IH as [|c rest Hc _ IHrest]; intros s0.
    - exists [], (fresh s0), (resourceManager s0). destruct s0; reflexivity.
    - destruct (Hc s0) as (c' & f1 & rm1 & Ec & _).
      unfold bind at 1. rewrite Ec.
      destruct (IHrest (set_fresh f1 (set_resourceManager rm1 s0)))
        as (rest' & f2 & rm2 & Erest).
      unfold bind at 1. rewrite Erest.
      exists (c' :: rest'), f2, rm2. reflexivity. }
  destruct (Hbelow (set_fresh f (set_resourceManager rm s)))
    as (cs & f0 & rm0 & Ebelow).
  unfold bind at 1. rewrite Ebelow.
  exists (Object id k pos cs), f0, rm0. split; reflexivity.
Qed.

(** So does the traversal that adds the wireframes; it touches the
    identity counter only. *)
Lemma addWireframes_spec o : forall s,
  exists o' f,
    addWireframes o s = Normal o' (set_fresh f s)
    /\ uuidOf o' = uuidOf o /\ positionOf o' = positionOf o.
Proof.
  induction o as [id kind pos children IH] using Object3D_all.
  intros s. cbn [addWireframes].
  assert (Hline : exists line f,
    (match kind with
     | Mesh _ _ => l <- alloc ;; ret [Object l LineSegments origin []]
     | _ => ret []
     end) s = Normal line (set_fresh f s)).
  { destruct kind as [geometry material| | | | | |];
      try (exists [], (fresh s); destruct s; reflexivity).
    exists [Object (fresh s) LineSegments origin []], (S (fresh s)).
    destruct s; reflexivity. }
  destruct Hline as (line & f & Eline).
  unfold bind at 1. rewrite Eline.
  assert (Hbelow : forall s0, exists cs f0,
    (fix each (cs : list Object3D) : Js App (list Object3D) :=
       match cs with
       | [] => ret []
       | c :: rest =>
           c' <- addWireframes c ;;
           rest' <- each rest ;;
           ret (c' :: rest')
       end) children s0 = Normal cs (set_fresh f0 s0)).
  { clear Eline. induction IH as [|c rest Hc _ IHrest]; intros s0.
    - exists [], (fresh s0). destruct s0; reflexivity.
    - destruct (Hc s0) as (c' & f1 & Ec & _).
      unfold bind at 1. rewrite Ec.
      destruct (IHrest (set_fresh f1 s0)) as (rest' & f2 & Erest).
      unfold bind at 1. rewrite Erest.
      exists (c' :: rest'), f2. reflexivity. }
  destruct (Hbelow (set_fresh f s)) as (cs & f0 & Ebelow).
  unfold bind at 1. rewrite Ebelow.
  exists (Object id kind pos (cs ++ line)), f0. repeat split.
Qed.

Lemma createErrorModel_spec s :
  createErrorModel s =
  Normal tt
    (set_resourceManager
       (mkResourceManager
          (textures (resourceManager s))
          (geometries (resourceManager s) ++ [fresh s])
          (materials (resourceManager s) ++ [mkMaterial (S (fresh s)) None]))
       (set_scene
          (scene s ++
           [Object (S (S (fresh s)))
              (Mesh (fresh s) (Single (mkMaterial (S (fresh s)) None)))
              (mkVector3 (-2) 1 0) []])
          (set_fresh (S (S (S (fresh s)))) s))).
Proof. destruct s; reflexivity. Qed.

(** The debug helpers return; they add to the scene and to the model,
    and report nothing. *)
Lemma debugHelpers_spec st m :
  model st = Some m ->
  exists st' w extra,
    when (debugMode st) addModelDebugHelpers st = Normal tt st'
    /\ reported st' = reported st
    /\ scene st' = scene st ++ extra
    /\ model st' = Some w
    /\ uuidOf w = uuidOf m /\ positionOf w = positionOf m.
Proof.
  intros Hm. unfold when.
  destruct (debugMode st) eqn:Hdebug.
  - unfold addModelDebugHelpers.
    unfold bind at 1. unfold gets at 1.
    unfold bind at 1. unfold gets at 1.
    rewrite Hm, Hdebug. destruct m as [id kind pos children].
    unfold when.
    unfold bind at 1. unfold alloc at 1.
    unfold bind at 1. unfold gets at 1.
    unfold bind at 1. unfold modify at 1. unfold ret at 1.
    unfold bind at 1. unfold sceneAdd at 1. unfold modify at 1.
    unfold bind at 1. unfold alloc at 1.
    unfold bind at 1. unfold gets at 1.
    unfold bind at 1. unfold modify at 1. unfold ret at 1.
    unfold bind at 1.
    match goal with
    | |- context [addWireframes ?o ?s0] =>
        destruct (addWireframes_spec o s0) as (w & f & E & U & P);
        rewrite E
    end.
    unfold modify.
    eexists. exists w. eexists.
    split; [reflexivity|].
    split; [reflexivity|].
    split; [reflexivity|].
    split; [reflexivity|].
    split; [exact U | exact P].
  - exists st, m, []. rewrite app_nil_r. repeat split. exact Hm.
Qed.

(** C5: [loadModel] returns normally whatever the loader answers.  When
    the fetch is rejected, or the loaded object has no mesh or no
    extent, the error is reported and the placeholder of
    [createErrorModel] is the last object added to the scene, at the
    position (-2, 1, 0) where a valid model is put; the model itself is
    not in use.  When the load succeeds nothing is reported and the
    model is added there. *)
Theorem load_failure_gives_placeholder (outcome : LoadOutcome) (s : App) :
  let s' := stateOf (loadModel outcome s) in
  returns (loadModel outcome s) = true
  /\ (loadFails outcome = true ->
        (exists error, reported s' = error :: reported s)
        /\ (exists extra sphere,
              scene s' = scene s ++ extra ++ [sphere]
              /\ isErrorSphere sphere)
        /\ model s' = match outcome with
                      | Rejected _ => model s
                      | Resolved _ _ => None
                      end)
  /\ (loadFails outcome = false ->
        reported s' = reported s
        /\ exists extra m,
             scene s' = scene s ++ extra ++ [m]
             /\ model s' = Some m
             /\ positionOf m = mkVector3 (-2) 1 0
             /\ match outcome with
                | Rejected _ => False
                | Resolved gltfScene _ => uuidOf m = uuidOf gltfScene
                end).
Proof.
  intros s'. subst s'.
  destruct outcome as [error | g size].
  - (* the fetch is rejected *)
    eassert (Hc : loadModel (Rejected error) s = Normal tt _).
    { unfold loadModel.
      unfold tryCatch at 1. unfold bind at 1. unfold throw at 1.
      unfold bind at 1. unfold handleError at 1. unfold modify at 1.
      rewrite createErrorModel_spec. reflexivity. }
    rewrite Hc. simpl.
    split; [reflexivity|]. split; [|discriminate].
    intros _. split; [eexists; reflexivity|].
    split; [|reflexivity].
    exists []. eexists. split; [reflexivity|].
    eexists. eexists. eexists. reflexivity.
  - destruct (setupMeshes_spec g (set_model (Some g) s))
      as (g' & f & rm & E & U).
    unfold loadFails.
    destruct (Nat.eqb (countMeshes g) 0) eqn:Hcount.
    + (* no mesh *)
      eassert (Hc : loadModel (Resolved g size) s = Normal tt _).
      { unfold loadModel, setupLoadedModel.
        unfold tryCatch at 1. unfold bind at 1. unfold ret at 1.
        unfold bind at 1. unfold modify at 1. cbn [fst snd].
        unfold bind at 1. unfold gets at 1.
        cbn [model set_model].
        unfold tryCatch at 1. unfold bind at 1.
        rewrite E. cbn [fst snd].
        unfold bind at 1. unfold modify at 1.
        unfold bind at 1. rewrite Hcount.
        unfold throw at 1.
        unfold bind at 1. unfold handleError at 1. unfold modify at 1.
        unfold bind at 1. unfold modify at 1.
        rewrite createErrorModel_spec. reflexivity. }
      rewrite Hc. simpl.
      split; [reflexivity|]. split; [|discriminate].
      intros _. split; [eexists; reflexivity|].
      split; [|reflexivity].
      exists []. eexists. split; [reflexivity|].
      eexists. eexists. eexists. reflexivity.
    + destruct (@debugHelpers_spec
                  (set_modelScale 3
                     (set_model
                        (option_map (moveTo (mkVector3 (-2) 1 0))
                           (model (set_model (Some g')
                              (set_fresh f
                                 (set_resourceManager rm
                                    (set_model (Some g) s))))))
                        (set_model (Some g')
                           (set_fresh f
                              (set_resourceManager rm
                                 (set_model (Some g) s))))))
                  (moveTo (mkVector3 (-2) 1 0) g') eq_refl)
        as (st1 & w & extra & Ehelp & Hrep & Hscene & Hmodel & Hu & Hp).
      simpl in Hrep, Hscene.
      destruct (Qeq_bool size 0) eqn:Hsize.
      * (* no extent *)
        eassert (Hc : loadModel (Resolved g size) s = Normal tt _).
        { unfold loadModel, setupLoadedModel.
          unfold tryCatch at 1. unfold bind at 1. unfold ret at 1.
          unfold bind at 1. unfold modify at 1. cbn [fst snd].
          unfold bind at 1. unfold gets at 1.
          cbn [model set_model].
          unfold tryCatch at 1. unfold bind at 1.
          rewrite E. cbn [fst snd].
          unfold bind at 1. unfold modify at 1.
          unfold bind at 1. rewrite Hcount. unfold ret at 1.
          unfold bind at 1. unfold modify at 1.
          unfold bind at 1. unfold modify at 1.
          unfold bind at 1. unfold gets at 1.
          unfold bind at 1. rewrite Ehelp.
          unfold bind at 1. rewrite Hsize.
          unfold throw at 1.
          unfold bind at 1. unfold handleError at 1. unfold modify at 1.
          unfold bind at 1. unfold modify at 1.
          rewrite createErrorModel_spec. reflexivity. }
        rewrite Hc. simpl.
        split; [reflexivity|]. split; [|discriminate].
        intros _. rewrite Hrep, Hscene.
        split; [eexists; reflexivity|].
        split; [|reflexivity].
        exists extra. eexists. split; [symmetry; apply app_assoc|].
        eexists. eexists. eexists. reflexivity.
      * (* the model is valid *)
        eassert (Hc : loadModel (Resolved g size) s = Normal tt _).
        { unfold loadModel, setupLoadedModel.
          unfold tryCatch at 1. unfold bind at 1. unfold ret at 1.
          unfold bind at 1. unfold modify at 1. cbn [fst snd].
          unfold bind at 1. unfold gets at 1.
          cbn [model set_model].
          unfold tryCatch at 1. unfold bind at 1.
          rewrite E. cbn [fst snd].
          unfold bind at 1. unfold modify at 1.
          unfold bind at 1. rewrite Hcount. unfold ret at 1.
          unfold bind at 1. unfold modify at 1.
          unfold bind at 1. unfold modify at 1.
          unfold bind at 1. unfold gets at 1.
          unfold bind at 1. rewrite Ehelp.
          unfold bind at 1. rewrite Hsize. unfold ret at 1.
          unfold bind at 1. unfold gets at 1. rewrite Hmodel.
          unfold sceneAdd, modify. reflexivity. }
        rewrite Hc. simpl.
        split; [reflexivity|]. split; [discriminate|].
        intros _. rewrite Hrep, Hscene, Hmodel.
        split; [reflexivity|].
        exists extra, w. split; [symmetry; apply app_assoc|].
        split; [reflexivity|].
        split.
        -- rewrite Hp. destruct g'. reflexivity.
        -- rewrite Hu. destruct g'. simpl in *. exact U.
Qed.

Lemma load_failure_gives_placeholder_witness :
  returns (loadModel (Rejected "404") built) = true
  /\ (exists error,
        reported (stateOf (loadModel (Rejected "404") built))
        = error :: reported built)
  /\ (exists extra sphere,
        scene (stateOf (loadModel (Rejected "404") built))
        = scene built ++ extra ++ [sphere]
        /\ isErrorSphere sphere).
Proof.
  destruct (load_failure_gives_placeholder (Rejected "404") built)
    as (Hret & Hfail & _).
  split; [exact Hret|].
  destruct Hfail as (Hrep & Hscene & _); [reflexivity|].
  split; [exact Hrep | exact Hscene].
Defined.
End SceneFacts.

(** ** The older generations *)

Module LegacyFacts.
Import Scene3D.

(** Callbacks other than the one that stops the rotation leave the
    rotation flag as it is. *)
Lemma legacy_fireAll_keeps_rotating due : forall s,
  (forall tm, In tm due -> callback tm <> StopCubeRotation) ->
  cubeRotating (animationState (Legacy.fireAll due s))
  = cubeRotating (animationState s).
Proof.
  induction due as [|tm due IH]; intros s Hno; [reflexivity|].
  change (Legacy.fireAll (tm :: due) s)
    with (Legacy.fireAll due (stateOf (Legacy.fire (callback tm) s))).
  rewrite IH.
  - destruct (callback tm) eqn:C; [|reflexivity].
    exfalso. apply (Hno tm); [left; reflexivity | exact C].
  - intros u Hu. apply Hno. right. exact Hu.
Qed.

(** X15: in [main.ts.bak2] a cube click whose call to the audio engine
    throws leaves the cube rotating for good.  The flag is set before the
    call; the inner [catch] then reads [result], which is not in scope
    there, so that a ReferenceError reaches the outer [catch]: it is
    reported with the context 'click-handling', and [setTimeout] is never
    reached.  With no timer pending that would stop the rotation, the
    flag stays set however long the event loop is idle. *)
Theorem thrown_message_leaves_flag_set
    (s : App) (first : Intersection) (rest : list Intersection)
    (h : nat) (e : JsError) (ms : Z) :
  object first = cube s ->
  csound s = Some h ->
  let s1 := stateOf (Legacy.handleClick (first :: rest) (Some e) s) in
  returns (Legacy.handleClick (first :: rest) (Some e) s) = true
  /\ cubeRotating (animationState s1) = true
  /\ timers s1 = timers s
  /\ engine s1 = (h, InputMessage [Text "i 1 0 5 0.3 220"]) :: engine s
  /\ reported s1 = "ReferenceError: result is not defined" :: reported s
  /\ (Legacy.noStopPending s = true ->
      cubeRotating (animationState (Legacy.elapse ms s1)) = true).
Proof.
  intros Hcube Hc s1.
  assert (E : Legacy.handleClick (first :: rest) (Some e) s
              = Normal tt
                  (set_reported
                     ("ReferenceError: result is not defined" :: reported s)
                     (set_engine
                        ((h, InputMessage [Text "i 1 0 5 0.3 220"]) :: engine s)
                        (set_cubeRotating true s)))).
  { unfold Legacy.handleClick, tryCatch, bind, gets.
    rewrite Hcube, Nat.eqb_refl.
    unfold modify, setTimeout, tryCatch, bind, throw, ret, Legacy.handleError.
    cbn. rewrite Hc. reflexivity. }
  subst s1. rewrite E. cbn [returns stateOf].
  repeat split.
  intros Hno. unfold Legacy.elapse.
  rewrite legacy_fireAll_keeps_rotating; [reflexivity|].
  intros tm Htm. apply (proj1 (SceneFacts.In_byFireAt _ _)) in Htm.
  apply filter_In in Htm. destruct Htm as [Htm _].
  unfold Legacy.noStopPending in Hno. rewrite forallb_forall in Hno.
  specialize (Hno tm Htm). intros C. rewrite C in Hno. discriminate.
Qed.

Lemma thrown_message_leaves_flag_set_witness :
  cubeRotating
    (animationState
       (Legacy.elapse 60000
          (stateOf
             (Legacy.handleClick [hit (cube built)] (Some "InvalidStateError")
                (set_csound (Some 0%nat) built)))))
  = true.
Proof.
  pose proof (@thrown_message_leaves_flag_set
                (set_csound (Some 0%nat) built) (hit (cube built)) [] 0%nat
                "InvalidStateError" 60000) as H.
  assert (H1 : object (hit (cube built))
               = cube (set_csound (Some 0%nat) built)) by reflexivity.
  assert (H2 : csound (set_csound (Some 0%nat) built) = Some 0%nat)
    by reflexivity.
  specialize (H H1 H2). cbv zeta in H.
  destruct H as (_ & _ & _ & _ & _ & Hstays).
  apply Hstays. reflexivity.
Defined.
End LegacyFacts.

(** ** The audio controller between events *)

Module AudioReachFacts.
Import AudioApp AudioReach.

Lemma invariant_boot a : invariant (boot a).
Proof.
  destruct a as [c so co st im r].
  destruct c, so, co, st, im;
    (split; [|split; [reflexivity|]]);
    try (intros H; discriminate H);
    try (right; split; [reflexivity|]; split; [reflexivity|];
         eexists; split; [reflexivity|]; simpl; lia).
  - left. repeat split. exists 0%nat. reflexivity.
  - intros _. exists 0%nat. split; reflexivity.
Qed.

Lemma invariant_page s rands oks :
  invariant s -> invariant (step s (ClickPage rands oks)).
Proof.
  intros ([Hready|Hwait] & Hplayed & Hinit).
  - destruct Hready as (Hi & Hn & Hb & h & Hc).
    destruct (Hinit Hi) as (h' & Hc' & Hstart).
    rewrite Hc in Hc'. injection Hc' as <-.
    destruct s as [c i n b f l]. simpl in *. subst.
    unfold bind, modify, gets, detached, clickListener, when, playSound,
      call, bind, gets, modify. simpl.
    destruct (oks 0%nat); simpl.
    all: split; [left; repeat split; exists h; reflexivity|].
    all: simpl; rewrite Hstart, Hplayed; split; [reflexivity|].
    all: intros _; exists h; split; [reflexivity|]; rewrite Hstart;
      reflexivity.
  - destruct Hwait as (Hi & Hn & id & Hb & Hlt).
    destruct s as [c i n b f l]. simpl in *. subst.
    simpl. split; [|split].
    + right. repeat split. exists id. split; [reflexivity | exact Hlt].
    + simpl. exact Hplayed.
    + intros H. discriminate H.
Qed.

Lemma invariant_retry s id a rands oks :
  invariant s -> invariant (step s (ClickRetry id a rands oks)).
Proof.
  intros Hinv. simpl.
  destruct (attached id s) eqn:Hatt; [|exact Hinv].
  destruct Hinv as ([Hready|Hwait] & Hplayed & Hinit).
  - destruct Hready as (_ & _ & Hb & _).
    unfold attached in Hatt. rewrite Hb in Hatt. discriminate Hatt.
  - destruct Hwait as (Hi & Hn & id0 & Hb & Hlt).
    unfold attached in Hatt. rewrite Hb in Hatt. simpl in Hatt.
    rewrite orb_false_r in Hatt. apply Nat.eqb_eq in Hatt. subst id0.
    destruct s as [c i n b f l]. simpl in *. subst.
    assert (E0 : Nat.eqb id id = true) by apply Nat.eqb_refl.
    assert (E1 : Nat.eqb f id = false) by (apply Nat.eqb_neq; lia).
    assert (E2 : Nat.eqb (S f) id = false) by (apply Nat.eqb_neq; lia).
    assert (E3 : Nat.eqb f f = true) by apply Nat.eqb_refl.
    destruct a as [cr so co st im r].
    destruct cr, so, co, st, im;
      unfold bind, modify, gets, detached, retryOnclick, tryCatch, initialize,
        initializeAudio, Csound, call, playSound, setupClickHandler,
        createRetryButton, remove, bind, modify, gets, tryCatch;
      cbn -[Nat.eqb]; rewrite ?E0, ?E1, ?E2, ?E3; cbn -[Nat.eqb];
      (split; [|split; [cbn -[Nat.eqb]; rewrite ?E3; simpl; exact Hplayed|]]);
      try (intros H; discriminate H);
      try (right; split; [reflexivity|]; split; [reflexivity|];
           eexists; split; [reflexivity|]; simpl; lia).
    + left. repeat split. exists f. reflexivity.
    + intros _. exists f. split; [reflexivity|].
      simpl. rewrite E3. reflexivity.
Qed.

Lemma invariant_run a events : invariant (run a events).
Proof.
  unfold run.
  assert (G : forall s, invariant s -> invariant (fold_left step events s)).
  { induction events as [|e events IH]; intros s Hs; simpl.
    - exact Hs.
    - apply IH. destruct e as [rands oks | id a' rands oks].
      + apply invariant_page, Hs.
      + apply invariant_retry, Hs. }
  apply G, invariant_boot.
Qed.

(** *** Runs that do not overlap

    When every run of [initialize] has settled before the next click,
    going from [await] to [await] comes to the same as running each
    handler to its end. *)

Lemma settles_run (caller : option nat) (a : Attempt) (s : State) :
  AudioAsync.run
    (AudioAsync.mkWorld s [AudioAsync.mkTask AudioAsync.AwaitCsound caller])
    (AudioAsync.settles a)
  = AudioAsync.mkWorld
      (stateOf ((initialize a ;; AudioAsync.continue caller) s)) [].
Proof.
  destruct s as [c i n b f l]. destruct a as [cr so co st im r].
  destruct cr, so, co, st, im; reflexivity.
Qed.

Lemma settles_idle (a : Attempt) (s : State) :
  AudioAsync.run (AudioAsync.mkWorld s []) (AudioAsync.settles a)
  = AudioAsync.mkWorld s [].
Proof. reflexivity. Qed.

Lemma dispatchClick_returns rands oks n : forall i s,
  dispatchClick n i rands oks s
  = Normal tt (stateOf (dispatchClick n i rands oks s)).
Proof.
  induction n as [|n IH]; intros i s; [reflexivity|].
  cbn [dispatchClick]. unfold bind, detached. apply IH.
Qed.

Lemma sequential_boot (a : Attempt) :
  AudioAsync.run AudioAsync.boot (AudioAsync.settles a)
  = AudioAsync.mkWorld (boot a) [].
Proof.
  unfold AudioAsync.boot. rewrite settles_run. f_equal.
  unfold boot, bind. cbn [AudioAsync.continue].
  pose proof (AudioFacts.initialize_returns a initial) as R.
  destruct (initialize a initial) as [[] s'|e s']; [reflexivity | discriminate R].
Qed.

Lemma sequential_step (s : State) (e : UserEvent) :
  AudioAsync.run (AudioAsync.mkWorld s []) (AudioAsync.expand e)
  = AudioAsync.mkWorld (step s e) [].
Proof.
  destruct e as [rands oks | id a rands oks]; [reflexivity|].
  cbn [AudioAsync.expand].
  change (AudioAsync.run (AudioAsync.mkWorld s [])
            (AudioAsync.ClickRetry id rands oks :: AudioAsync.settles a))
    with (AudioAsync.run
            (AudioAsync.step (AudioAsync.mkWorld s [])
                             (AudioAsync.ClickRetry id rands oks))
            (AudioAsync.settles a)).
  cbn [AudioAsync.step AudioAsync.state AudioAsync.pending step].
  destruct (attached id s); [|apply settles_idle].
  cbn [app]. rewrite settles_run. f_equal. cbn [AudioAsync.continue].
  set (s0 := observe (Clicked (RetryButton id)) s).
  change ((modify (observe (Clicked (RetryButton id))) ;;
           n <- gets clickHandlers ;; dispatchClick n 0 rands oks) s)
    with (dispatchClick (clickHandlers s0) 0 rands oks s0).
  change ((modify (observe (Clicked (RetryButton id))) ;;
           n <- gets clickHandlers ;;
           dispatchClick n 0 rands oks ;; detached (retryOnclick id a)) s)
    with (bind (dispatchClick (clickHandlers s0) 0 rands oks)
               (fun _ => detached (retryOnclick id a)) s0).
  pose proof (dispatchClick_returns rands oks (clickHandlers s0) 0 s0) as R.
  unfold bind at 2.
  destruct (dispatchClick (clickHandlers s0) 0 rands oks s0) as [[] s1|e s1];
    [|discriminate R].
  cbn [stateOf]. unfold detached.
  rewrite AudioFacts.retryOnclick_removes. reflexivity.
Qed.

Lemma sequential_events (events : list UserEvent) : forall s,
  AudioAsync.run (AudioAsync.mkWorld s []) (flat_map AudioAsync.expand events)
  = AudioAsync.mkWorld (fold_left step events s) [].
Proof.
  induction events as [|e rest IH]; intros s; [reflexivity|].
  cbn [flat_map]. unfold AudioAsync.run. rewrite fold_left_app.
  fold (AudioAsync.run (AudioAsync.mkWorld s []) (AudioAsync.expand e)).
  rewrite sequential_step. apply IH.
Qed.

Lemma sequential_run (a : Attempt) (events : list UserEvent) :
  AudioAsync.run AudioAsync.boot (AudioAsync.sequential a events)
  = AudioAsync.mkWorld (run a events) [].
Proof.
  unfold AudioAsync.sequential, AudioAsync.run. rewrite fold_left_app.
  fold (AudioAsync.run AudioAsync.boot (AudioAsync.settles a)).
  rewrite sequential_boot. apply sequential_events.
Qed.

(** X1: take a schedule of [main.basic.csound.ts] in which every run of
    [initialize] has settled before the next click (no click while the
    constructor's run or a retry is waiting for the engine).  Then
    nothing is waiting at its end, it comes to the same as running each
    handler to its end, and the controller is in one of two shapes:
    initialised, with exactly one click listener and no retry button, or
    not initialised, with no click listener and exactly one retry button
    carrying the first label.  So a click on the page then sends exactly
    one score message in the first shape and none in the second. *)
Theorem one_listener_or_one_button (a : Attempt) (events : list UserEvent) :
  let w := AudioAsync.run AudioAsync.boot (AudioAsync.sequential a events) in
  let s := AudioAsync.state w in
  AudioAsync.pending w = []
  /\ s = run a events
  /\ settled s
  /\ forall rands oks,
       exists new,
         log (step s (ClickPage rands oks)) = new ++ Clicked Page :: log s
         /\ (ready s ->
             exists h,
               csound s = Some h
               /\ new = [Engine h (InputMessage
                           [Text "i 1 0 2 0.5 ";
                            Num (220 + rands 0%nat * 660)])])
         /\ (waiting s -> new = []).
Proof.
  intros w s. subst s w. rewrite sequential_run.
  cbn [AudioAsync.state AudioAsync.pending].
  split; [reflexivity|]. split; [reflexivity|].
  set (s := run a events).
  destruct (invariant_run a events) as (Hsettled & _ & _).
  fold s in Hsettled. split; [exact Hsettled|].
  intros rands oks.
  destruct Hsettled as [Hready|Hwait].
  - destruct Hready as (Hi & Hn & Hb & h & Hc).
    exists [Engine h (InputMessage [Text "i 1 0 2 0.5 ";
                                    Num (220 + rands 0%nat * 660)])].
    split; [|split].
    + destruct s as [c i n b f l]. simpl in *. subst.
      unfold bind, modify, gets, detached, clickListener, when, playSound,
        call, bind, gets, modify. simpl.
      destruct (oks 0%nat); reflexivity.
    + intros _. exists h. split; [exact Hc | reflexivity].
    + intros (Hi' & _). congruence.
  - destruct Hwait as (Hi & Hn & id & Hb & Hlt).
    exists []. split; [|split].
    + destruct s as [c i n b f l]. simpl in *. subst. reflexivity.
    + intros (Hi' & _). congruence.
    + intros _. reflexivity.
Qed.

Lemma startedThenPlayed_inside newer : forall h m older,
  startedThenPlayed (newer ++ Engine h (InputMessage m) :: older) = true ->
  existsb (isStartOf h) older = true.
Proof.
  induction newer as [|o newer IH]; intros h m older H; simpl in H.
  - apply andb_true_iff in H. apply H.
  - apply andb_true_iff in H. destruct H as [_ H]. apply (IH _ _ _ H).
Qed.

Lemma isStartOf_In h l :
  existsb (isStartOf h) l = true -> In (Engine h Start) l.
Proof.
  intros H. apply existsb_exists in H. destruct H as (o & Hin & Ho).
  destruct o as [t|e|e c|msg err]; try discriminate Ho.
  destruct c; try discriminate Ho.
  simpl in Ho. apply Nat.eqb_eq in Ho. subst e. exact Hin.
Qed.

(** X2: in a schedule of [main.basic.csound.ts] in which every run of
    [initialize] has settled before the next click, a score message only
    ever goes to an engine on which [start] has been called before. *)
Theorem messages_only_to_started_engines
    (a : Attempt) (events : list UserEvent) :
  startBeforeEveryMessage
    (trace (AudioAsync.state
              (AudioAsync.run AudioAsync.boot
                 (AudioAsync.sequential a events)))).
Proof.
  rewrite sequential_run. cbn [AudioAsync.state].
  destruct (invariant_run a events) as (_ & Hplayed & _).
  intros before h m after Htrace.
  unfold trace in Htrace.
  assert (Hlog : log (run a events)
                 = rev after ++ Engine h (InputMessage m) :: rev before).
  { rewrite <- (rev_involutive (log (run a events))), Htrace.
    rewrite rev_app_distr. simpl. rewrite <- app_assoc. reflexivity. }
  rewrite Hlog in Hplayed.
  apply startedThenPlayed_inside in Hplayed.
  apply isStartOf_In in Hplayed. apply in_rev. exact Hplayed.
Qed.

(** X3: [dispose] of [AudioApp] returns normally; it stops the engine if
    there is one, exactly once, and forgets the handle; a second call does
    nothing; and from then on a click on the page reaches no engine,
    however many listeners there are. *)
Theorem dispose_stops_and_silences
    (s : State) (rands : nat -> Q) (oks : nat -> bool) :
  let s1 := stateOf (dispose s) in
  returns (dispose s) = true
  /\ csound s1 = None
  /\ log s1 = match csound s with
              | Some h => Engine h Stop :: log s
              | None => log s
              end
  /\ dispose s1 = Normal tt s1
  /\ step s1 (ClickPage rands oks) = observe (Clicked Page) s1.
Proof.
  intros s1.
  assert (Hnull : csound s1 = None).
  { subst s1. unfold dispose, bind, gets, modify.
    destruct s as [c i n b f l]. destruct c; reflexivity. }
  split; [|split; [exact Hnull|split; [|split]]].
  - unfold dispose, bind, gets, modify. destruct (csound s); reflexivity.
  - subst s1. unfold dispose, bind, gets, modify.
    destruct s as [c i n b f l]. destruct c; reflexivity.
  - unfold dispose, bind, gets. rewrite Hnull. reflexivity.
  - simpl. unfold bind at 1. unfold modify at 1.
    unfold bind, gets.
    rewrite AudioFacts.dispatchClick_silent; [reflexivity | exact Hnull].
Qed.
End AudioReachFacts.

(** ** Keys *)

Module KeyFacts.
Import Scene3D.

Lemma not_movement_key key :
  ~ In key Old.movementKeys ->
  String.eqb key "w" = false /\ String.eqb key "s" = false
  /\ String.eqb key "a" = false /\ String.eqb key "d" = false
  /\ String.eqb key "q" = false /\ String.eqb key "e" = false.
Proof.
  intros H. unfold Old.movementKeys in H. simpl in H.
  repeat split; apply String.eqb_neq; intros ->; apply H; auto 10.
Qed.

(** X4: the keyboard listener of [main.ts.old] and [handleKeyDown] of the
    later controller agree on the lower-case keys w, s, a, d, q, e: both
    return normally, move the camera to the same place and change nothing
    else.  They differ on every key that only becomes one of these in lower
    case (W with shift or caps lock, say): the old listener compares the
    key as it comes and leaves the state as it is, the later one moves the
    camera. *)
Theorem old_keys_are_case_sensitive (s : App) (key : string) :
  (In key Old.movementKeys ->
     let old := stateOf (Old.keydown key s) in
     let new := stateOf (handleKeyDown key s) in
     returns (Old.keydown key s) = true
     /\ returns (handleKeyDown key s) = true
     /\ Old.samePlace (cameraPosition old) (cameraPosition new)
     /\ onlyCameraMoved s old
     /\ onlyCameraMoved s new)
  /\ (~ In key Old.movementKeys -> Old.keydown key s = Normal tt s)
  /\ (~ In key Old.movementKeys ->
      In (toLowerCase key) Old.movementKeys ->
      ~ Old.samePlace (cameraPosition (stateOf (handleKeyDown key s)))
                      (cameraPosition (stateOf (Old.keydown key s)))).
Proof.
  split; [|split].
  - intros [<-|[<-|[<-|[<-|[<-|[<-|[]]]]]]]; simpl;
      (split; [reflexivity|]); (split; [reflexivity|]);
      (split; [unfold Old.samePlace; simpl; repeat split; ring|]);
      split; reflexivity.
  - intros H. destruct (not_movement_key H) as (A & B & C & D & E & F).
    unfold Old.keydown. rewrite A, B, C, D, E, F. reflexivity.
  - intros H Hlower.
    destruct (not_movement_key H) as (A & B & C & D & E & F).
    unfold Old.keydown. rewrite A, B, C, D, E, F.
    unfold handleKeyDown.
    destruct Hlower as [<-|[<-|[<-|[<-|[<-|[<-|[]]]]]]]; simpl;
      unfold Old.samePlace; simpl; intros (Hx & Hy & Hz);
      [ revert Hz | revert Hz | revert Hx | revert Hx | revert Hy | revert Hy ];
      clear; intros Hq; unfold Qeq in Hq; simpl in Hq; lia.
Qed.

Lemma old_keys_are_case_sensitive_witness :
  Old.keydown "W" built = Normal tt built
  /\ ~ Old.samePlace (cameraPosition (stateOf (handleKeyDown "W" built)))
                     (cameraPosition (stateOf (Old.keydown "W" built))).
Proof.
  destruct (old_keys_are_case_sensitive built "W") as (_ & Hsame & Hdiff).
  assert (Hno : ~ In "W" Old.movementKeys).
  { simpl. intros [H|[H|[H|[H|[H|[H|[]]]]]]]; discriminate H. }
  split; [apply Hsame, Hno|].
  apply Hdiff; [exact Hno|]. left. reflexivity.
Defined.
End KeyFacts.

(** ** More on keys, clicks and timers of the 3D controller *)

Module SceneMoreFacts.
Import Scene3D.

Lemma resetAnimations_spec s :
  resetAnimations s =
  Normal tt
    (set_cubeRotation origin
       ((if match model s with Some _ => true | None => false end
         then set_modelScale 3 else fun s0 => s0)
          (set_modelScaling false (set_cubeRotating false s)))).
Proof.
  unfold resetAnimations, bind, modify, gets, when. simpl.
  destruct (model s); reflexivity.
Qed.

(** X5: Escape (in any case of letters) clears both animation flags, puts
    the cube back to rotation (0, 0, 0) and, when a model is loaded, its
    scale back to 3; it leaves the camera where it is and the pending
    timers in the queue.  A key that is neither Escape nor one of w, s, a,
    d, q, e changes nothing but adds the zero vector to the camera
    position. *)
Theorem escape_resets_other_keys_do_nothing (s : App) (key : string) :
  let k := toLowerCase key in
  let s' := stateOf (handleKeyDown key s) in
  returns (handleKeyDown key s) = true
  /\ (k = "escape" ->
        animationState s' = mkAnimationState false false
        /\ cubeRotation s' = origin
        /\ modelScale s' = match model s with
                           | Some _ => 3
                           | None => modelScale s
                           end
        /\ timers s' = timers s
        /\ Old.samePlace (cameraPosition s') (cameraPosition s)
        /\ scene s' = scene s /\ resourceManager s' = resourceManager s
        /\ disposed s' = disposed s)
  /\ (~ In k ("escape" :: Old.movementKeys) ->
        s' = set_cameraPosition (add (cameraPosition s) origin) s
        /\ Old.samePlace (cameraPosition s') (cameraPosition s)).
Proof.
  intros k s'. subst k s'.
  split; [|split].
  - unfold handleKeyDown, tryCatch, bind.
    repeat match goal with
           | |- context [if ?c then _ else _] => destruct c; simpl
           end; try reflexivity.
    rewrite resetAnimations_spec. reflexivity.
  - intros Hk. unfold handleKeyDown. rewrite Hk. simpl.
    unfold tryCatch, bind. rewrite resetAnimations_spec. simpl.
    unfold Old.samePlace. simpl.
    destruct (model s); simpl; repeat split; ring.
  - intros Hk.
    assert (Hesc : String.eqb (toLowerCase key) "escape" = false).
    { apply String.eqb_neq. intros E. apply Hk. left. symmetry. exact E. }
    assert (Hmove : ~ In (toLowerCase key) Old.movementKeys).
    { intros E. apply Hk. right. exact E. }
    destruct (KeyFacts.not_movement_key Hmove) as (A & B & C & D & E & F).
    unfold handleKeyDown. rewrite A, B, C, D, E, F, Hesc. simpl.
    split; [reflexivity|].
    unfold Old.samePlace. simpl. repeat split; ring.
Qed.

Lemma escape_resets_other_keys_do_nothing_witness :
  animationState (stateOf (handleKeyDown "Escape" built))
  = mkAnimationState false false
  /\ stateOf (handleKeyDown "x" built)
     = set_cameraPosition (add (cameraPosition built) origin) built.
Proof.
  destruct (escape_resets_other_keys_do_nothing built "Escape")
    as (_ & Hesc & _).
  destruct (escape_resets_other_keys_do_nothing built "x")
    as (_ & _ & Hother).
  split.
  - apply Hesc. reflexivity.
  - apply Hother.
    simpl. intros [H|[H|[H|[H|[H|[H|[H|[]]]]]]]]; discriminate H.
Defined.

(** *** Idle time, in general *)

Lemma elapse_frame ms s :
  disposed (elapse ms s) = disposed s
  /\ now (elapse ms s) = (now s + ms)%Z
  /\ timers (elapse ms s)
     = filter (fun tm => negb (isDue (now s + ms) tm)) (timers s).
Proof.
  unfold elapse.
  match goal with
  | |- context [fold_left _ ?due ?start] =>
      destruct (SceneFacts.fireAll_frame due start) as (D & T & N);
      unfold fireAll in D, T, N; rewrite D, T, N
  end.
  repeat split.
Qed.

(** A timer that is due fires: its flag is clear afterwards, if the
    application is not disposed. *)
Lemma elapse_clears ms s tm :
  disposed s = false ->
  In tm (timers s) ->
  (fireAt tm <= now s + ms)%Z ->
  match callback tm with
  | StopCubeRotation => cubeRotating (animationState (elapse ms s)) = false
  | StopModelScale => modelScaling (animationState (elapse ms s)) = false
  end.
Proof.
  intros D Hin Hdue. unfold elapse.
  match goal with
  | |- context [fold_left _ ?due ?start] =>
      pose proof (@SceneFacts.fireAll_clears due start tm) as C
  end.
  unfold fireAll in C. apply C.
  - exact D.
  - apply SceneFacts.In_byFireAt. apply filter_In. split; [exact Hin|].
    unfold isDue. apply Z.leb_le. exact Hdue.
Qed.

(** A timer that is not due stays in the queue. *)
Lemma elapse_keeps ms s tm :
  In tm (timers s) ->
  (now s + ms < fireAt tm)%Z ->
  In tm (timers (elapse ms s)).
Proof.
  intros Hin Hlater.
  destruct (elapse_frame ms s) as (_ & _ & ->).
  apply filter_In. split; [exact Hin|].
  unfold isDue. apply negb_true_iff. apply Z.leb_gt. exact Hlater.
Qed.

Lemma none_due t (l : list Timer) :
  (forall tm, In tm l -> (t < fireAt tm)%Z) ->
  filter (isDue t) l = []
  /\ filter (fun tm => negb (isDue t tm)) l = l.
Proof.
  induction l as [|tm l IH]; intros H; [split; reflexivity|].
  assert (Htm : isDue t tm = false).
  { unfold isDue. apply Z.leb_gt. apply H. left. reflexivity. }
  destruct IH as [IH1 IH2]; [intros u Hu; apply H; right; exact Hu|].
  simpl. rewrite Htm. simpl. split; [exact IH1 | f_equal; exact IH2].
Qed.

(** While no timer is due, idle time changes the clock only. *)
Lemma elapse_nothing_due ms s :
  (forall tm, In tm (timers s) -> (now s + ms < fireAt tm)%Z) ->
  elapse ms s = set_now (now s + ms) s.
Proof.
  intros H. unfold elapse.
  destruct (@none_due (now s + ms)%Z (timers s) H) as [Hdue Hpending].
  rewrite Hdue, Hpending. simpl. destruct s; reflexivity.
Qed.

(** Timer callbacks touch the animation flags and nothing else. *)
Lemma fireAll_only_flags due : forall s,
  fireAll due s = set_animationState (animationState (fireAll due s)) s.
Proof.
  induction due as [|tm due IH]; intros s.
  - destruct s; reflexivity.
  - change (fireAll (tm :: due) s)
      with (fireAll due (stateOf (fire (callback tm) s))).
    rewrite IH at 1. rewrite SceneFacts.fire_spec. simpl.
    destruct (disposed s), (callback tm); destruct s; reflexivity.
Qed.

Lemma elapse_only_flags ms s :
  elapse ms s =
  set_animationState (animationState (elapse ms s))
    (set_now (now s + ms)
       (set_timers
          (filter (fun tm => negb (isDue (now s + ms) tm)) (timers s)) s)).
Proof.
  unfold elapse.
  match goal with
  | |- fold_left ?f ?due ?start = _ =>
      change (fold_left f due start) with (fireAll due start);
      apply fireAll_only_flags
  end.
Qed.

Lemma handleClick_keeps intersects s :
  let s' := stateOf (handleClick intersects s) in
  cube s' = cube s /\ model s' = model s /\ cameraPosition s' = cameraPosition s
  /\ scene s' = scene s /\ resourceManager s' = resourceManager s.
Proof.
  destruct intersects as [|first rest]; simpl.
  - repeat split.
  - unfold handleClick, tryCatch, bind, gets.
    destruct (Nat.eqb (object first) (cube s)).
    + unfold startCubeRotation, playCsoundEvent, tryCatch, bind, gets, modify,
        setTimeout.
      simpl. destruct (csound s); simpl; repeat split.
    + destruct (isModel (object first) (model s)); simpl; repeat split.
Qed.

(** X6: a second click on the cube does not prolong the rotation.  When
    the cube is clicked, and clicked again [d] milliseconds later with
    0 <= d < 5000, the timer of the first click still fires 5000 ms after
    the first click and clears the flag (the application not being
    disposed), 5000 - d ms after the second click; the timer of the second
    click is then still in the queue when d > 0. *)
Theorem second_click_does_not_prolong
    (s : App) (first second : Intersection) (d : Z) :
  disposed s = false ->
  object first = cube s ->
  object second = cube s ->
  (0 <= d < 5000)%Z ->
  let afterSecond := run s [Click [first]; Idle d; Click [second]] in
  let atFiveSeconds := step afterSecond (Idle (5000 - d)) in
  cubeRotating (animationState afterSecond) = true
  /\ cubeRotating (animationState atFiveSeconds) = false
  /\ now atFiveSeconds = (now s + 5000)%Z
  /\ ((0 < d)%Z ->
      In (mkTimer (now s + d + 5000) StopCubeRotation) (timers atFiveSeconds)).
Proof.
  intros D H1 H2 Hd afterSecond atFive.
  unfold run in afterSecond. simpl in afterSecond.
  set (s1 := stateOf (handleClick [first] s)) in *.
  set (s2 := elapse d s1) in *.
  destruct (SceneFacts.handleClick_cases [first] s) as [_ C1].
  cbv zeta in C1. fold s1 in C1. rewrite H1, Nat.eqb_refl in C1.
  destruct C1 as (A1 & T1 & N1 & D1).
  destruct (elapse_frame d s1) as (D2 & N2 & T2). fold s2 in D2, N2, T2.
  assert (Hcube2 : cube s2 = cube s).
  { unfold s2. rewrite elapse_only_flags. simpl.
    apply (handleClick_keeps [first] s). }
  destruct (SceneFacts.handleClick_cases [second] s2) as [_ C3].
  cbv zeta in C3. fold afterSecond in C3.
  rewrite H2, <- Hcube2, Nat.eqb_refl in C3.
  destruct C3 as (A3 & T3 & N3 & D3).
  assert (Hfirst : In (mkTimer (now s + 5000) StopCubeRotation) (timers s2)).
  { apply elapse_keeps.
    - rewrite T1. apply in_or_app. right. left. reflexivity.
    - simpl. rewrite N1. lia. }
  split; [rewrite A3; reflexivity|].
  split; [|split].
  - apply (@elapse_clears (5000 - d) afterSecond
             (mkTimer (now s + 5000) StopCubeRotation)).
    + congruence.
    + rewrite T3. apply in_or_app. left. exact Hfirst.
    + cbn [fireAt]. rewrite N3, N2, N1. lia.
  - unfold atFive. cbn [step].
    destruct (elapse_frame (5000 - d) afterSecond) as (_ & N4 & _).
    rewrite N4, N3, N2, N1. lia.
  - intros Hpos. unfold atFive. cbn [step]. apply elapse_keeps.
    + rewrite T3. apply in_or_app. right. left. rewrite N2, N1.
      reflexivity.
    + cbn [fireAt]. rewrite N3, N2, N1. lia.
Qed.

Lemma second_click_does_not_prolong_witness :
  cubeRotating
    (animationState
       (run built [Click [hit (cube built)]; Idle 3000;
                   Click [hit (cube built)]]))
  = true
  /\ cubeRotating
       (animationState
          (step (run built [Click [hit (cube built)]; Idle 3000;
                            Click [hit (cube built)]])
                (Idle (5000 - 3000))))
     = false.
Proof.
  destruct (@second_click_does_not_prolong built (hit (cube built))
              (hit (cube built)) 3000)
    as (Hset & Hclear & _); try reflexivity.
  - split; [discriminate | reflexivity].
  - split; [exact Hset | exact Hclear].
Defined.
End SceneMoreFacts.


(** ** The performance monitor *)

Module OptimizerFacts.
Import PerformanceOptimizer.

Lemma frame_on_pace (prev t : Q) (o : Optimizer) :
  onPace prev o -> t - prev <= 1000 / 45 ->
  onPace t (frame o t) /\ optimizations (frame o t) = optimizations o.
Proof.
  unfold onPace, frame, monitor, geb, ltb, measurementPeriod, fpsThreshold.
  intros Hinv Hgap.
  assert (G : 1000 / 45 == 200 # 9) by reflexivity.
  rewrite G in Hinv, Hgap. rewrite G.
  cbn [frameCount lastOptimizationTime isOptimizing optimizations].
  destruct (Qle_bool 1000 (t - lastOptimizationTime o)) eqn:Hperiod.
  - apply Qle_bool_iff in Hperiod.
    assert (Hfps : Qle_bool 45 ((frameCount o + 1) * (1000 / (t - lastOptimizationTime o))) = true).
    { apply Qle_bool_iff.
      setoid_replace ((frameCount o + 1) * (1000 / (t - lastOptimizationTime o)))
        with (((frameCount o + 1) * 1000) / (t - lastOptimizationTime o))
        by (unfold Qdiv; ring).
      apply Qle_shift_div_l; lra. }
    rewrite Hfps. cbn. split; [lra | reflexivity].
  - cbn. split; [lra | reflexivity].
Qed.

Lemma run_on_pace (times : list Q) : forall (prev : Q) (o : Optimizer),
  onPace prev o -> paced (1000 / 45) prev times ->
  optimizations (run o times) = optimizations o.
Proof.
  induction times as [|t rest IH]; intros prev o Hinv Hp; [reflexivity|].
  destruct Hp as [Hgap Hrest].
  destruct (frame_on_pace Hinv Hgap) as [Hinv' Hsame].
  cbn [run fold_left]. fold (run (frame o t) rest).
  rewrite (IH t (frame o t) Hinv' Hrest). exact Hsame.
Qed.

(** X7: the optimizer of [main.ts.bak2] measures the frame rate over
    periods of at least one second.  From a fresh optimizer (or right
    after a measurement), as long as every frame comes at most 1000/45 ms
    after the one before, no optimization is ever started, however many
    frames are drawn; and a first frame that comes a second or more late
    starts one, if none is running. *)
Theorem steady_frames_never_optimize (o : Optimizer) :
  frameCount o == 0 ->
  (forall times,
      paced (1000 / 45) (lastOptimizationTime o) times ->
      optimizations (run o times) = optimizations o)
  /\ (forall t,
      isOptimizing o = false ->
      1000 <= t - lastOptimizationTime o ->
      optimizations (frame o t) = S (optimizations o)
      /\ isOptimizing (frame o t) = false
      /\ frameCount (frame o t) = 0
      /\ lastOptimizationTime (frame o t) = t).
Proof.
  intros Hzero. split.
  - intros times Hp. apply run_on_pace with (prev := lastOptimizationTime o).
    + unfold onPace. rewrite Hzero. setoid_replace (1000 / 45) with (200 # 9) by reflexivity. lra.
    + exact Hp.
  - intros t Hidle Hlate.
    unfold frame, monitor, geb, ltb, measurementPeriod, fpsThreshold.
    cbn [frameCount lastOptimizationTime isOptimizing optimizations].
    assert (Hperiod : Qle_bool 1000 (t - lastOptimizationTime o) = true)
      by (apply Qle_bool_iff; exact Hlate).
    rewrite Hperiod.
    assert (Hfps : Qle_bool 45 ((frameCount o + 1) * (1000 / (t - lastOptimizationTime o))) = false).
    { destruct (Qle_bool 45 _) eqn:E; [|reflexivity].
      apply Qle_bool_iff in E. exfalso.
      assert (Hle : (frameCount o + 1) * (1000 / (t - lastOptimizationTime o)) <= 1).
      { setoid_replace ((frameCount o + 1) * (1000 / (t - lastOptimizationTime o)))
          with (1000 / (t - lastOptimizationTime o))
          by (rewrite Hzero; unfold Qdiv; ring).
        apply Qle_shift_div_r; lra. }
      lra. }
    rewrite Hfps, Hidle. cbn. repeat split.
Qed.

Lemma steady_frames_never_optimize_witness :
  optimizations (run (mkOptimizer 0 0 false 0) [16; 32; 48; 64]) = 0%nat
  /\ optimizations (frame (mkOptimizer 0 0 false 0) 1200) = 1%nat.
Proof.
  destruct (@steady_frames_never_optimize (mkOptimizer 0 0 false 0))
    as [Hsteady Hlate]; [reflexivity|].
  split.
  - apply (Hsteady [16; 32; 48; 64]).
    cbn [paced lastOptimizationTime].
    setoid_replace (1000 / 45) with (200 # 9) by reflexivity.
    repeat split; lra.
  - apply (Hlate 1200); [reflexivity | cbn; lra].
Defined.
End OptimizerFacts.


(** ** The error handler *)

Module ErrorHandlerFacts.
Import ErrorHandler.

(** *** Classification *)

Lemma includes_eq (s key : string) :
  includes s key
  = String.prefix key s
    || match s with
       | EmptyString => false
       | String _ rest => includes rest key
       end.
Proof. destruct s; reflexivity. Qed.

Lemma prefix_app_l (a : string) : forall b s,
  String.prefix (String.append a b) s = true -> String.prefix a s = true.
Proof.
  induction a as [|c a IH]; intros b s H; [destruct s; reflexivity|].
  destruct s as [|c' s]; simpl in *; [discriminate|].
  destruct (Ascii.ascii_dec c c'); [eauto | discriminate].
Qed.

Lemma prefix_includes_r (a : string) : forall b s,
  String.prefix (String.append a b) s = true -> includes s b = true.
Proof.
  induction a as [|c a IH]; intros b s H.
  - simpl in H. rewrite includes_eq, H. reflexivity.
  - destruct s as [|c' s]; simpl in H; [discriminate|].
    destruct (Ascii.ascii_dec c c'); [|discriminate].
    rewrite includes_eq. apply orb_true_iff. right. eapply IH; eauto.
Qed.

Lemma includes_app_l (a b : string) : forall s,
  includes s (String.append a b) = true -> includes s a = true.
Proof.
  induction s as [|c s IH]; intros H; rewrite includes_eq in H;
    rewrite includes_eq; apply orb_true_iff in H; apply orb_true_iff;
    destruct H as [H|H].
  - left. eapply prefix_app_l; eauto.
  - discriminate.
  - left. eapply prefix_app_l; eauto.
  - right. auto.
Qed.

Lemma includes_app_r (a b : string) : forall s,
  includes s (String.append a b) = true -> includes s b = true.
Proof.
  induction s as [|c s IH]; intros H; rewrite includes_eq in H;
    apply orb_true_iff in H; destruct H as [H|H].
  - eapply prefix_includes_r; eauto.
  - discriminate.
  - eapply prefix_includes_r; eauto.
  - rewrite includes_eq. apply orb_true_iff. right. auto.
Qed.

Lemma handleError_console (s : Handler) (ts : string) (error : Thrown)
    (ctx : option string) :
  console (handleError ts error ctx s)
  = (if String.eqb (severity (formatError ts error ctx)) "critical"
     then [Reporting (formatError ts error ctx)] else [])
    ++ ErrorDetails (formatError ts error ctx)
    :: ApplicationError (formatError ts error ctx) :: console s.
Proof.
  unfold handleError.
  destruct (String.eqb (severity (formatError ts error ctx)) "critical");
    reflexivity.
Qed.

(** X8: whenever the toast of [main.ts.bak2] tells the user that the
    display failed or that memory is low, the error is classified as
    critical and reported to the tracking service: the keys
    ['WebGL context lost'] and ['Out of memory'] of the message table
    contain the words ['WebGL'] and ['memory'] that [isCriticalError]
    looks for. *)
Theorem specific_message_is_reported (s : Handler) (ts : string)
    (error : Thrown) (ctx : option string) :
  let info := formatError ts error ctx in
  userMessage info = displayMessage \/ userMessage info = memoryMessage ->
  severity info = "critical"
  /\ console (handleError ts error ctx s)
     = Reporting info :: ErrorDetails info :: ApplicationError info
       :: console s.
Proof.
  intros info H.
  assert (Hsev : severity info = "critical").
  { subst info. destruct error as [m st|text].
    - assert (Hcrit : isCriticalError (ErrorObject m st) = true).
      { assert (Hm : getUserFriendlyMessage m = displayMessage
                     \/ getUserFriendlyMessage m = memoryMessage).
        { unfold formatError in H.
          destruct (isCriticalError (ErrorObject m st)); exact H. }
        unfold getUserFriendlyMessage, errorMessages in Hm.
        cbn [find fst snd] in Hm. cbn [isCriticalError].
        destruct (includes m "WebGL context lost") eqn:E1.
        { change "WebGL context lost"
            with (String.append "WebGL" " context lost") in E1.
          rewrite (includes_app_l _ _ _ E1). reflexivity. }
        destruct (includes m "Out of memory") eqn:E2.
        { change "Out of memory" with (String.append "Out of " "memory") in E2.
          rewrite (includes_app_r _ _ _ E2), orb_true_r. reflexivity. }
        exfalso.
        destruct (includes m "Failed to load resource");
          [|destruct (includes m "default")];
          destruct Hm as [Hm|Hm]; cbv in Hm; discriminate. }
      unfold formatError. rewrite Hcrit. reflexivity.
    - exfalso. destruct H as [H|H]; cbv in H; discriminate. }
  split; [exact Hsev|].
  rewrite handleError_console. fold info. rewrite Hsev. reflexivity.
Qed.

Lemma specific_message_is_reported_witness :
  severity (formatError "2024-01-01T00:00:00.000Z"
              (ErrorObject "THREE.WebGLRenderer: WebGL context lost" None)
              (Some "animation-loop"))
  = "critical".
Proof.
  apply (@specific_message_is_reported created "2024-01-01T00:00:00.000Z"
           (ErrorObject "THREE.WebGLRenderer: WebGL context lost" None)
           (Some "animation-loop")).
  left. reflexivity.
Defined.
End ErrorHandlerFacts.


(** ** The toasts of the error handler *)

Module ToastFacts.
Import ErrorHandler.

Lemma toast_In_insertTimer (tm u : Timer) (l : list Timer) :
  In u (insertTimer tm l) <-> u = tm \/ In u l.
Proof.
  induction l as [|v rest IH]; simpl.
  - intuition.
  - destruct (fireAt v <=? fireAt tm)%Z; simpl; rewrite ?IH; intuition.
Qed.

Lemma ordered_insertTimer (tm : Timer) (l : list Timer) :
  ordered l -> ordered (insertTimer tm l).
Proof.
  induction l as [|v rest IH]; simpl; intros H.
  - split; [intros u []|exact I].
  - destruct H as [Hv Hrest].
    destruct (fireAt v <=? fireAt tm)%Z eqn:E; simpl.
    + apply Z.leb_le in E. split; [|auto].
      intros u Hu. apply toast_In_insertTimer in Hu.
      destruct Hu as [->|Hu]; auto.
    + apply Z.leb_gt in E. split; [|split; auto].
      intros u [<-|Hu]; [lia|]. specialize (Hv u Hu). lia.
Qed.

Lemma weight_insertTimer (tm : Timer) (l : list Timer) :
  list_sum (List.map weight (insertTimer tm l))
  = (weight tm + list_sum (List.map weight l))%nat.
Proof.
  induction l as [|v rest IH]; simpl; [reflexivity|].
  destruct (fireAt v <=? fireAt tm)%Z; simpl; [rewrite IH|]; lia.
Qed.

Lemma drain_S (fuel : nat) (T : Z) (s : Handler) :
  drain (S fuel) T s
  = match timers s with
    | [] => s
    | tm :: rest =>
        if (fireAt tm <=? T)%Z then
          drain fuel T
            (fire (callback tm)
               (mkHandler (errorContainer s) rest
                          (Z.max (now s) (fireAt tm)) (fresh s) (console s)))
        else s
    end.
Proof. reflexivity. Qed.

Lemma drain_O (T : Z) (s : Handler) : drain 0 T s = s.
Proof. reflexivity. Qed.

(** One callback, run when it is due. *)
Lemma fire_good (T A B : Z) (s : Handler) (tm : Timer) (rest : list Timer) :
  (Z.min A T + 500 <= B)%Z ->
  timers s = tm :: rest ->
  (fireAt tm <= T)%Z ->
  Good A B s ->
  let s1 := fire (callback tm)
              (mkHandler (errorContainer s) rest
                         (Z.max (now s) (fireAt tm)) (fresh s) (console s)) in
  Good A B s1
  /\ (list_sum (List.map weight (timers s1))
      < list_sum (List.map weight (timers s)))%nat.
Proof.
  intros HB E Hdue [Hord Hfut Hfade Hdet Hcov Hids]. rewrite E in *.
  destruct Hord as [Hhead Hrest].
  assert (Hnow : Z.max (now s) (fireAt tm) = fireAt tm)
    by (apply Z.max_r, Hfut; left; reflexivity).
  unfold fire. rewrite Hnow.
  destruct (callback tm) as [e|e] eqn:C;
    unfold setTimeout; cbn [errorContainer timers now fresh console].
  - assert (HA : (fireAt tm <= A)%Z) by (apply (Hfade tm e); [left|]; auto).
    split.
    + constructor; cbn [errorContainer timers now fresh console].
      * apply ordered_insertTimer, Hrest.
      * intros u Hu. apply toast_In_insertTimer in Hu.
        destruct Hu as [->|Hu]; [cbn; lia | auto].
      * intros u e' Hu Cu. apply toast_In_insertTimer in Hu.
        destruct Hu as [->|Hu]; [discriminate|].
        apply (Hfade u e'); [right|]; auto.
      * intros u e' Hu Cu. apply toast_In_insertTimer in Hu.
        destruct Hu as [->|Hu]; [cbn; lia|].
        apply (Hdet u e'); [right|]; auto.
      * intros t Ht. apply in_map_iff in Ht. destruct Ht as (t0 & <- & Ht0).
        assert (Hid : toastId (setOpacity e "0" t0) = toastId t0)
          by (unfold setOpacity; destruct (Nat.eqb (toastId t0) e); reflexivity).
        rewrite Hid.
        destruct (Hcov t0 Ht0) as (u & [<-|Hu] & Hel).
        -- exists (mkTimer (fireAt tm + 500) (Detach e)). split.
           ++ apply toast_In_insertTimer. left. reflexivity.
           ++ unfold elementOf in *. rewrite C in Hel. exact Hel.
        -- exists u. split; [|exact Hel].
           apply toast_In_insertTimer. right. exact Hu.
      * intros u Hu. apply toast_In_insertTimer in Hu.
        destruct Hu as [->|Hu]; [|apply Hids; right; exact Hu].
        specialize (Hids tm (or_introl eq_refl)).
        unfold elementOf in *. rewrite C in Hids. exact Hids.
    + assert (W : weight tm = 2%nat) by (unfold weight; rewrite C; reflexivity).
      rewrite weight_insertTimer. cbn [List.map]. rewrite W.
      change (list_sum (2%nat :: List.map weight rest))
        with (2 + list_sum (List.map weight rest))%nat.
      unfold weight at 1. cbn [callback]. lia.
  - split.
    + constructor; cbn [errorContainer timers now fresh console].
      * exact Hrest.
      * intros u Hu. auto.
      * intros u e' Hu Cu. apply (Hfade u e'); [right|]; auto.
      * intros u e' Hu Cu. apply (Hdet u e'); [right|]; auto.
      * intros t Ht. apply filter_In in Ht. destruct Ht as [Ht Hne].
        apply negb_true_iff, Nat.eqb_neq in Hne.
        destruct (Hcov t Ht) as (u & [<-|Hu] & Hel).
        -- exfalso. apply Hne. unfold elementOf in Hel. rewrite C in Hel.
           symmetry. exact Hel.
        -- exists u. split; assumption.
      * intros u Hu. apply Hids. right. exact Hu.
    + assert (W : weight tm = 1%nat) by (unfold weight; rewrite C; reflexivity).
      cbn [List.map]. rewrite W.
      change (list_sum (1%nat :: List.map weight rest))
        with (1 + list_sum (List.map weight rest))%nat.
      lia.
Qed.

(** The event loop runs every timer that is due by [T], also those set
    on the way, and keeps up what the handler keeps up. *)
Lemma drain_good (T A B : Z) :
  (Z.min A T + 500 <= B)%Z ->
  forall fuel s,
    (list_sum (List.map weight (timers s)) <= fuel)%nat ->
    Good A B s ->
    Good A B (drain fuel T s)
    /\ (forall tm, In tm (timers (drain fuel T s)) -> (T < fireAt tm)%Z).
Proof.
  intros HB. induction fuel as [|fuel IH]; intros s Hw G.
  - rewrite drain_O. split; [exact G|].
    destruct (timers s) as [|tm rest]; [intros tm []|].
    exfalso. cbn in Hw. unfold weight in Hw.
    destruct (callback tm); lia.
  - rewrite drain_S. destruct (timers s) as [|tm rest] eqn:E.
    + split; [exact G|]. rewrite E. intros tm [].
    + destruct (fireAt tm <=? T)%Z eqn:D.
      * apply Z.leb_le in D.
        destruct (@fire_good T A B s tm rest HB E D G) as [G1 Hw1].
        apply IH; [|exact G1]. rewrite E in Hw1. lia.
      * apply Z.leb_gt in D. split; [exact G|]. rewrite E.
        destruct G as [Hord _ _ _ _ _]. rewrite E in Hord.
        destruct Hord as [Hhead _].
        intros u [<-|Hu]; [lia|]. specialize (Hhead u Hu). lia.
Qed.

Lemma settled_created : settled created.
Proof.
  constructor; cbn.
  - exact I.
  - intros tm [].
  - intros tm e [].
  - intros tm e [].
  - intros t [].
  - intros tm [].
Qed.

Lemma settled_handleError (s : Handler) (ts : string) (error : Thrown)
    (ctx : option string) :
  settled s -> settled (handleError ts error ctx s).
Proof.
  intros [Hord Hfut Hfade Hdet Hcov Hids].
  assert (E : forall s0,
             settled s0 ->
             settled (if String.eqb (severity (formatError ts error ctx)) "critical"
                      then log (Reporting (formatError ts error ctx)) s0
                      else s0)).
  { intros s0 H0. destruct (String.eqb _ _); [|exact H0].
    destruct H0; constructor; assumption. }
  unfold handleError. apply E. clear E.
  unfold settled, log, showErrorToUser, setTimeout, ERROR_DISPLAY_DURATION.
  constructor; cbn [errorContainer timers now fresh console].
  - apply ordered_insertTimer, Hord.
  - intros u Hu. apply toast_In_insertTimer in Hu.
    destruct Hu as [->|Hu]; [cbn; lia | auto].
  - intros u e Hu Cu. apply toast_In_insertTimer in Hu.
    destruct Hu as [->|Hu]; [cbn; lia | eauto].
  - intros u e Hu Cu. apply toast_In_insertTimer in Hu.
    destruct Hu as [->|Hu]; [discriminate | eauto].
  - intros t Ht. apply in_app_or in Ht. destruct Ht as [Ht|[<-|[]]].
    + destruct (Hcov t Ht) as (u & Hu & Hel). exists u. split; [|exact Hel].
      apply toast_In_insertTimer. right. exact Hu.
    + eexists. split; [apply toast_In_insertTimer; left; reflexivity|].
      reflexivity.
  - intros u Hu. apply toast_In_insertTimer in Hu.
    destruct Hu as [->|Hu]; [cbn; lia|]. specialize (Hids u Hu). lia.
Qed.

Lemma settled_elapse (s : Handler) (ms : Z) :
  (0 <= ms)%Z -> settled s -> settled (elapse ms s).
Proof.
  intros Hms G. unfold elapse.
  destruct (@drain_good (now s + ms) (now s + 5000) (now s + ms + 500))
    with (fuel := list_sum (List.map weight (timers s))) (s := s)
    as [[Hord Hfut Hfade Hdet Hcov Hids] Hlate].
  - lia.
  - lia.
  - destruct G as [Hord Hfut Hfade Hdet Hcov Hids].
    constructor; auto. intros u e Hu Cu. specialize (Hdet u e Hu Cu). lia.
  - constructor; cbn [errorContainer timers now fresh console].
    + exact Hord.
    + intros u Hu. specialize (Hlate u Hu). lia.
    + intros u e Hu Cu. specialize (Hfade u e Hu Cu). lia.
    + intros u e Hu Cu. specialize (Hdet u e Hu Cu). lia.
    + exact Hcov.
    + exact Hids.
Qed.

Lemma settled_run (events : list Event) : forall s,
  Forall forward events -> settled s -> settled (run s events).
Proof.
  induction events as [|e rest IH]; intros s Hf G; [exact G|].
  inversion Hf as [|? ? He Hrest]; subst.
  cbn [run fold_left]. fold (run (step s e) rest).
  apply IH; [exact Hrest|].
  destruct e as [ts error ctx|ms]; cbn [step].
  - apply settled_handleError, G.
  - apply settled_elapse; [exact He | exact G].
Qed.

(** After five and a half seconds without an error nothing is left. *)
Lemma elapse_empties (s : Handler) (ms : Z) :
  (5500 <= ms)%Z -> settled s -> errorContainer (elapse ms s) = [].
Proof.
  intros Hms G. unfold elapse. cbn [errorContainer].
  destruct (@drain_good (now s + ms) (now s + 5000) (now s + 5500))
    with (fuel := list_sum (List.map weight (timers s))) (s := s)
    as [[Hord Hfut Hfade Hdet Hcov Hids] Hlate].
  - lia.
  - lia.
  - destruct G as [Hord Hfut Hfade Hdet Hcov Hids].
    constructor; auto. intros u e Hu Cu. specialize (Hdet u e Hu Cu). lia.
  - destruct (errorContainer (drain _ _ s)) as [|t rest] eqn:E; [reflexivity|].
    exfalso. destruct (Hcov t (or_introl eq_refl)) as (u & Hu & _).
    specialize (Hlate u Hu).
    destruct (callback u) as [e|e] eqn:C.
    + specialize (Hfade u e Hu C). lia.
    + specialize (Hdet u e Hu C). lia.
Qed.

(** What [handleError] leaves behind. *)
Lemma handleError_fields (s : Handler) (ts : string) (error : Thrown)
    (ctx : option string) :
  let s' := handleError ts error ctx s in
  errorContainer s'
  = errorContainer s
    ++ [mkToast (fresh s) (userMessage (formatError ts error ctx)) "1"]
  /\ timers s'
     = insertTimer (mkTimer (now s + 5000) (Fade (fresh s))) (timers s)
  /\ now s' = now s
  /\ fresh s' = S (fresh s).
Proof.
  unfold handleError.
  destruct (String.eqb (severity (formatError ts error ctx)) "critical");
    repeat split.
Qed.

Lemma drain_fresh (T : Z) : forall fuel s, fresh (drain fuel T s) = fresh s.
Proof.
  induction fuel as [|fuel IH]; intros s; [reflexivity|].
  rewrite drain_S. destruct (timers s) as [|tm rest]; [reflexivity|].
  destruct (fireAt tm <=? T)%Z; [|reflexivity].
  rewrite IH. destruct (callback tm); reflexivity.
Qed.

Lemma elapse_fields (s : Handler) (ms : Z) :
  now (elapse ms s) = (now s + ms)%Z /\ fresh (elapse ms s) = fresh s.
Proof.
  unfold elapse. cbn [now fresh]. split; [reflexivity | apply drain_fresh].
Qed.

(** An element none of whose timers is due before [D] is left alone as
    long as the clock stays below [D]. *)
Lemma drain_keeps (T D : Z) (t : Toast) :
  (T < D)%Z ->
  forall fuel s,
    untouched (toastId t) D s ->
    In t (errorContainer s) ->
    In t (errorContainer (drain fuel T s))
    /\ untouched (toastId t) D (drain fuel T s).
Proof.
  intros HT. induction fuel as [|fuel IH]; intros s Hlate Hin;
    [split; assumption|].
  rewrite drain_S. destruct (timers s) as [|tm rest] eqn:E.
  { split; [exact Hin | exact Hlate]. }
  destruct (fireAt tm <=? T)%Z eqn:Due; [|split; [exact Hin | exact Hlate]].
  apply Z.leb_le in Due.
  assert (Htm : In tm (timers s)) by (rewrite E; left; reflexivity).
  assert (Hne : elementOf tm <> toastId t).
  { intros Heq. specialize (Hlate tm Htm Heq). lia. }
  assert (Hrest : forall u, In u rest -> elementOf u = toastId t ->
                            (D <= fireAt u)%Z).
  { intros u Hu. apply Hlate. rewrite E. right. exact Hu. }
  apply IH.
  - unfold untouched, fire. destruct (callback tm) as [e|e] eqn:C;
      unfold setTimeout; cbn [errorContainer timers now fresh console].
    + intros u Hu Hel. apply toast_In_insertTimer in Hu.
      destruct Hu as [->|Hu].
      * exfalso. apply Hne. unfold elementOf in *. rewrite C. exact Hel.
      * apply Hrest; assumption.
    + intros u Hu Hel. apply Hrest; assumption.
  - unfold fire. unfold elementOf in Hne.
    destruct (callback tm) as [e|e] eqn:C;
      unfold setTimeout; cbn [errorContainer timers now fresh console].
    + apply in_map_iff. exists t. split; [|exact Hin].
      unfold setOpacity. destruct (Nat.eqb (toastId t) e) eqn:N; [|reflexivity].
      apply Nat.eqb_eq in N. congruence.
    + apply filter_In. split; [exact Hin|].
      apply negb_true_iff, Nat.eqb_neq. congruence.
Qed.

(** The event loop keeps an element on its way out. *)
Lemma drain_onItsWay (T A B D : Z) (id : nat) :
  (Z.min A T + 500 <= B)%Z ->
  forall fuel s,
    Good A B s ->
    onItsWay id D s ->
    onItsWay id D (drain fuel T s).
Proof.
  intros HB. induction fuel as [|fuel IH]; intros s G W; [exact W|].
  rewrite drain_S. destruct (timers s) as [|tm rest] eqn:E; [exact W|].
  destruct (fireAt tm <=? T)%Z eqn:Due; [|exact W].
  apply Z.leb_le in Due.
  destruct (@fire_good T A B s tm rest HB E Due G) as [G1 _].
  apply IH; [exact G1|]. clear G1 IH.
  assert (Hnow : Z.max (now s) (fireAt tm) = fireAt tm).
  { apply Z.max_r. destruct G as [_ Hfut _ _ _ _]. apply Hfut.
    rewrite E. left. reflexivity. }
  unfold onItsWay in *. rewrite E in W.
  unfold fire. rewrite Hnow.
  destruct (callback tm) as [e|e] eqn:C;
    unfold setTimeout; cbn [errorContainer timers now fresh console].
  - intros t Ht Hid. apply in_map_iff in Ht. destruct Ht as (t0 & Ht0 & Hin0).
    assert (Hid0 : toastId t0 = id).
    { rewrite <- Hid, <- Ht0. unfold setOpacity.
      destruct (Nat.eqb (toastId t0) e); reflexivity. }
    destruct (W t0 Hin0 Hid0) as (u & [<-|Hu] & Hcase).
    + destruct Hcase as [[Cu Hle]|[Cu _]]; [|congruence].
      assert (e = id) by congruence. subst e.
      exists (mkTimer (fireAt tm + 500) (Detach id)). split.
      * apply toast_In_insertTimer. left. reflexivity.
      * right. split; [reflexivity | cbn; lia].
    + exists u. split; [|exact Hcase].
      apply toast_In_insertTimer. right. exact Hu.
  - intros t Ht Hid. apply filter_In in Ht. destruct Ht as [Ht Hne].
    apply negb_true_iff, Nat.eqb_neq in Hne.
    destruct (W t Ht Hid) as (u & [<-|Hu] & Hcase).
    + exfalso. destruct Hcase as [[Cu _]|[Cu _]]; [congruence|].
      apply Hne. congruence.
    + exists u. split; assumption.
Qed.

Lemma ahead_handleError (s : Handler) (ts : string) (error : Thrown)
    (ctx : option string) :
  ahead s -> ahead (handleError ts error ctx s).
Proof.
  intros H. destruct (handleError_fields s ts error ctx) as (_ & Ht & Hn & _).
  unfold ahead. rewrite Ht, Hn. intros u Hu.
  apply toast_In_insertTimer in Hu.
  destruct Hu as [->|Hu]; [cbn; lia | auto].
Qed.

Lemma ahead_elapse (s : Handler) (ms : Z) :
  (0 <= ms)%Z -> settled s -> ahead (elapse ms s).
Proof.
  intros Hms G. unfold ahead, elapse. cbn [timers now].
  destruct (@drain_good (now s + ms) (now s + 5000) (now s + ms + 500))
    with (fuel := list_sum (List.map weight (timers s))) (s := s)
    as [_ Hlate].
  - lia.
  - lia.
  - destruct G as [Hord Hfut Hfade Hdet Hcov Hids].
    constructor; auto. intros u e Hu Cu. specialize (Hdet u e Hu Cu). lia.
  - exact Hlate.
Qed.

Lemma ahead_run (events : list Event) : forall s,
  Forall forward events -> settled s -> ahead s -> ahead (run s events).
Proof.
  induction events as [|e rest IH]; intros s Hf G H; [exact H|].
  inversion Hf as [|? ? He Hrest]; subst.
  cbn [run fold_left]. fold (run (step s e) rest).
  apply IH; [exact Hrest | |].
  - apply (@settled_run [e] s); [constructor; [exact He | constructor] | exact G].
  - destruct e as [ts error ctx|ms]; cbn [step].
    + apply ahead_handleError, H.
    + apply ahead_elapse; assumption.
Qed.

Lemma now_run (events : list Event) : forall s,
  now (run s events) = (now s + idleTime events)%Z.
Proof.
  induction events as [|e rest IH]; intros s; [cbn; lia|].
  cbn [run fold_left]. fold (run (step s e) rest). rewrite IH.
  destruct e as [ts error ctx|ms]; cbn [step idleTime].
  - destruct (handleError_fields s ts error ctx) as (_ & _ & Hn & _).
    rewrite Hn. reflexivity.
  - destruct (elapse_fields s ms) as [Hn _]. rewrite Hn. lia.
Qed.

Lemma idleTime_forward (events : list Event) :
  Forall forward events -> (0 <= idleTime events)%Z.
Proof.
  induction 1 as [|e rest He _ IH]; cbn [idleTime]; [lia|].
  destruct e; cbn in He; lia.
Qed.

(** As long as the clock stays below [D], an element that no timer
    touches before [D] stays in the container as it is, whatever errors
    are raised meanwhile. *)
Lemma stays (t : Toast) (D : Z) (later : list Event) : forall s,
  settled s ->
  untouched (toastId t) D s ->
  In t (errorContainer s) ->
  (toastId t < fresh s)%nat ->
  Forall forward later ->
  (now s + idleTime later < D)%Z ->
  In t (errorContainer (run s later)).
Proof.
  induction later as [|e rest IH]; intros s G U Hin Hid Hf Ht; [exact Hin|].
  inversion Hf as [|? ? He Hrest]; subst.
  pose proof (idleTime_forward Hrest) as Hpos.
  cbn [run fold_left]. fold (run (step s e) rest).
  destruct e as [ts error ctx|ms]; cbn [step idleTime] in *.
  - destruct (handleError_fields s ts error ctx) as (Hc & Htm & Hn & Hfr).
    apply IH.
    + apply settled_handleError, G.
    + unfold untouched. rewrite Htm. intros u Hu Hel.
      apply toast_In_insertTimer in Hu. destruct Hu as [->|Hu].
      * unfold elementOf in Hel. cbn in Hel. lia.
      * apply U; assumption.
    + rewrite Hc. apply in_or_app. left. exact Hin.
    + rewrite Hfr. lia.
    + exact Hrest.
    + rewrite Hn. exact Ht.
  - destruct (elapse_fields s ms) as [Hn Hfr].
    destruct (@drain_keeps (now s + ms) D t)
      with (fuel := list_sum (List.map weight (timers s))) (s := s)
      as [Hin' U']; [lia | exact U | exact Hin |].
    apply IH.
    + apply settled_elapse; assumption.
    + exact U'.
    + exact Hin'.
    + rewrite Hfr. exact Hid.
    + exact Hrest.
    + rewrite Hn. lia.
Qed.

(** An element on its way out stays on its way out, whatever errors are
    raised meanwhile. *)
Lemma leaves (id : nat) (D : Z) (later : list Event) : forall s,
  settled s ->
  onItsWay id D s ->
  (id < fresh s)%nat ->
  Forall forward later ->
  onItsWay id D (run s later).
Proof.
  induction later as [|e rest IH]; intros s G W Hid Hf; [exact W|].
  inversion Hf as [|? ? He Hrest]; subst.
  cbn [run fold_left]. fold (run (step s e) rest).
  destruct e as [ts error ctx|ms]; cbn [step] in *.
  - destruct (handleError_fields s ts error ctx) as (Hc & Htm & Hn & Hfr).
    apply IH.
    + apply settled_handleError, G.
    + unfold onItsWay. rewrite Hc, Htm. intros t Ht Htid.
      apply in_app_or in Ht. destruct Ht as [Ht|[<-|[]]].
      * destruct (W t Ht Htid) as (u & Hu & Hcase). exists u.
        split; [|exact Hcase]. apply toast_In_insertTimer. right. exact Hu.
      * cbn in Htid. lia.
    + rewrite Hfr. lia.
    + exact Hrest.
  - destruct (elapse_fields s ms) as [Hn Hfr].
    assert (Hms : (0 <= ms)%Z) by exact He.
    apply IH.
    + apply settled_elapse; assumption.
    + unfold elapse, onItsWay. cbn [errorContainer timers].
      apply (@drain_onItsWay (now s + ms) (now s + 5000) (now s + ms + 500)).
      * lia.
      * destruct G as [Hord Hfut Hfade Hdet Hcov Hids].
        constructor; auto. intros u e Hu Cu. specialize (Hdet u e Hu Cu). lia.
      * exact W.
    + rewrite Hfr. exact Hid.
    + exact Hrest.
Qed.

(** X9: the life of a toast of [main.ts.bak2], in every run of errors
    and idle times (each timer firing when it is due).  Take any run,
    an error raised after it, and any further errors and idle times
    after that.  As long as these take less than 5000 ms the toast of
    the error is in the container with its message and opacity 1,
    whatever other toasts have come and gone; once they have taken
    5500 ms or more the toast is no longer in the container, whatever
    errors were raised meanwhile.  So the toasts do not pile up: after
    5500 ms without an error the container is empty. *)
Theorem toasts_expire (events : list Event) (ts : string) (error : Thrown)
    (ctx : option string) (later : list Event) :
  Forall forward events ->
  Forall forward later ->
  let s := run created events in
  let shown := run (handleError ts error ctx s) later in
  ((idleTime later < 5000)%Z ->
     In (mkToast (fresh s) (userMessage (formatError ts error ctx)) "1")
        (errorContainer shown))
  /\ ((5500 <= idleTime later)%Z ->
      forall t, In t (errorContainer shown) -> toastId t <> fresh s)
  /\ (forall ms, (5500 <= ms)%Z -> errorContainer (elapse ms s) = []).
Proof.
  intros Hf Hl s shown.
  assert (G : settled s)
    by (apply settled_run; [exact Hf | apply settled_created]).
  assert (A : ahead s).
  { apply ahead_run; [exact Hf | apply settled_created | intros tm []]. }
  destruct (handleError_fields s ts error ctx) as (Hc & Htm & Hn & Hfr).
  assert (G1 : settled (handleError ts error ctx s))
    by apply settled_handleError, G.
  split; [|split].
  - intros Hshort. subst shown.
    apply stays with (D := (now s + 5000)%Z).
    + exact G1.
    + unfold untouched. rewrite Htm. cbn [toastId]. intros u Hu Hel.
      apply toast_In_insertTimer in Hu. destruct Hu as [->|Hu]; [cbn; lia|].
      destruct G as [_ _ _ _ _ Hids]. specialize (Hids u Hu). lia.
    + rewrite Hc. apply in_or_app. right. left. reflexivity.
    + rewrite Hfr. cbn [toastId]. lia.
    + exact Hl.
    + rewrite Hn. lia.
  - intros Hlong t Ht Hid.
    assert (W : onItsWay (fresh s) (now s + 5000) shown).
    { subst shown. apply leaves; [exact G1 | | rewrite Hfr; lia | exact Hl].
      unfold onItsWay. rewrite Hc, Htm. intros t0 Ht0 Hid0.
      exists (mkTimer (now s + 5000) (Fade (fresh s))). split.
      - apply toast_In_insertTimer. left. reflexivity.
      - left. split; [reflexivity | cbn; lia]. }
    assert (A1 : ahead shown).
    { subst shown. apply ahead_run; [exact Hl | exact G1 |].
      apply ahead_handleError, A. }
    assert (N : now shown = (now s + idleTime later)%Z).
    { subst shown. rewrite now_run, Hn. reflexivity. }
    destruct (W t Ht Hid) as (u & Hu & Hcase).
    specialize (A1 u Hu). rewrite N in A1.
    destruct Hcase as [[_ Hle]|[_ Hle]]; lia.
  - intros ms Hms. apply elapse_empties; assumption.
Qed.

Lemma toasts_expire_witness :
  In (mkToast 0 "An unexpected error occurred" "1")
     (errorContainer
        (run (handleError "t0" (Value "boom") None (run created []))
             [Idle 3000; Raise "t1" (ErrorObject "Out of memory" None) None;
              Idle 1999]))
  /\ (forall t,
        In t (errorContainer
                (run (handleError "t0" (Value "boom") None (run created []))
                     [Idle 3000;
                      Raise "t1" (ErrorObject "Out of memory" None) None;
                      Idle 2500])) ->
        toastId t <> 0%nat).
Proof.
  split.
  - apply (@toasts_expire [] "t0" (Value "boom") None
             [Idle 3000; Raise "t1" (ErrorObject "Out of memory" None) None;
              Idle 1999]).
    + constructor.
    + repeat constructor; cbn; lia.
    + cbn. lia.
  - apply (@toasts_expire [] "t0" (Value "boom") None
             [Idle 3000; Raise "t1" (ErrorObject "Out of memory" None) None;
              Idle 2500]).
    + constructor.
    + repeat constructor; cbn; lia.
    + cbn. lia.
Defined.
End ToastFacts.


(** ** The animation loop *)

Module AnimationFacts.
Import Scene3D Animation.

Lemma animate_rotating (l : Loop) (tick : Tick) :
  disposed (app l) = false ->
  debugMode (app l) = false ->
  cubeRotating (animationState (app l)) = true ->
  let l' := stateOf (animate tick l) in
  disposed (app l') = false
  /\ debugMode (app l') = false
  /\ cubeRotating (animationState (app l')) = true
  /\ lastTime l' = currentTime tick
  /\ requested l' = S (requested l)
  /\ cubeRotation (app l')
     = mkVector3
         (x (cubeRotation (app l)))
         (y (cubeRotation (app l))
          + PI * ((currentTime tick - lastTime l) / 1000) * (5 # 10))
         (z (cubeRotation (app l))
          + PI * ((currentTime tick - lastTime l) / 1000) * (3 # 10)).
Proof.
  destruct l as [a lt fc rq]. cbn [app lastTime requested].
  intros Hd Hdbg Hrot.
  unfold animate, updateAnimations, updatePerformanceStats, tryCatch, bind,
    gets, modify, when, onApp, ret, throw, handleError.
  cbn [app lastTime frameCount requested set_app set_lastTime
       set_frameCount set_requested stateOf].
  rewrite Hd. cbn [app lastTime frameCount requested set_app set_lastTime
       set_frameCount set_requested stateOf].
  rewrite Hrot.
  destruct a; cbn in Hd, Hdbg, Hrot |- *. subst.
  destruct animationState0 as [rotating scaling]. cbn in Hrot |- *. subst.
  destruct scaling, model0, (rendered tick); cbn; repeat split; reflexivity.
Qed.

Lemma last_cons_default (A : Type) (l : list A) : forall a d,
  last (a :: l) d = last l a.
Proof.
  induction l as [|b rest IH]; intros a d; [reflexivity|].
  change (last (a :: b :: rest) d) with (last (b :: rest) d).
  rewrite (IH b d), (IH b a). reflexivity.
Qed.

(** X10: the rotation of the cube follows the clock and not the frames.
    While the cube rotates (outside debug mode), after any number of
    frames the angles about y and z have grown by pi/2 and 3 pi/10 per
    second of the time between the clock readings of the first and the
    last frame, however the frames in between are spaced and whether or
    not rendering them failed; every frame asks for the next.  Once the
    controller is disposed, a frame changes nothing and asks for no
    other. *)
Theorem rotation_follows_the_clock (l : Loop) (ticks : list Tick) :
  (disposed (app l) = false ->
   debugMode (app l) = false ->
   cubeRotating (animationState (app l)) = true ->
   let l' := run l ticks in
   let seconds := (lastTime l' - lastTime l) / 1000 in
   lastTime l' = last (List.map currentTime ticks) (lastTime l)
   /\ requested l' = (requested l + List.length ticks)%nat
   /\ x (cubeRotation (app l')) == x (cubeRotation (app l))
   /\ y (cubeRotation (app l'))
      == y (cubeRotation (app l)) + PI * seconds * (5 # 10)
   /\ z (cubeRotation (app l'))
      == z (cubeRotation (app l)) + PI * seconds * (3 # 10))
  /\ (disposed (app l) = true -> run l ticks = l).
Proof.
  split.
  - revert l. induction ticks as [|tick rest IH]; intros l Hd Hdbg Hrot.
    + cbn. repeat split; try reflexivity; try lia.
      * unfold Qdiv. ring.
      * unfold Qdiv. ring.
    + destruct (@animate_rotating l tick Hd Hdbg Hrot)
        as (Hd1 & Hdbg1 & Hrot1 & Ht1 & Hrq1 & Hcube1).
      cbn [run fold_left]. fold (run (stateOf (animate tick l)) rest).
      destruct (IH (stateOf (animate tick l)) Hd1 Hdbg1 Hrot1)
        as (Ht & Hrq & Hx & Hy & Hz).
      cbv zeta in *. rewrite Hcube1 in Hx, Hy, Hz. cbn [x y z] in Hx, Hy, Hz.
      rewrite Ht1 in Ht, Hy, Hz.
      repeat split.
      * rewrite Ht. cbn [List.map]. symmetry. apply last_cons_default.
      * rewrite Hrq, Hrq1. cbn [List.length]. lia.
      * exact Hx.
      * rewrite Hy. unfold Qdiv. ring.
      * rewrite Hz. unfold Qdiv. ring.
  - intros Hd. induction ticks as [|tick rest IH]; [reflexivity|].
    cbn [run fold_left].
    assert (E : stateOf (animate tick l) = l).
    { unfold animate, bind, gets. rewrite Hd. reflexivity. }
    rewrite E. exact IH.
Qed.

Lemma rotation_follows_the_clock_witness :
  y (cubeRotation
       (app (run (mkLoop (Scene3D.run built [Click [hit (cube built)]]) 0 0 0)
                 [mkTick 16 0 None 16;
                  mkTick 500 0 (Some "context lost") 500;
                  mkTick 1000 0 None 1000])))
  == PI * (5 # 10).
Proof.
  destruct (@rotation_follows_the_clock
              (mkLoop (Scene3D.run built [Click [hit (cube built)]]) 0 0 0)
              [mkTick 16 0 None 16;
               mkTick 500 0 (Some "context lost") 500;
               mkTick 1000 0 None 1000]) as [H _].
  specialize (H eq_refl eq_refl eq_refl).
  destruct H as (_ & _ & _ & Hy & _).
  cbv zeta in Hy. rewrite Hy. vm_compute. reflexivity.
Defined.
End AnimationFacts.


(** ** Disposal and the scene graph *)

Module SceneGraphFacts.
Import Scene3D SceneGraph.

Lemma disposeNode_traverse (o : Object3D) : forall root,
  In o (traverse root) -> incl (disposeNode o) (disposeNode root).
Proof.
  intros root. revert o.
  induction root as [id kind pos children IH] using SceneFacts.Object3D_all.
  intros o Ho. cbn [traverse] in Ho. destruct Ho as [<-|Ho].
  - apply incl_refl.
  - apply in_flat_map in Ho. destruct Ho as (c & Hc & Hoc).
    rewrite Forall_forall in IH.
    intros r Hr. cbn [disposeNode]. apply in_or_app. right.
    apply in_flat_map. exists c. split; [exact Hc|].
    exact (IH c Hc o Hoc r Hr).
Qed.

(** X11: the first [dispose] leaves no mesh of the scene behind.  For
    every mesh in the scene graph, at any depth and whether or not the
    registry knows it, [dispose] releases its geometry and each of its
    materials; afterwards the scene is empty and the rendering context is
    given up. *)
Theorem dispose_releases_every_mesh (s : App) (o : Object3D)
    (id geometry : nat) (material : MeshMaterial) (pos : Vector3)
    (children : list Object3D) :
  disposed s = false ->
  inScene o s ->
  o = Object id (Mesh geometry material) pos children ->
  let s' := stateOf (dispose s) in
  In (GeometryRes geometry) (released s')
  /\ (forall m, In m (materialsOf material) ->
                In (MaterialRes (materialId m)) (released s'))
  /\ scene s' = []
  /\ contextLost s' = true.
Proof.
  intros Hd Hin Ho s'. subst s'. rewrite (@SceneFacts.dispose_once s Hd).
  cbn [stateOf].
  assert (Hown : forall r, In r (disposeNode o) ->
                           In r (flat_map disposeNode (scene s))).
  { intros r Hr. unfold inScene in Hin. apply in_flat_map in Hin.
    destruct Hin as (root & Hroot & Hor).
    apply in_flat_map. exists root. split; [exact Hroot|].
    exact (@disposeNode_traverse o root Hor r Hr). }
  assert (Hrel : forall r, In r (disposeNode o) ->
            In r (rev (List.map TextureRes (textures (resourceManager s))
                       ++ List.map GeometryRes (geometries (resourceManager s))
                       ++ flat_map disposeMaterial (materials (resourceManager s))
                       ++ flat_map disposeNode (scene s))
                  ++ released s)).
  { intros r Hr. apply in_or_app. left. apply -> in_rev.
    rewrite !in_app_iff. right. right. right. apply Hown, Hr. }
  subst o. cbn [disposeNode] in Hrel.
  split; [|split; [|split]].
  - apply Hrel. left. reflexivity.
  - intros m Hm. apply Hrel. right. apply in_or_app. left.
    apply in_map_iff. exists m. split; [reflexivity | exact Hm].
  - reflexivity.
  - reflexivity.
Qed.

Lemma dispose_releases_every_mesh_witness :
  In (GeometryRes 6) (released (stateOf (dispose built))).
Proof.
  pose (faces :=
          Multi [mkMaterial 8 (Some 7%nat); mkMaterial 10 (Some 9%nat);
                 mkMaterial 12 (Some 11%nat); mkMaterial 14 (Some 13%nat);
                 mkMaterial 16 (Some 15%nat); mkMaterial 18 (Some 17%nat)]).
  assert (Hin : inScene (Object 19 (Mesh 6 faces) (mkVector3 2 4 2) []) built).
  { vm_compute. do 4 right. left. reflexivity. }
  exact (proj1 (@dispose_releases_every_mesh built
                  (Object 19 (Mesh 6 faces) (mkVector3 2 4 2) [])
                  19%nat 6%nat faces (mkVector3 2 4 2) []
                  eq_refl Hin eq_refl)).
Defined.
End SceneGraphFacts.


(** ** Starting the audio engine *)

Module StartAudioFacts.
Import StartAudio.

Lemma initializeCsound_again (a : Attempt) (s : State) (h : nat) :
  csound s = Some h -> initializeCsound a s = Normal tt s.
Proof.
  intros H. unfold initializeCsound, tryCatch, bind, gets. rewrite H.
  reflexivity.
Qed.

(** With an engine and no button nothing moves any more. *)
Lemma frozen (s : State) (h : nat) :
  body s = [] -> csound s = Some h -> forall more, run s more = s.
Proof.
  intros Hb Hc more. induction more as [|e rest IH]; [reflexivity|].
  cbn [run fold_left]. fold (run (step s e) rest).
  assert (E : step s e = s).
  { destruct e as [a|id ok]; cbn [step].
    - rewrite (initializeCsound_again a s Hc). reflexivity.
    - unfold attached. rewrite Hb. reflexivity. }
  rewrite E. exact IH.
Qed.

Ltac late_failure :=
  right; left; cbn;
  repeat match goal with
         | H : _ = _ |- _ => rewrite H
         end;
  cbn; repeat split; eauto.

(** The three ways a first [initializeCsound] can go. *)
Lemma initializeCsound_cases (a : Attempt) (s : State) :
  csound s = None ->
  let s' := stateOf (initializeCsound a s) in
  (createOk a = false
   /\ s' = set_reported (("Csound() rejected", "csound-initialization")
                           :: reported s) s)
  \/ (failsLate a = true
      /\ csound s' = Some (fresh s)
      /\ body s' = body s
      /\ starts s' = starts s
      /\ exists e, reported s' = (e, "csound-initialization") :: reported s)
  \/ (failsLate a = false
      /\ csound s' = Some (fresh s)
      /\ body s'
         = body s ++ [AudioApp.mkButton (S (fresh s)) "Click to Enable Audio"]
      /\ starts s' = starts s
      /\ reported s' = reported s).
Proof.
  destruct s as [c b f e r]. cbn [csound]. intros ->.
  unfold initializeCsound, tryCatch, bind, gets, Csound, setOption, call,
    failsLate, starts.
  cbn [csound body fresh engine reported forallb].
  destruct (createOk a) eqn:Hcreate; cbn; [|left; split; reflexivity].
  destruct (setOptionOk a "--realtime") eqn:H1; cbn; [|late_failure].
  destruct (setOptionOk a "--daemon") eqn:H2; cbn; [|late_failure].
  destruct (setOptionOk a "-m0") eqn:H3; cbn; [|late_failure].
  destruct (setOptionOk a "-d") eqn:H4; cbn; [|late_failure].
  destruct (setOptionOk a "-+rtaudio=webaudio") eqn:H5; cbn; [|late_failure].
  destruct (setOptionOk a "--sample-rate=48000") eqn:H6; cbn; [|late_failure].
  destruct (setOptionOk a "--ksmps=128") eqn:H7; cbn; [|late_failure].
  destruct (compileOk a) eqn:H8; cbn; [|late_failure].
  right. right. repeat split.
Qed.

Lemma wellFormed_step (s : State) (e : Event) :
  wellFormed s -> wellFormed (step s e).
Proof.
  intros W. destruct e as [a|id ok]; cbn [step].
  - destruct (csound s) as [h|] eqn:Hc.
    + rewrite (initializeCsound_again a s Hc). exact W.
    + assert (Hb : body s = []).
      { destruct W as [Hb|(id & label & h & _ & Hh)]; [exact Hb|congruence]. }
      destruct (initializeCsound_cases a s Hc)
        as [(_ & ->)|[(_ & _ & Hb' & _)|(_ & Hc' & Hb' & _)]].
      * left. exact Hb.
      * left. rewrite Hb'. exact Hb.
      * right. rewrite Hb in Hb'.
        exists (S (fresh s)), "Click to Enable Audio", (fresh s).
        split; [exact Hb' | exact Hc'].
  - destruct (attached id s) eqn:Hat; [|exact W].
    destruct W as [Hb|(id' & label & h & Hb & Hc)].
    + unfold attached in Hat. rewrite Hb in Hat. discriminate.
    + unfold attached in Hat. rewrite Hb in Hat. cbn in Hat.
      rewrite orb_false_r in Hat. apply Nat.eqb_eq in Hat. subst id'.
      destruct s as [c b f en r]. cbn in Hb, Hc. subst.
      unfold detached, startOnclick, tryCatch, bind, call, gets, remove,
        setTextContent, modify.
      cbn. destruct ok; cbn; rewrite Nat.eqb_refl; cbn.
      * left. reflexivity.
      * right. exists id, "Failed to start audio. Click to retry.", h.
        split; reflexivity.
Qed.

Lemma wellFormed_run (events : list Event) : forall s,
  wellFormed s -> wellFormed (run s events).
Proof.
  induction events as [|e rest IH]; intros s W; [exact W|].
  cbn [run fold_left]. fold (run (step s e) rest).
  apply IH, wellFormed_step, W.
Qed.



(** X13: in [main.ts.bak2] a failure after the engine was made is final.
    When [initializeCsound] runs without an engine and one of the seven
    options or the compilation is rejected, the error is reported, the
    handle stays set and no start button is made; from then on a call of
    [initializeCsound] returns at once, so that in the rest of the run
    there is no button to click and [start] is never called. *)
Theorem late_failure_is_final (events : list Event) (a : Attempt) :
  let s := run initial events in
  let s' := step s (Initialize a) in
  csound s = None ->
  failsLate a = true ->
  csound s' = Some (fresh s)
  /\ body s' = []
  /\ (exists e, reported s' = (e, "csound-initialization") :: reported s)
  /\ starts s' = starts s
  /\ forall more, run s' more = s'.
Proof.
  intros s s' Hnone Hlate.
  assert (W : wellFormed s).
  { apply wellFormed_run. left. reflexivity. }
  assert (Hb : body s = []).
  { destruct W as [Hb|(id & label & h & _ & Hh)]; [exact Hb|congruence]. }
  subst s'. cbn [step].
  destruct (initializeCsound_cases a s Hnone)
    as [(Hc & _)|[(_ & Hc' & Hb' & Hs' & Hr')|(Hl & _)]].
  - unfold failsLate in Hlate. rewrite Hc in Hlate. discriminate.
  - rewrite Hb in Hb'. repeat split; try assumption.
    intros more. apply frozen with (h := fresh s); assumption.
  - congruence.
Qed.

Lemma late_failure_is_final_witness :
  body (run initial
          [Initialize (mkAttempt true (fun o => negb (String.eqb o "-d")) true);
           Initialize (mkAttempt true (fun _ => true) true)])
  = [].
Proof.
  destruct (@late_failure_is_final []
              (mkAttempt true (fun o => negb (String.eqb o "-d")) true)
              eq_refl eq_refl) as (_ & _ & _ & _ & Hfrozen).
  exact (f_equal body
           (Hfrozen [Initialize (mkAttempt true (fun _ => true) true)])).
Defined.
End StartAudioFacts.


(** ** The animation loop of the first generation *)

Module OldLoopFacts.
Import Scene3D OldLoop.

Lemma old_animate_rotating (s : App) (tick : Tick) :
  cubeRotating (animationState s) = true ->
  let s' := stateOf (animate tick s) in
  cubeRotating (animationState s') = true
  /\ cubeRotation s'
     = mkVector3 (x (cubeRotation s))
                 (y (cubeRotation s) + (1 # 100))
                 (z (cubeRotation s) + (1 # 100)).
Proof.
  intros Hrot. unfold animate, bind, gets, modify, when, ret, throw.
  rewrite Hrot. cbn.
  destruct (modelScaling (animationState s)), (model s), (rendered tick);
    cbn; split; (exact Hrot || reflexivity).
Qed.

(** X14: in [main.ts.old] the rotation of the cube counts the frames and
    not the time.  While the cube rotates, after [n] frames the angles
    about y and z have grown by [n] times 0.01, whenever the frames were
    drawn and whether or not rendering them threw; so the angle reached
    in the five seconds of a click depends on the frame rate, unlike in
    the later controller. *)
Theorem old_rotation_counts_frames (s : App) (ticks : list Tick) :
  cubeRotating (animationState s) = true ->
  let s' := run s ticks in
  let n := inject_Z (Z.of_nat (List.length ticks)) in
  cubeRotating (animationState s') = true
  /\ x (cubeRotation s') == x (cubeRotation s)
  /\ y (cubeRotation s') == y (cubeRotation s) + n * (1 # 100)
  /\ z (cubeRotation s') == z (cubeRotation s) + n * (1 # 100).
Proof.
  revert s. induction ticks as [|tick rest IH]; intros s Hrot.
  - cbn. repeat split; try exact Hrot; ring.
  - destruct (@old_animate_rotating s tick Hrot) as [Hrot1 Hcube1].
    cbn [run fold_left]. fold (run (stateOf (animate tick s)) rest).
    destruct (IH (stateOf (animate tick s)) Hrot1) as (Hr & Hx & Hy & Hz).
    cbv zeta in *. rewrite Hcube1 in Hx, Hy, Hz. cbn [x y z] in Hx, Hy, Hz.
    assert (Hn : inject_Z (Z.of_nat (List.length (tick :: rest)))
                 == inject_Z (Z.of_nat (List.length rest)) + 1).
    { cbn [List.length]. rewrite Nat2Z.inj_succ. unfold Z.succ.
      rewrite inject_Z_plus. reflexivity. }
    repeat split.
    + exact Hr.
    + exact Hx.
    + rewrite Hy, Hn. ring.
    + rewrite Hz, Hn. ring.
Qed.

Lemma old_rotation_counts_frames_witness :
  y (cubeRotation
       (run (Scene3D.run built [Click [hit (cube built)]])
            [mkTick 0 None; mkTick 0 (Some "context lost"); mkTick 0 None]))
  == 3 # 100.
Proof.
  destruct (@old_rotation_counts_frames
              (Scene3D.run built [Click [hit (cube built)]])
              [mkTick 0 None; mkTick 0 (Some "context lost"); mkTick 0 None]
              eq_refl) as (_ & _ & Hy & _).
  cbv zeta in Hy. rewrite Hy. vm_compute. reflexivity.
Defined.
End OldLoopFacts.


(** ** Runs of [initialize] that overlap *)

Module AudioAsyncFacts.
Import AudioApp AudioAsync.

Lemma neutral_refl s : neutral s s.
Proof. repeat split. Qed.

Lemma neutral_trans s1 s2 s3 : neutral s1 s2 -> neutral s2 s3 -> neutral s1 s3.
Proof.
  intros (A1 & B1 & C1) (A2 & B2 & C2).
  repeat split; congruence.
Qed.

Lemma neutral_listener (r : Q) (ok : bool) (s : State) :
  neutral s (stateOf (detached (clickListener r ok) s)).
Proof.
  destruct s as [c i n b f l].
  destruct i, c, ok; repeat split.
Qed.

Lemma neutral_dispatchClick rands oks n : forall i s,
  neutral s (stateOf (dispatchClick n i rands oks s)).
Proof.
  induction n as [|n IH]; intros i s; [apply neutral_refl|].
  cbn [dispatchClick]. unfold bind, detached.
  eapply neutral_trans; [|apply IH].
  apply (neutral_listener (rands i) (oks i) s).
Qed.

Lemma neutral_resume (st : Stage) (ok : bool) (r : Q) (s : State) :
  neutral s (stateOf (resume st ok r s)).
Proof.
  destruct s as [c i n b f l].
  destruct st, ok, c; repeat split.
Qed.

Lemma replaceNth_length (l : list Task) : forall k t,
  nth_error l k = Some t ->
  (forall t', List.length (replaceNth k (Some t') l) = List.length l)
  /\ S (List.length (replaceNth k None l)) = List.length l.
Proof.
  induction l as [|u rest IH]; intros k t H.
  - destruct k; discriminate H.
  - destruct k as [|k]; cbn [replaceNth List.length].
    + split; reflexivity.
    + cbn in H. destruct (IH k t H) as [Hsame Hless].
      split; [intros t'; rewrite Hsame; reflexivity|].
      rewrite Hless. reflexivity.
Qed.

Lemma accounted_step (w : World) (e : Event) :
  accounted w -> accounted (step w e).
Proof.
  unfold accounted. destruct w as [s p]. cbn [state pending]. intros H.
  destruct e as [rands oks | id rands oks | k ok r];
    cbn [step state pending].
  - cbn [AudioApp.step].
    destruct (neutral_dispatchClick rands oks
                (clickHandlers (observe (Clicked Page) s)) 0
                (observe (Clicked Page) s)) as (A & B & C).
    change ((modify (observe (Clicked Page)) ;;
             n <- gets clickHandlers ;; dispatchClick n 0 rands oks) s)
      with (dispatchClick (clickHandlers (observe (Clicked Page) s)) 0
              rands oks (observe (Clicked Page) s)).
    rewrite A, B, C. destruct s as [c i n b f l]. exact H.
  - destruct (attached id s); [|exact H]. cbn [state pending].
    destruct (neutral_dispatchClick rands oks
                (clickHandlers (observe (Clicked (RetryButton id)) s)) 0
                (observe (Clicked (RetryButton id)) s)) as (A & B & C).
    change ((modify (observe (Clicked (RetryButton id))) ;;
             n <- gets clickHandlers ;; dispatchClick n 0 rands oks) s)
      with (dispatchClick
              (clickHandlers (observe (Clicked (RetryButton id)) s)) 0
              rands oks (observe (Clicked (RetryButton id)) s)).
    rewrite A, B, C, List.length_app. cbn [List.length].
    destruct s as [c i n b f l].
    unfold failures, retryClicks in *. cbn in *. lia.
  - destruct (nth_error p k) as [t|] eqn:E; [|exact H].
    cbn [state pending].
    destruct (replaceNth_length p k E) as [Hsame Hless].
    pose proof (neutral_resume (stage t) ok r s) as N.
    unfold advance.
    destruct (resume (stage t) ok r s) as [[next|] s'|error s'];
      cbn [stateOf] in N; destruct N as (A & B & C); cbn [fst snd].
    + rewrite Hsame, A, B, C. exact H.
    + assert (G : clickHandlers
                    (stateOf ((setupClickHandler ;; continue (caller t)) s'))
                  = S (clickHandlers s')
                  /\ failures
                       (stateOf ((setupClickHandler ;; continue (caller t)) s'))
                     = failures s'
                  /\ retryClicks
                       (stateOf ((setupClickHandler ;; continue (caller t)) s'))
                     = retryClicks s').
      { destruct s' as [c i n b f l]. destruct (caller t); repeat split. }
      destruct G as (A' & B' & C'). rewrite A', B', C', A, B, C. lia.
    + assert (G : clickHandlers
                    (stateOf
                       ((modify (observe (ConsoleError
                                            "Audio initialization failed:"
                                            error)) ;;
                         createRetryButton ;; continue (caller t)) s'))
                  = clickHandlers s'
                  /\ failures
                       (stateOf
                          ((modify (observe (ConsoleError
                                               "Audio initialization failed:"
                                               error)) ;;
                            createRetryButton ;; continue (caller t)) s'))
                     = S (failures s')
                  /\ retryClicks
                       (stateOf
                          ((modify (observe (ConsoleError
                                               "Audio initialization failed:"
                                               error)) ;;
                            createRetryButton ;; continue (caller t)) s'))
                     = retryClicks s').
      { destruct s' as [c i n b f l]. destruct (caller t); repeat split. }
      destruct G as (A' & B' & C'). rewrite A', B', C', A, B, C. lia.
Qed.

(** X16: in every schedule of [main.basic.csound.ts], whether or not
    runs of [initialize] overlap, every run is accounted for: the number
    of click listeners, plus the failures logged, plus the runs still
    waiting for the engine, is one (the run of the constructor) plus the
    number of clicks on retry buttons.  A run that goes through adds one
    listener, whatever other runs have done. *)
Theorem every_run_is_accounted_for (events : list Event) :
  let w := run boot events in
  (clickHandlers (state w) + failures (state w) + List.length (pending w)
   = 1 + retryClicks (state w))%nat.
Proof.
  cbv zeta. fold (accounted (run boot events)).
  assert (G : forall w, accounted w -> accounted (run w events)).
  { induction events as [|e rest IH]; intros w H; [exact H|].
    cbn [run fold_left]. fold (run (step w e) rest).
    apply IH, accounted_step, H. }
  apply G. reflexivity.
Qed.

(** X17: what the runs that overlap can do, which those that do not
    cannot.  When the first retry button is clicked twice before anything
    settles and both runs go through, two click listeners are there, no
    button is left, and a click on the page sends two score messages.
    When the engine of the second run is made while the first run waits
    for [start], the test tone of the first run goes to the second
    engine, on which [start] has not been called. *)
Theorem overlapping_retries :
  (let w := run boot doubleClick in
   pending w = []
   /\ clickHandlers (state w) = 2%nat
   /\ body (state w) = []
   /\ firstn 3 (log (state (step w (ClickPage (fun _ => 0) (fun _ => true)))))
      = [Engine 2 (InputMessage [Text "i 1 0 2 0.5 "; Num (220 + 0 * 660)]);
         Engine 2 (InputMessage [Text "i 1 0 2 0.5 "; Num (220 + 0 * 660)]);
         Clicked Page])
  /\ (let w := run boot overtaking in
      hd_error (log (state w))
      = Some (Engine 2 (InputMessage [Text "i 1 0 2 0.5 ";
                                      Num (220 + 0 * 660)]))
      /\ In (Engine 1 Start) (log (state w))
      /\ ~ In (Engine 2 Start) (log (state w))).
Proof.
  split.
  - cbv zeta. repeat split.
  - cbv zeta. split; [reflexivity|]. split.
    + cbn. do 3 right. left. reflexivity.
    + cbn. intros H.
      repeat (destruct H as [H|H]; [discriminate H|]). exact H.
Qed.
End AudioAsyncFacts.
